(** * ws-server-render: the chat channel and its WebSocket relay

    A shallow embedding of [chat-channel.cjs] (classes [ChatChannel],
    [ChatUser], [WebSocketRelay] and the functions
    [initializeChatProcessor], [containsForbiddenFields] and
    [generateRandomName]).

    Conventions of the embedding.
    - A JavaScript number that the program uses as a counter, an id or a
      time is an integer, modelled in [Z]; all of them stay far inside the
      range where doubles are exact.  The one place where the program
      multiplies by a fraction ([maxHistory * 0.7]) is modelled bit for
      bit, see [mul07].
    - A number that a client sends is an integer as well ([JNum]), below
      2^53 in absolute value, where [String] prints the integer itself; a
      frame that holds a number with a fraction is outside the embedding.
    - A JavaScript string is a [string] that holds it in UTF-8; [length]
      and [slice] count UTF-16 code units and [toLowerCase] converts every
      cased letter of Unicode, see the section on strings.
    - A [Map] is a [jsmap], an association list in insertion order (the
      order in which [Map.prototype.values] enumerates); a key of a [Map]
      is a [jsval], compared as [Map] compares (by value for primitives,
      by identity for objects).
    - [log] and [log.err] (from the package [@bprcode/handy]) only print;
      what a call of [log] can still do is throw while its template
      literal argument is converted to a string, and that is modelled.
    - A thrown exception is the [Throw] outcome of the monad [M]; the state
      changes made before the throw are kept, as in JavaScript. *)

From Stdlib Require Import ZArith NArith Lia List Sorted Ascii String.
From stdpp Require Import base decidable option list sorting strings pretty.

Set Warnings "-register-all".

Local Open Scope string_scope.
Local Open Scope Z_scope.

(** ** JavaScript values used as [Map] keys and as user fields *)

(** [VObj n p] is an object or array; [n] is its identity (two objects are
    the same key exactly when they are the same object) and [p] tells
    whether [String] can convert it (see [toStr]). *)
Inductive jsval :=
  | VUndef
  | VNull
  | VBool (b : bool)
  | VNum (n : Z)
  | VStr (s : string)
  | VObj (id : nat) (printable : bool).

#[global] Instance jsval_eq_dec : EqDecision jsval.
Proof. solve_decision. Defined.

(** [a ?? b] *)
Definition nullish (a b : jsval) : jsval :=
  match a with
  | VUndef | VNull => b
  | _ => a
  end.

(** ** Strings *)

(** A JavaScript string is a sequence of UTF-16 code units.  A [string] of
    the embedding holds it in UTF-8, the way a string literal of this file
    is read: a code point below U+10000 is one code unit and takes one to
    three bytes, a code point from U+10000 on is two code units (a
    surrogate pair) and takes four bytes; a surrogate without its partner
    is written in three bytes, like any code point below U+10000.  So
    ["École"] is a string of five code units in six bytes. *)

Definition isAsciiChar (c : ascii) : bool :=
  match c with
  | Ascii _ _ _ _ _ _ _ b => negb b
  end.

Fixpoint isAscii (s : string) : bool :=
  match s with
  | EmptyString => true
  | String c r => isAsciiChar c && isAscii r
  end.

(** The code points of a string, [acc] being those read so far, the last
    one first: a byte [10xxxxxx] continues the code point before it. *)
Fixpoint decodeFrom (acc : list N) (s : string) : list N :=
  match s with
  | EmptyString => rev acc
  | String c r =>
    let b := N_of_ascii c in
    if (b <? 0x80)%N then decodeFrom (b :: acc) r
    else if (b <? 0xC0)%N then
      match acc with
      | p :: acc' => decodeFrom ((p * 64 + (b - 0x80))%N :: acc') r
      | [] => decodeFrom [b] r
      end
    else if (b <? 0xE0)%N then decodeFrom ((b - 0xC0)%N :: acc) r
    else if (b <? 0xF0)%N then decodeFrom ((b - 0xE0)%N :: acc) r
    else decodeFrom ((b - 0xF0)%N :: acc) r
  end.

Definition codePoints (s : string) : list N := decodeFrom [] s.

Definition byte (n : N) : ascii := ascii_of_N n.

Definition encodePoint (c : N) : string :=
  (if c <? 0x80 then String (byte c) ""
   else if c <? 0x800 then
     String (byte (0xC0 + c / 64)) (String (byte (0x80 + c mod 64)) "")
   else if c <? 0x10000 then
     String (byte (0xE0 + c / 4096))
       (String (byte (0x80 + (c / 64) mod 64)) (String (byte (0x80 + c mod 64)) ""))
   else
     String (byte (0xF0 + c / 262144))
       (String (byte (0x80 + (c / 4096) mod 64))
          (String (byte (0x80 + (c / 64) mod 64)) (String (byte (0x80 + c mod 64)) ""))))%N.

Fixpoint encodePoints (l : list N) : string :=
  match l with
  | [] => ""
  | c :: r => encodePoint c ++ encodePoints r
  end.

(** [s.length]: the number of code units. *)
Definition jsLength (s : string) : nat :=
  fold_right (λ c n, if (c <? 0x10000)%N then S n else S (S n)) O (codePoints s).

(** The first [k] code units of a list of code points; when the cut falls
    inside a surrogate pair, its first half stays. *)
Fixpoint takeUnits (k : nat) (l : list N) : list N :=
  match l, k with
  | [], _ | _, O => []
  | c :: r, S k' =>
    if (c <? 0x10000)%N then c :: takeUnits k' r
    else
      match k' with
      | O => [(0xD800 + (c - 0x10000) / 1024)%N]
      | S k'' => c :: takeUnits k'' r
      end
  end.

(** [s.slice(0, k)] *)
Definition jsSlice (k : nat) (s : string) : string :=
  encodePoints (takeUnits k (codePoints s)).

(** *** Lower case

    [toLowerCase] follows the default case conversion of Unicode, without
    regard to the locale: every code point goes to its lower-case mapping,
    with two exceptions.  U+0130 (a capital I with a dot) becomes an [i]
    and a combining dot, and a capital sigma becomes the final form of the
    small sigma at the end of a word: after a cased letter and not before
    one, leaving out of account the code points that case ignores.  The
    tables are those of Unicode 14. *)

(** The code points that have a lower-case mapping (from U+0080 on), in
    runs [(first, last, step, target)]: [first], [first + step], ...,
    [last] go to [target], [target + step], ... . *)
Definition lowerCaseTable : list (N * N * N * N) :=
  [
   (0xC0, 0xD6, 1, 0xE0); (0xD8, 0xDE, 1, 0xF8); (0x100, 0x12E, 2, 0x101);
   (0x132, 0x136, 2, 0x133); (0x139, 0x147, 2, 0x13A); (0x14A, 0x176, 2, 0x14B);
   (0x178, 0x178, 1, 0xFF); (0x179, 0x17D, 2, 0x17A); (0x181, 0x181, 1, 0x253);
   (0x182, 0x184, 2, 0x183); (0x186, 0x186, 1, 0x254); (0x187, 0x187, 1, 0x188);
   (0x189, 0x18A, 1, 0x256); (0x18B, 0x18B, 1, 0x18C); (0x18E, 0x18E, 1, 0x1DD);
   (0x18F, 0x18F, 1, 0x259); (0x190, 0x190, 1, 0x25B); (0x191, 0x191, 1, 0x192);
   (0x193, 0x193, 1, 0x260); (0x194, 0x194, 1, 0x263); (0x196, 0x196, 1, 0x269);
   (0x197, 0x197, 1, 0x268); (0x198, 0x198, 1, 0x199); (0x19C, 0x19C, 1, 0x26F);
   (0x19D, 0x19D, 1, 0x272); (0x19F, 0x19F, 1, 0x275); (0x1A0, 0x1A4, 2, 0x1A1);
   (0x1A6, 0x1A6, 1, 0x280); (0x1A7, 0x1A7, 1, 0x1A8); (0x1A9, 0x1A9, 1, 0x283);
   (0x1AC, 0x1AC, 1, 0x1AD); (0x1AE, 0x1AE, 1, 0x288); (0x1AF, 0x1AF, 1, 0x1B0);
   (0x1B1, 0x1B2, 1, 0x28A); (0x1B3, 0x1B5, 2, 0x1B4); (0x1B7, 0x1B7, 1, 0x292);
   (0x1B8, 0x1B8, 1, 0x1B9); (0x1BC, 0x1BC, 1, 0x1BD); (0x1C4, 0x1C4, 1, 0x1C6);
   (0x1C5, 0x1C5, 1, 0x1C6); (0x1C7, 0x1C7, 1, 0x1C9); (0x1C8, 0x1C8, 1, 0x1C9);
   (0x1CA, 0x1CA, 1, 0x1CC); (0x1CB, 0x1DB, 2, 0x1CC); (0x1DE, 0x1EE, 2, 0x1DF);
   (0x1F1, 0x1F1, 1, 0x1F3); (0x1F2, 0x1F4, 2, 0x1F3); (0x1F6, 0x1F6, 1, 0x195);
   (0x1F7, 0x1F7, 1, 0x1BF); (0x1F8, 0x21E, 2, 0x1F9); (0x220, 0x220, 1, 0x19E);
   (0x222, 0x232, 2, 0x223); (0x23A, 0x23A, 1, 0x2C65); (0x23B, 0x23B, 1, 0x23C);
   (0x23D, 0x23D, 1, 0x19A); (0x23E, 0x23E, 1, 0x2C66); (0x241, 0x241, 1, 0x242);
   (0x243, 0x243, 1, 0x180); (0x244, 0x244, 1, 0x289); (0x245, 0x245, 1, 0x28C);
   (0x246, 0x24E, 2, 0x247); (0x370, 0x372, 2, 0x371); (0x376, 0x376, 1, 0x377);
   (0x37F, 0x37F, 1, 0x3F3); (0x386, 0x386, 1, 0x3AC); (0x388, 0x38A, 1, 0x3AD);
   (0x38C, 0x38C, 1, 0x3CC); (0x38E, 0x38F, 1, 0x3CD); (0x391, 0x3A1, 1, 0x3B1);
   (0x3A3, 0x3AB, 1, 0x3C3); (0x3CF, 0x3CF, 1, 0x3D7); (0x3D8, 0x3EE, 2, 0x3D9);
   (0x3F4, 0x3F4, 1, 0x3B8); (0x3F7, 0x3F7, 1, 0x3F8); (0x3F9, 0x3F9, 1, 0x3F2);
   (0x3FA, 0x3FA, 1, 0x3FB); (0x3FD, 0x3FF, 1, 0x37B); (0x400, 0x40F, 1, 0x450);
   (0x410, 0x42F, 1, 0x430); (0x460, 0x480, 2, 0x461); (0x48A, 0x4BE, 2, 0x48B);
   (0x4C0, 0x4C0, 1, 0x4CF); (0x4C1, 0x4CD, 2, 0x4C2); (0x4D0, 0x52E, 2, 0x4D1);
   (0x531, 0x556, 1, 0x561); (0x10A0, 0x10C5, 1, 0x2D00); (0x10C7, 0x10C7, 1, 0x2D27);
   (0x10CD, 0x10CD, 1, 0x2D2D); (0x13A0, 0x13EF, 1, 0xAB70); (0x13F0, 0x13F5, 1, 0x13F8);
   (0x1C90, 0x1CBA, 1, 0x10D0); (0x1CBD, 0x1CBF, 1, 0x10FD); (0x1E00, 0x1E94, 2, 0x1E01);
   (0x1E9E, 0x1E9E, 1, 0xDF); (0x1EA0, 0x1EFE, 2, 0x1EA1); (0x1F08, 0x1F0F, 1, 0x1F00);
   (0x1F18, 0x1F1D, 1, 0x1F10); (0x1F28, 0x1F2F, 1, 0x1F20); (0x1F38, 0x1F3F, 1, 0x1F30);
   (0x1F48, 0x1F4D, 1, 0x1F40); (0x1F59, 0x1F5F, 2, 0x1F51); (0x1F68, 0x1F6F, 1, 0x1F60);
   (0x1F88, 0x1F8F, 1, 0x1F80); (0x1F98, 0x1F9F, 1, 0x1F90); (0x1FA8, 0x1FAF, 1, 0x1FA0);
   (0x1FB8, 0x1FB9, 1, 0x1FB0); (0x1FBA, 0x1FBB, 1, 0x1F70); (0x1FBC, 0x1FBC, 1, 0x1FB3);
   (0x1FC8, 0x1FCB, 1, 0x1F72); (0x1FCC, 0x1FCC, 1, 0x1FC3); (0x1FD8, 0x1FD9, 1, 0x1FD0);
   (0x1FDA, 0x1FDB, 1, 0x1F76); (0x1FE8, 0x1FE9, 1, 0x1FE0); (0x1FEA, 0x1FEB, 1, 0x1F7A);
   (0x1FEC, 0x1FEC, 1, 0x1FE5); (0x1FF8, 0x1FF9, 1, 0x1F78); (0x1FFA, 0x1FFB, 1, 0x1F7C);
   (0x1FFC, 0x1FFC, 1, 0x1FF3); (0x2126, 0x2126, 1, 0x3C9); (0x212A, 0x212A, 1, 0x6B);
   (0x212B, 0x212B, 1, 0xE5); (0x2132, 0x2132, 1, 0x214E); (0x2160, 0x216F, 1, 0x2170);
   (0x2183, 0x2183, 1, 0x2184); (0x24B6, 0x24CF, 1, 0x24D0); (0x2C00, 0x2C2F, 1, 0x2C30);
   (0x2C60, 0x2C60, 1, 0x2C61); (0x2C62, 0x2C62, 1, 0x26B); (0x2C63, 0x2C63, 1, 0x1D7D);
   (0x2C64, 0x2C64, 1, 0x27D); (0x2C67, 0x2C6B, 2, 0x2C68); (0x2C6D, 0x2C6D, 1, 0x251);
   (0x2C6E, 0x2C6E, 1, 0x271); (0x2C6F, 0x2C6F, 1, 0x250); (0x2C70, 0x2C70, 1, 0x252);
   (0x2C72, 0x2C72, 1, 0x2C73); (0x2C75, 0x2C75, 1, 0x2C76); (0x2C7E, 0x2C7F, 1, 0x23F);
   (0x2C80, 0x2CE2, 2, 0x2C81); (0x2CEB, 0x2CED, 2, 0x2CEC); (0x2CF2, 0x2CF2, 1, 0x2CF3);
   (0xA640, 0xA66C, 2, 0xA641); (0xA680, 0xA69A, 2, 0xA681); (0xA722, 0xA72E, 2, 0xA723);
   (0xA732, 0xA76E, 2, 0xA733); (0xA779, 0xA77B, 2, 0xA77A); (0xA77D, 0xA77D, 1, 0x1D79);
   (0xA77E, 0xA786, 2, 0xA77F); (0xA78B, 0xA78B, 1, 0xA78C); (0xA78D, 0xA78D, 1, 0x265);
   (0xA790, 0xA792, 2, 0xA791); (0xA796, 0xA7A8, 2, 0xA797); (0xA7AA, 0xA7AA, 1, 0x266);
   (0xA7AB, 0xA7AB, 1, 0x25C); (0xA7AC, 0xA7AC, 1, 0x261); (0xA7AD, 0xA7AD, 1, 0x26C);
   (0xA7AE, 0xA7AE, 1, 0x26A); (0xA7B0, 0xA7B0, 1, 0x29E); (0xA7B1, 0xA7B1, 1, 0x287);
   (0xA7B2, 0xA7B2, 1, 0x29D); (0xA7B3, 0xA7B3, 1, 0xAB53); (0xA7B4, 0xA7C2, 2, 0xA7B5);
   (0xA7C4, 0xA7C4, 1, 0xA794); (0xA7C5, 0xA7C5, 1, 0x282); (0xA7C6, 0xA7C6, 1, 0x1D8E);
   (0xA7C7, 0xA7C9, 2, 0xA7C8); (0xA7D0, 0xA7D0, 1, 0xA7D1); (0xA7D6, 0xA7D8, 2, 0xA7D7);
   (0xA7F5, 0xA7F5, 1, 0xA7F6); (0xFF21, 0xFF3A, 1, 0xFF41); (0x10400, 0x10427, 1, 0x10428);
   (0x104B0, 0x104D3, 1, 0x104D8); (0x10570, 0x1057A, 1, 0x10597);
   (0x1057C, 0x1058A, 1, 0x105A3); (0x1058C, 0x10592, 1, 0x105B3);
   (0x10594, 0x10595, 1, 0x105BB); (0x10C80, 0x10CB2, 1, 0x10CC0);
   (0x118A0, 0x118BF, 1, 0x118C0); (0x16E40, 0x16E5F, 1, 0x16E60);
   (0x1E900, 0x1E921, 1, 0x1E922)
  ]%N.

(** The cased letters that case does not ignore, in ranges [(first, last)]. *)
Definition casedTable : list (N * N) :=
  [
   (0x41, 0x5A); (0x61, 0x7A); (0xAA, 0xAA); (0xB5, 0xB5); (0xBA, 0xBA); (0xC0, 0xD6);
   (0xD8, 0xF6); (0xF8, 0x1BA); (0x1BC, 0x1BF); (0x1C4, 0x293); (0x295, 0x2AF); (0x370, 0x373);
   (0x376, 0x377); (0x37B, 0x37D); (0x37F, 0x37F); (0x386, 0x386); (0x388, 0x38A);
   (0x38C, 0x38C); (0x38E, 0x3A1); (0x3A3, 0x3F5); (0x3F7, 0x481); (0x48A, 0x52F);
   (0x531, 0x556); (0x560, 0x588); (0x10A0, 0x10C5); (0x10C7, 0x10C7); (0x10CD, 0x10CD);
   (0x10D0, 0x10FA); (0x10FD, 0x10FF); (0x13A0, 0x13F5); (0x13F8, 0x13FD); (0x1C80, 0x1C88);
   (0x1C90, 0x1CBA); (0x1CBD, 0x1CBF); (0x1D00, 0x1D2B); (0x1D6B, 0x1D77); (0x1D79, 0x1D9A);
   (0x1E00, 0x1F15); (0x1F18, 0x1F1D); (0x1F20, 0x1F45); (0x1F48, 0x1F4D); (0x1F50, 0x1F57);
   (0x1F59, 0x1F59); (0x1F5B, 0x1F5B); (0x1F5D, 0x1F5D); (0x1F5F, 0x1F7D); (0x1F80, 0x1FB4);
   (0x1FB6, 0x1FBC); (0x1FBE, 0x1FBE); (0x1FC2, 0x1FC4); (0x1FC6, 0x1FCC); (0x1FD0, 0x1FD3);
   (0x1FD6, 0x1FDB); (0x1FE0, 0x1FEC); (0x1FF2, 0x1FF4); (0x1FF6, 0x1FFC); (0x2102, 0x2102);
   (0x2107, 0x2107); (0x210A, 0x2113); (0x2115, 0x2115); (0x2119, 0x211D); (0x2124, 0x2124);
   (0x2126, 0x2126); (0x2128, 0x2128); (0x212A, 0x212D); (0x212F, 0x2134); (0x2139, 0x2139);
   (0x213C, 0x213F); (0x2145, 0x2149); (0x214E, 0x214E); (0x2160, 0x217F); (0x2183, 0x2184);
   (0x24B6, 0x24E9); (0x2C00, 0x2C7B); (0x2C7E, 0x2CE4); (0x2CEB, 0x2CEE); (0x2CF2, 0x2CF3);
   (0x2D00, 0x2D25); (0x2D27, 0x2D27); (0x2D2D, 0x2D2D); (0xA640, 0xA66D); (0xA680, 0xA69B);
   (0xA722, 0xA76F); (0xA771, 0xA787); (0xA78B, 0xA78E); (0xA790, 0xA7CA); (0xA7D0, 0xA7D1);
   (0xA7D3, 0xA7D3); (0xA7D5, 0xA7D9); (0xA7F5, 0xA7F6); (0xA7FA, 0xA7FA); (0xAB30, 0xAB5A);
   (0xAB60, 0xAB68); (0xAB70, 0xABBF); (0xFB00, 0xFB06); (0xFB13, 0xFB17); (0xFF21, 0xFF3A);
   (0xFF41, 0xFF5A); (0x10400, 0x1044F); (0x104B0, 0x104D3); (0x104D8, 0x104FB);
   (0x10570, 0x1057A); (0x1057C, 0x1058A); (0x1058C, 0x10592); (0x10594, 0x10595);
   (0x10597, 0x105A1); (0x105A3, 0x105B1); (0x105B3, 0x105B9); (0x105BB, 0x105BC);
   (0x10C80, 0x10CB2); (0x10CC0, 0x10CF2); (0x118A0, 0x118DF); (0x16E40, 0x16E7F);
   (0x1D400, 0x1D454); (0x1D456, 0x1D49C); (0x1D49E, 0x1D49F); (0x1D4A2, 0x1D4A2);
   (0x1D4A5, 0x1D4A6); (0x1D4A9, 0x1D4AC); (0x1D4AE, 0x1D4B9); (0x1D4BB, 0x1D4BB);
   (0x1D4BD, 0x1D4C3); (0x1D4C5, 0x1D505); (0x1D507, 0x1D50A); (0x1D50D, 0x1D514);
   (0x1D516, 0x1D51C); (0x1D51E, 0x1D539); (0x1D53B, 0x1D53E); (0x1D540, 0x1D544);
   (0x1D546, 0x1D546); (0x1D54A, 0x1D550); (0x1D552, 0x1D6A5); (0x1D6A8, 0x1D6C0);
   (0x1D6C2, 0x1D6DA); (0x1D6DC, 0x1D6FA); (0x1D6FC, 0x1D714); (0x1D716, 0x1D734);
   (0x1D736, 0x1D74E); (0x1D750, 0x1D76E); (0x1D770, 0x1D788); (0x1D78A, 0x1D7A8);
   (0x1D7AA, 0x1D7C2); (0x1D7C4, 0x1D7CB); (0x1DF00, 0x1DF09); (0x1DF0B, 0x1DF1E);
   (0x1E900, 0x1E943); (0x1F130, 0x1F149); (0x1F150, 0x1F169); (0x1F170, 0x1F189)
  ]%N.

(** The code points that case ignores, in ranges [(first, last)]. *)
Definition caseIgnorableTable : list (N * N) :=
  [
   (0x27, 0x27); (0x2E, 0x2E); (0x3A, 0x3A); (0x5E, 0x5E); (0x60, 0x60); (0xA8, 0xA8);
   (0xAD, 0xAD); (0xAF, 0xAF); (0xB4, 0xB4); (0xB7, 0xB8); (0x2B0, 0x36F); (0x374, 0x375);
   (0x37A, 0x37A); (0x384, 0x385); (0x387, 0x387); (0x483, 0x489); (0x559, 0x559);
   (0x55F, 0x55F); (0x591, 0x5BD); (0x5BF, 0x5BF); (0x5C1, 0x5C2); (0x5C4, 0x5C5);
   (0x5C7, 0x5C7); (0x5F4, 0x5F4); (0x600, 0x605); (0x610, 0x61A); (0x61C, 0x61C);
   (0x640, 0x640); (0x64B, 0x65F); (0x670, 0x670); (0x6D6, 0x6DD); (0x6DF, 0x6E8);
   (0x6EA, 0x6ED); (0x70F, 0x70F); (0x711, 0x711); (0x730, 0x74A); (0x7A6, 0x7B0);
   (0x7EB, 0x7F5); (0x7FA, 0x7FA); (0x7FD, 0x7FD); (0x816, 0x82D); (0x859, 0x85B);
   (0x888, 0x888); (0x890, 0x891); (0x898, 0x89F); (0x8C9, 0x902); (0x93A, 0x93A);
   (0x93C, 0x93C); (0x941, 0x948); (0x94D, 0x94D); (0x951, 0x957); (0x962, 0x963);
   (0x971, 0x971); (0x981, 0x981); (0x9BC, 0x9BC); (0x9C1, 0x9C4); (0x9CD, 0x9CD);
   (0x9E2, 0x9E3); (0x9FE, 0x9FE); (0xA01, 0xA02); (0xA3C, 0xA3C); (0xA41, 0xA42);
   (0xA47, 0xA48); (0xA4B, 0xA4D); (0xA51, 0xA51); (0xA70, 0xA71); (0xA75, 0xA75);
   (0xA81, 0xA82); (0xABC, 0xABC); (0xAC1, 0xAC5); (0xAC7, 0xAC8); (0xACD, 0xACD);
   (0xAE2, 0xAE3); (0xAFA, 0xAFF); (0xB01, 0xB01); (0xB3C, 0xB3C); (0xB3F, 0xB3F);
   (0xB41, 0xB44); (0xB4D, 0xB4D); (0xB55, 0xB56); (0xB62, 0xB63); (0xB82, 0xB82);
   (0xBC0, 0xBC0); (0xBCD, 0xBCD); (0xC00, 0xC00); (0xC04, 0xC04); (0xC3C, 0xC3C);
   (0xC3E, 0xC40); (0xC46, 0xC48); (0xC4A, 0xC4D); (0xC55, 0xC56); (0xC62, 0xC63);
   (0xC81, 0xC81); (0xCBC, 0xCBC); (0xCBF, 0xCBF); (0xCC6, 0xCC6); (0xCCC, 0xCCD);
   (0xCE2, 0xCE3); (0xD00, 0xD01); (0xD3B, 0xD3C); (0xD41, 0xD44); (0xD4D, 0xD4D);
   (0xD62, 0xD63); (0xD81, 0xD81); (0xDCA, 0xDCA); (0xDD2, 0xDD4); (0xDD6, 0xDD6);
   (0xE31, 0xE31); (0xE34, 0xE3A); (0xE46, 0xE4E); (0xEB1, 0xEB1); (0xEB4, 0xEBC);
   (0xEC6, 0xEC6); (0xEC8, 0xECD); (0xF18, 0xF19); (0xF35, 0xF35); (0xF37, 0xF37);
   (0xF39, 0xF39); (0xF71, 0xF7E); (0xF80, 0xF84); (0xF86, 0xF87); (0xF8D, 0xF97);
   (0xF99, 0xFBC); (0xFC6, 0xFC6); (0x102D, 0x1030); (0x1032, 0x1037); (0x1039, 0x103A);
   (0x103D, 0x103E); (0x1058, 0x1059); (0x105E, 0x1060); (0x1071, 0x1074); (0x1082, 0x1082);
   (0x1085, 0x1086); (0x108D, 0x108D); (0x109D, 0x109D); (0x10FC, 0x10FC); (0x135D, 0x135F);
   (0x1712, 0x1714); (0x1732, 0x1733); (0x1752, 0x1753); (0x1772, 0x1773); (0x17B4, 0x17B5);
   (0x17B7, 0x17BD); (0x17C6, 0x17C6); (0x17C9, 0x17D3); (0x17D7, 0x17D7); (0x17DD, 0x17DD);
   (0x180B, 0x180F); (0x1843, 0x1843); (0x1885, 0x1886); (0x18A9, 0x18A9); (0x1920, 0x1922);
   (0x1927, 0x1928); (0x1932, 0x1932); (0x1939, 0x193B); (0x1A17, 0x1A18); (0x1A1B, 0x1A1B);
   (0x1A56, 0x1A56); (0x1A58, 0x1A5E); (0x1A60, 0x1A60); (0x1A62, 0x1A62); (0x1A65, 0x1A6C);
   (0x1A73, 0x1A7C); (0x1A7F, 0x1A7F); (0x1AA7, 0x1AA7); (0x1AB0, 0x1ACE); (0x1B00, 0x1B03);
   (0x1B34, 0x1B34); (0x1B36, 0x1B3A); (0x1B3C, 0x1B3C); (0x1B42, 0x1B42); (0x1B6B, 0x1B73);
   (0x1B80, 0x1B81); (0x1BA2, 0x1BA5); (0x1BA8, 0x1BA9); (0x1BAB, 0x1BAD); (0x1BE6, 0x1BE6);
   (0x1BE8, 0x1BE9); (0x1BED, 0x1BED); (0x1BEF, 0x1BF1); (0x1C2C, 0x1C33); (0x1C36, 0x1C37);
   (0x1C78, 0x1C7D); (0x1CD0, 0x1CD2); (0x1CD4, 0x1CE0); (0x1CE2, 0x1CE8); (0x1CED, 0x1CED);
   (0x1CF4, 0x1CF4); (0x1CF8, 0x1CF9); (0x1D2C, 0x1D6A); (0x1D78, 0x1D78); (0x1D9B, 0x1DFF);
   (0x1FBD, 0x1FBD); (0x1FBF, 0x1FC1); (0x1FCD, 0x1FCF); (0x1FDD, 0x1FDF); (0x1FED, 0x1FEF);
   (0x1FFD, 0x1FFE); (0x200B, 0x200F); (0x2018, 0x2019); (0x2024, 0x2024); (0x2027, 0x2027);
   (0x202A, 0x202E); (0x2060, 0x2064); (0x2066, 0x206F); (0x2071, 0x2071); (0x207F, 0x207F);
   (0x2090, 0x209C); (0x20D0, 0x20F0); (0x2C7C, 0x2C7D); (0x2CEF, 0x2CF1); (0x2D6F, 0x2D6F);
   (0x2D7F, 0x2D7F); (0x2DE0, 0x2DFF); (0x2E2F, 0x2E2F); (0x3005, 0x3005); (0x302A, 0x302D);
   (0x3031, 0x3035); (0x303B, 0x303B); (0x3099, 0x309E); (0x30FC, 0x30FE); (0xA015, 0xA015);
   (0xA4F8, 0xA4FD); (0xA60C, 0xA60C); (0xA66F, 0xA672); (0xA674, 0xA67D); (0xA67F, 0xA67F);
   (0xA69C, 0xA69F); (0xA6F0, 0xA6F1); (0xA700, 0xA721); (0xA770, 0xA770); (0xA788, 0xA78A);
   (0xA7F2, 0xA7F4); (0xA7F8, 0xA7F9); (0xA802, 0xA802); (0xA806, 0xA806); (0xA80B, 0xA80B);
   (0xA825, 0xA826); (0xA82C, 0xA82C); (0xA8C4, 0xA8C5); (0xA8E0, 0xA8F1); (0xA8FF, 0xA8FF);
   (0xA926, 0xA92D); (0xA947, 0xA951); (0xA980, 0xA982); (0xA9B3, 0xA9B3); (0xA9B6, 0xA9B9);
   (0xA9BC, 0xA9BD); (0xA9CF, 0xA9CF); (0xA9E5, 0xA9E6); (0xAA29, 0xAA2E); (0xAA31, 0xAA32);
   (0xAA35, 0xAA36); (0xAA43, 0xAA43); (0xAA4C, 0xAA4C); (0xAA70, 0xAA70); (0xAA7C, 0xAA7C);
   (0xAAB0, 0xAAB0); (0xAAB2, 0xAAB4); (0xAAB7, 0xAAB8); (0xAABE, 0xAABF); (0xAAC1, 0xAAC1);
   (0xAADD, 0xAADD); (0xAAEC, 0xAAED); (0xAAF3, 0xAAF4); (0xAAF6, 0xAAF6); (0xAB5B, 0xAB5F);
   (0xAB69, 0xAB6B); (0xABE5, 0xABE5); (0xABE8, 0xABE8); (0xABED, 0xABED); (0xFB1E, 0xFB1E);
   (0xFBB2, 0xFBC2); (0xFE00, 0xFE0F); (0xFE13, 0xFE13); (0xFE20, 0xFE2F); (0xFE52, 0xFE52);
   (0xFE55, 0xFE55); (0xFEFF, 0xFEFF); (0xFF07, 0xFF07); (0xFF0E, 0xFF0E); (0xFF1A, 0xFF1A);
   (0xFF3E, 0xFF3E); (0xFF40, 0xFF40); (0xFF70, 0xFF70); (0xFF9E, 0xFF9F); (0xFFE3, 0xFFE3);
   (0xFFF9, 0xFFFB); (0x101FD, 0x101FD); (0x102E0, 0x102E0); (0x10376, 0x1037A);
   (0x10780, 0x10785); (0x10787, 0x107B0); (0x107B2, 0x107BA); (0x10A01, 0x10A03);
   (0x10A05, 0x10A06); (0x10A0C, 0x10A0F); (0x10A38, 0x10A3A); (0x10A3F, 0x10A3F);
   (0x10AE5, 0x10AE6); (0x10D24, 0x10D27); (0x10EAB, 0x10EAC); (0x10F46, 0x10F50);
   (0x10F82, 0x10F85); (0x11001, 0x11001); (0x11038, 0x11046); (0x11070, 0x11070);
   (0x11073, 0x11074); (0x1107F, 0x11081); (0x110B3, 0x110B6); (0x110B9, 0x110BA);
   (0x110BD, 0x110BD); (0x110C2, 0x110C2); (0x110CD, 0x110CD); (0x11100, 0x11102);
   (0x11127, 0x1112B); (0x1112D, 0x11134); (0x11173, 0x11173); (0x11180, 0x11181);
   (0x111B6, 0x111BE); (0x111C9, 0x111CC); (0x111CF, 0x111CF); (0x1122F, 0x11231);
   (0x11234, 0x11234); (0x11236, 0x11237); (0x1123E, 0x1123E); (0x112DF, 0x112DF);
   (0x112E3, 0x112EA); (0x11300, 0x11301); (0x1133B, 0x1133C); (0x11340, 0x11340);
   (0x11366, 0x1136C); (0x11370, 0x11374); (0x11438, 0x1143F); (0x11442, 0x11444);
   (0x11446, 0x11446); (0x1145E, 0x1145E); (0x114B3, 0x114B8); (0x114BA, 0x114BA);
   (0x114BF, 0x114C0); (0x114C2, 0x114C3); (0x115B2, 0x115B5); (0x115BC, 0x115BD);
   (0x115BF, 0x115C0); (0x115DC, 0x115DD); (0x11633, 0x1163A); (0x1163D, 0x1163D);
   (0x1163F, 0x11640); (0x116AB, 0x116AB); (0x116AD, 0x116AD); (0x116B0, 0x116B5);
   (0x116B7, 0x116B7); (0x1171D, 0x1171F); (0x11722, 0x11725); (0x11727, 0x1172B);
   (0x1182F, 0x11837); (0x11839, 0x1183A); (0x1193B, 0x1193C); (0x1193E, 0x1193E);
   (0x11943, 0x11943); (0x119D4, 0x119D7); (0x119DA, 0x119DB); (0x119E0, 0x119E0);
   (0x11A01, 0x11A0A); (0x11A33, 0x11A38); (0x11A3B, 0x11A3E); (0x11A47, 0x11A47);
   (0x11A51, 0x11A56); (0x11A59, 0x11A5B); (0x11A8A, 0x11A96); (0x11A98, 0x11A99);
   (0x11C30, 0x11C36); (0x11C38, 0x11C3D); (0x11C3F, 0x11C3F); (0x11C92, 0x11CA7);
   (0x11CAA, 0x11CB0); (0x11CB2, 0x11CB3); (0x11CB5, 0x11CB6); (0x11D31, 0x11D36);
   (0x11D3A, 0x11D3A); (0x11D3C, 0x11D3D); (0x11D3F, 0x11D45); (0x11D47, 0x11D47);
   (0x11D90, 0x11D91); (0x11D95, 0x11D95); (0x11D97, 0x11D97); (0x11EF3, 0x11EF4);
   (0x13430, 0x13438); (0x16AF0, 0x16AF4); (0x16B30, 0x16B36); (0x16B40, 0x16B43);
   (0x16F4F, 0x16F4F); (0x16F8F, 0x16F9F); (0x16FE0, 0x16FE1); (0x16FE3, 0x16FE4);
   (0x1AFF0, 0x1AFF3); (0x1AFF5, 0x1AFFB); (0x1AFFD, 0x1AFFE); (0x1BC9D, 0x1BC9E);
   (0x1BCA0, 0x1BCA3); (0x1CF00, 0x1CF2D); (0x1CF30, 0x1CF46); (0x1D167, 0x1D169);
   (0x1D173, 0x1D182); (0x1D185, 0x1D18B); (0x1D1AA, 0x1D1AD); (0x1D242, 0x1D244);
   (0x1DA00, 0x1DA36); (0x1DA3B, 0x1DA6C); (0x1DA75, 0x1DA75); (0x1DA84, 0x1DA84);
   (0x1DA9B, 0x1DA9F); (0x1DAA1, 0x1DAAF); (0x1E000, 0x1E006); (0x1E008, 0x1E018);
   (0x1E01B, 0x1E021); (0x1E023, 0x1E024); (0x1E026, 0x1E02A); (0x1E130, 0x1E13D);
   (0x1E2AE, 0x1E2AE); (0x1E2EC, 0x1E2EF); (0x1E8D0, 0x1E8D6); (0x1E944, 0x1E94B);
   (0x1F3FB, 0x1F3FF); (0xE0001, 0xE0001); (0xE0020, 0xE007F); (0xE0100, 0xE01EF)
  ]%N.

Fixpoint lookupLower (c : N) (t : list (N * N * N * N)) : N :=
  match t with
  | [] => c
  | (first, last, step, target) :: rest =>
    if ((first <=? c) && (c <=? last) && ((c - first) mod step =? 0))%N
    then (target + (c - first))%N
    else lookupLower c rest
  end.

Definition lowerPoint (c : N) : N :=
  if (c <? 0x80)%N then (if ((0x41 <=? c) && (c <=? 0x5A))%N then c + 0x20 else c)%N
  else lookupLower c lowerCaseTable.

Definition inRanges (c : N) (t : list (N * N)) : bool :=
  existsb (λ r, (r.1 <=? c) && (c <=? r.2))%N t.

(** Is the first code point of [l] that case does not ignore a cased
    letter?  ([l] is what follows a sigma or, the nearest first, what
    comes before it.) *)
Fixpoint casedNext (l : list N) : bool :=
  match l with
  | [] => false
  | c :: r => if inRanges c caseIgnorableTable then casedNext r else inRanges c casedTable
  end.

(** [before] holds the code points already converted, the nearest first. *)
Fixpoint lowerPoints (before l : list N) : list N :=
  match l with
  | [] => []
  | c :: r =>
    (if (c =? 0x3A3)%N
     then [if casedNext before && negb (casedNext r) then 0x3C2 else 0x3C3]%N
     else if (c =? 0x130)%N then [0x69; 0x307]%N
     else [lowerPoint c]) ++ lowerPoints (c :: before) r
  end.

Definition lower_ascii (c : ascii) : ascii :=
  let n := nat_of_ascii c in
  if (Nat.leb 65 n && Nat.leb n 90)%bool then ascii_of_nat (n + 32) else c.

Fixpoint asciiLower (s : string) : string :=
  match s with
  | EmptyString => EmptyString
  | String c r => String (lower_ascii c) (asciiLower r)
  end.

(** [s.toLowerCase()].  In a string of ASCII only, the letters A-Z are all
    that changes. *)
Definition toLowerCase (s : string) : string :=
  if isAscii s then asciiLower s else encodePoints (lowerPoints [] (codePoints s)).

(** ** Exceptions and the state-and-exception monad *)

Inductive exn :=
  | NameInUse (name : string)       (* `A user named ${name} already exists.` *)
  | SessionInUse (sid : jsval)      (* `${sessionId} is already in use.` *)
  | SocketInUse (sock : jsval)      (* `Socket ${socketId} already assigned.` *)
  | TypeError                       (* raised by the language itself *)
  | SyntaxError                     (* raised by JSON.parse *)
  | Depth.                          (* the embedding ran out of re-entrancy fuel *)

Inductive outcome (A : Type) :=
  | Ok (a : A)
  | Throw (e : exn).
Arguments Ok {A} a.
Arguments Throw {A} e.

Definition M (S A : Type) : Type := S → outcome A * S.

Definition ret {S A} (a : A) : M S A := λ s, (Ok a, s).
Definition throw {S A} (e : exn) : M S A := λ s, (Throw e, s).
Definition bind {S A B} (m : M S A) (k : A → M S B) : M S B :=
  λ s, match m s with
       | (Ok a, s') => k a s'
       | (Throw e, s') => (Throw e, s')
       end.
Definition get {S} : M S S := λ s, (Ok s, s).
Definition put {S} (s : S) : M S unit := λ _, (Ok tt, s).
Definition modify {S} (f : S → S) : M S unit := λ s, (Ok tt, f s).

Notation "'let*' x ':=' m 'in' k" := (bind m (λ x, k))
  (at level 10, x name, m at level 100, k at level 200, only parsing).
Notation "m '>>' k" := (bind m (λ _, k))
  (at level 100, k at level 200, right associativity, only parsing).

(** ** [Map]: an association list in insertion order *)

Definition jsmap (K V : Type) : Type := list (K * V).

Section JsMap.
Context {K V : Type} `{EqDecision K}.

(** [m.get(k)]; [None] is [undefined]. *)
Fixpoint mget (k : K) (m : jsmap K V) : option V :=
  match m with
  | [] => None
  | (k', v) :: rest => if decide (k' = k) then Some v else mget k rest
  end.

(** [m.has(k)] *)
Definition mhas (k : K) (m : jsmap K V) : bool := bool_decide (is_Some (mget k m)).

(** [m.set(k, v)]: a key that is present keeps its place. *)
Fixpoint mset (k : K) (v : V) (m : jsmap K V) : jsmap K V :=
  match m with
  | [] => [(k, v)]
  | (k', v') :: rest =>
    if decide (k' = k) then (k', v) :: rest else (k', v') :: mset k v rest
  end.

(** [m.delete(k)] *)
Fixpoint mdelete (k : K) (m : jsmap K V) : jsmap K V :=
  match m with
  | [] => []
  | (k', v') :: rest =>
    if decide (k' = k) then mdelete k rest else (k', v') :: mdelete k rest
  end.

(** [[...m.values()]] *)
Definition mvalues (m : jsmap K V) : list V := map snd m.

(** Mutation of the stored objects in place. *)
Definition mupdate (f : V → V) (m : jsmap K V) : jsmap K V :=
  map (λ kv, (kv.1, f kv.2)) m.
End JsMap.

(** ** ChatUser and the user registry *)

(** [oid] is the identity of the JavaScript object: the three maps hold
    references to one [ChatUser] object, and [Object.assign] in [updateUser]
    changes that object wherever it is referenced. *)
Record ChatUser := mkUser {
  oid : nat;
  socketId : jsval;
  sessionId : jsval;
  name : string;
}.

#[global] Instance ChatUser_eq_dec : EqDecision ChatUser.
Proof. solve_decision. Defined.

Definition lowerCaseName (u : ChatUser) : string := toLowerCase (name u).

(** The argument of [createUser] and of [new ChatUser]: an object with the
    properties [socketId], [sessionId] (absent: [VUndef]) and [name]. *)
Record properties := mkProps {
  p_socketId : jsval;
  p_sessionId : jsval;
  p_name : string;
}.

(** [channel.users], with the allocation counter of [ChatUser] objects. *)
Record Users := mkUsers {
  lowerCaseNames : jsmap string ChatUser;
  sockets : jsmap jsval ChatUser;
  sessions : jsmap jsval ChatUser;
  nextOid : nat;
}.

Definition emptyUsers : Users := mkUsers [] [] [] 0.

(** [new ChatUser(properties)] *)
Definition newChatUser (o : nat) (p : properties) : ChatUser :=
  mkUser o (nullish (p_socketId p) VNull) (nullish (p_sessionId p) VNull) (p_name p).

Definition createUser (p : properties) : M Users unit := λ us,
  if mhas (toLowerCase (p_name p)) (lowerCaseNames us) then (Throw (NameInUse (p_name p)), us)
  else if mhas (p_sessionId p) (sessions us) then (Throw (SessionInUse (p_sessionId p)), us)
  else if mhas (p_socketId p) (sockets us) then (Throw (SocketInUse (p_socketId p)), us)
  else
    let u := newChatUser (nextOid us) p in
    (Ok tt,
     mkUsers (mset (lowerCaseName u) u (lowerCaseNames us))
             (mset (socketId u) u (sockets us))
             (mset (sessionId u) u (sessions us))
             (S (nextOid us))).

(** The argument of [getUser]: an object that may have the properties
    [name], [sessionId] and [socketId]. *)
Record trait := mkTrait {
  t_name : option string;
  t_sessionId : option jsval;
  t_socketId : option jsval;
}.

Definition byName (n : string) : trait := mkTrait (Some n) None None.
Definition bySession (k : jsval) : trait := mkTrait None (Some k) None.
Definition bySocket (k : jsval) : trait := mkTrait None None (Some k).

(** A [ChatUser] passed where a trait is expected: it has all three
    properties. *)
Definition traitOfUser (u : ChatUser) : trait :=
  mkTrait (Some (name u)) (Some (sessionId u)) (Some (socketId u)).

Definition getUser (t : trait) (us : Users) : option ChatUser :=
  match t_name t with
  | Some n => mget (toLowerCase n) (lowerCaseNames us)
  | None =>
    match t_sessionId t with
    | Some k => mget k (sessions us)
    | None =>
      match t_socketId t with
      | Some k => mget k (sockets us)
      | None => None
      end
    end
  end.

Definition deleteUser (t : trait) : M Users bool := λ us,
  match getUser t us with
  | Some u =>
    (Ok true,
     mkUsers (mdelete (lowerCaseName u) (lowerCaseNames us))
             (mdelete (socketId u) (sockets us))
             (mdelete (sessionId u) (sessions us))
             (nextOid us))
  | None => (Ok false, us)
  end.

(** The second argument of [updateUser]: the properties to overwrite. *)
Record patch := mkPatch {
  w_socketId : option jsval;
  w_sessionId : option jsval;
  w_name : option string;
}.

Definition assignFields (what : patch) (u : ChatUser) : ChatUser :=
  mkUser (oid u)
         (default (socketId u) (w_socketId what))
         (default (sessionId u) (w_sessionId what))
         (default (name u) (w_name what)).

(** [Object.assign(u, what)]: the object [u] changes in every map that still
    refers to it. *)
Definition objectAssign (u : ChatUser) (what : patch) : M Users ChatUser := λ us,
  let upd (v : ChatUser) := if decide (oid v = oid u) then assignFields what v else v in
  (Ok (assignFields what u),
   mkUsers (mupdate upd (lowerCaseNames us)) (mupdate upd (sockets us))
           (mupdate upd (sessions us))
           (nextOid us)).

Definition propsOfUser (u : ChatUser) : properties :=
  mkProps (socketId u) (sessionId u) (name u).

Definition updateUser (who : trait) (what : patch) : M Users bool :=
  let* us := get in
  match getUser who us with
  | Some u =>
    deleteUser (traitOfUser u) >>
    let* u' := objectAssign u what in
    createUser (propsOfUser u') >>
    ret true
  | None => ret false
  end.

(** ** Sequences of registry operations *)

Inductive op :=
  | OpCreate (p : properties)
  | OpDelete (t : trait)
  | OpUpdate (who : trait) (what : patch).

(** The registry after one operation; an exception thrown by the operation
    leaves the changes made before it. *)
Definition runOp (us : Users) (o : op) : Users :=
  match o with
  | OpCreate p => (createUser p us).2
  | OpDelete t => (deleteUser t us).2
  | OpUpdate who what => (updateUser who what us).2
  end.

Definition runOps (os : list op) (us : Users) : Users := fold_left runOp os us.

(** [u] is referenced by some index. *)
Definition stored (us : Users) (u : ChatUser) : Prop :=
  (∃ k, mget k (lowerCaseNames us) = Some u) ∨
  (∃ k, mget k (sessions us) = Some u) ∨
  (∃ k, mget k (sockets us) = Some u).

(** The three indexes agree on membership: a user referenced by any index is
    in each index under its own key, and under no other key. *)
Definition agree (us : Users) : Prop :=
  ∀ u, stored us u →
    (∀ k, mget k (lowerCaseNames us) = Some u ↔ k = lowerCaseName u) ∧
    (∀ k, mget k (sessions us) = Some u ↔ k = sessionId u) ∧
    (∀ k, mget k (sockets us) = Some u ↔ k = socketId u).

(** The operations whose session and socket keys are given (not
    [undefined]). *)
Definition keyed (o : op) : Prop :=
  match o with
  | OpCreate p => p_sessionId p ≠ VUndef ∧ p_socketId p ≠ VUndef
  | OpDelete _ => True
  | OpUpdate _ what => w_sessionId what ≠ Some VUndef ∧ w_socketId what ≠ Some VUndef
  end.

(** The invariant of the registry: agreement, together with what the
    allocation of [ChatUser] objects guarantees. *)
Record registry_ok (us : Users) : Prop := {
  ok_agree : agree us;
  ok_keys : ∀ u, stored us u →
      (oid u < nextOid us)%nat ∧ sessionId u ≠ VUndef ∧ socketId u ≠ VUndef;
  ok_oid : ∀ u v, stored us u → stored us v → oid u = oid v → u = v;
  ok_names : NoDup (map fst (lowerCaseNames us));
  ok_sessions : NoDup (map fst (sessions us));
  ok_sockets : NoDup (map fst (sockets us));
}.

(** ** Parsed JSON and messages *)

(** The result of [JSON.parse].  The properties of an object are listed in
    the order in which [for ... in] enumerates them. *)
Inductive json :=
  | JNull
  | JBool (b : bool)
  | JNum (n : Z)
  | JStr (s : string)
  | JArr (items : list json)
  | JObj (fields : list (string * json)).

(** [typeof v === 'object'] *)
Definition typeofObject (v : json) : bool :=
  match v with
  | JNull | JArr _ | JObj _ => true
  | _ => false
  end.

(** [/^_/.test(key)] *)
Definition reserved (key : string) : bool :=
  match key with
  | String c _ => bool_decide (c = "_"%char)
  | EmptyString => false
  end.

(** [containsForbiddenFields(message, recursionDepth)].  The keys of an
    array are its indexes, none of which is reserved; [null] has no keys. *)
Fixpoint containsForbiddenFields (message : json) (recursionDepth : nat) : bool :=
  if (9 <? recursionDepth)%nat then true
  else
    match message with
    | JObj fields =>
      (fix each (fs : list (string * json)) : bool :=
         match fs with
         | [] => false
         | (key, v) :: rest =>
           if reserved key then true
           else if typeofObject v && containsForbiddenFields v (S recursionDepth) then true
           else each rest
         end) fields
    | JArr items =>
      (fix each (vs : list json) : bool :=
         match vs with
         | [] => false
         | v :: rest =>
           if typeofObject v && containsForbiddenFields v (S recursionDepth) then true
           else each rest
         end) items
    | _ => false
    end.

Definition hasKey (key : string) (fields : list (string * json)) : bool :=
  existsb (λ kv, bool_decide (kv.1 = key)) fields.

(** [String(v)]; [None] when the conversion throws a TypeError (an object
    whose own property [toString] hides the inherited method). *)
Fixpoint toStr (v : json) : option string :=
  match v with
  | JNull => Some "null"
  | JBool true => Some "true"
  | JBool false => Some "false"
  | JNum n => Some (pretty n)
  | JStr s => Some s
  | JArr items =>
    (fix join (vs : list json) : option string :=
       match vs with
       | [] => Some ""
       | v :: rest =>
         match (match v with JNull => Some "" | _ => toStr v end) with
         | Some s =>
           match rest with
           | [] => Some s
           | _ => match join rest with
                  | Some r => Some (s ++ "," ++ r)
                  | None => None
                  end
           end
         | None => None
         end
       end) items
  | JObj fields => if hasKey "toString" fields then None else Some "[object Object]"
  end.

(** A message is a JavaScript object. *)
Abbreviation msg := (list (string * json)).

(** [m[key]]; [None] is [undefined]. *)
Fixpoint getField (key : string) (m : msg) : option json :=
  match m with
  | [] => None
  | (k, v) :: rest => if decide (k = key) then Some v else getField key rest
  end.

(** [m[key] = v] *)
Fixpoint setField (key : string) (v : json) (m : msg) : msg :=
  match m with
  | [] => [(key, v)]
  | (k, w) :: rest =>
    if decide (k = key) then (k, v) :: rest else (k, w) :: setField key v rest
  end.

(** [delete m[key]] *)
Fixpoint delField (key : string) (m : msg) : msg :=
  match m with
  | [] => []
  | (k, w) :: rest =>
    if decide (k = key) then rest else (k, w) :: delField key rest
  end.

(** An object literal whose property values may be [undefined]; an
    [undefined] property is not encoded and never read back, so it is left
    out. *)
Definition literal (fields : list (string * option json)) : msg :=
  omap (λ kv, match kv.2 with Some v => Some (kv.1, v) | None => None end) fields.

(** A message that travels through the channel: an object, or an array
    (a client may send one) that has been given named properties.  [items]
    are the elements of the array, [props] the named properties, and [mid]
    is the identity of the object: the history holds the message objects
    themselves, and a later change of such an object shows there. *)
Record message := mkMsg {
  mid : nat;
  items : option (list json);
  props : msg;
}.

(** An object literal; [channel.receive] records which object it is. *)
Definition obj (fields : msg) : message := mkMsg 0 None fields.
Definition fget (key : string) (m : message) : option json := getField key (props m).
Definition fset (key : string) (v : json) (m : message) : message :=
  mkMsg (mid m) (items m) (setField key v (props m)).
Definition fdel (key : string) (m : message) : message :=
  mkMsg (mid m) (items m) (delField key (props m)).

(** What [JSON.stringify(m)] encodes: the named properties of an array are
    left out. *)
Definition encode (m : message) : json :=
  match items m with
  | Some l => JArr l
  | None => JObj (props m)
  end.

(** The value of a property read as a [Map] key.  [fresh] is the identity
    given to an object that has just been parsed. *)
Definition keyOf (fresh : nat) (v : option json) : jsval :=
  match v with
  | None => VUndef
  | Some JNull => VNull
  | Some (JBool b) => VBool b
  | Some (JNum n) => VNum n
  | Some (JStr s) => VStr s
  | Some w => VObj fresh (bool_decide (is_Some (toStr w)))
  end.

(** A user field written into a message.  (A socket id is a connection id
    or [null], never an object.) *)
Definition jsonOf (v : jsval) : option json :=
  match v with
  | VUndef => None
  | VNull => Some JNull
  | VBool b => Some (JBool b)
  | VNum n => Some (JNum n)
  | VStr s => Some (JStr s)
  | VObj _ _ => Some (JObj [])
  end.

(** ** The relay's connections *)

(** One tracked socket with its [socketInfo] record.  [sock] is the identity
    of the transport object. *)
Record conn := mkConn {
  sock : nat;
  id : Z;
  canListen : bool;
}.

#[global] Instance conn_eq_dec : EqDecision conn.
Proof. solve_decision. Defined.

(** [sent] lists the calls [s.send(json)] in order, oldest first: the socket
    and the value that was encoded. *)
Record Relay := mkRelay {
  r_sockets : list conn;
  connectionID : Z;
  sent : list (nat * json);
}.

Definition emptyRelay : Relay := mkRelay [] 0 [].

(** [approveListener(socketId)] *)
Fixpoint approve (socketId : Z) (cs : list conn) : list conn :=
  match cs with
  | [] => []
  | c :: rest =>
    if decide (id c = socketId) then mkConn (sock c) (id c) true :: rest
    else c :: approve socketId rest
  end.

Definition approveListener (socketId : jsval) (r : Relay) : Relay :=
  match socketId with
  | VNum n => mkRelay (approve n (r_sockets r)) (connectionID r) (sent r)
  | _ => r
  end.

(** [m.to.includes(info.id)] *)
Definition includes (n : Z) (l : list json) : bool :=
  existsb (λ v, match v with JNum k => bool_decide (k = n) | _ => false end) l.

(** The sockets to which [broadcast] sends a message addressed to [to]. *)
Definition addressed (to : list json) (cs : list conn) : list conn :=
  filter (λ c, canListen c = true ∧ includes (id c) to = true) cs.

Definition approved (cs : list conn) : list conn :=
  filter (λ c, canListen c = true) cs.

(** [broadcast(m)] on a message object.  The result is [m] as the call
    leaves it: a single addressee has been wrapped in an array. *)
Definition broadcast (m : message) (r : Relay) : message * Relay :=
  match fget "to" m with
  | Some to =>
    let to' := match to with JArr l => l | _ => [to] end in
    (fset "to" (JArr to') m,
     mkRelay (r_sockets r) (connectionID r)
             (sent r ++ map (λ c, (sock c, encode m)) (addressed to' (r_sockets r))))
  | None =>
    (m,
     mkRelay (r_sockets r) (connectionID r)
             (sent r ++ map (λ c, (sock c, encode m)) (approved (r_sockets r))))
  end.

(** ** The history and its trim *)

(** The double nearest to 0.7 is [c07 / 2^52]. *)
Definition c07 : Z := 3152519739159347.

(** Rounding of a positive integer to 53 significant bits, to nearest, ties
    to even: the rounding of one double-precision operation. *)
Definition round53 (p : Z) : Z :=
  let b := Z.log2 p in
  if b <? 53 then p
  else
    let s := b - 52 in
    let q := p / 2 ^ s in
    let r := p mod 2 ^ s in
    let half := 2 ^ (s - 1) in
    let q' := if (half <? r) || ((r =? half) && Z.odd q) then q + 1 else q in
    q' * 2 ^ s.

(** [maxHistory * 0.7] as the double it is, in units of [2^-52]. *)
Definition mul07 (maxHistory : nat) : Z := round53 (Z.of_nat maxHistory * c07).

(** The integer to which [slice] converts [maxHistory * 0.7]: the product
    truncated. *)
Definition kept (maxHistory : nat) : nat := Z.to_nat (mul07 maxHistory / 2 ^ 52).

(** [l.slice(-x)] where [x] truncates to [k]: the last [k] elements, and the
    whole of [l] when [k] is 0 (then [-x] is converted to 0). *)
Definition sliceLast {A} (k : nat) (l : list A) : list A :=
  match k with
  | O => l
  | _ => drop (length l - k) l
  end.

(** The trim of the remember stage. *)
Definition trim {A} (maxHistory : nat) (h : list A) : list A :=
  if (maxHistory <? length h)%nat then sliceLast (kept maxHistory) h else h.

(** ** The channel and the world *)

Record Channel := mkChannel {
  users : Users;
  lastSerial : Z;
  lastTimestamp : Z;
  maxHistory : nat;
  maxNameLength : nat;
  history : list message;
}.

(** [serverId]: an id not used by any external connection. *)
Definition serverId : Z := -1.

Definition newChannel (maxH maxN : nat) : Channel :=
  mkChannel emptyUsers 0 0 maxH maxN [].

(** The channel with its relay (the two are attached to each other when
    the server starts), and how much of the environment has been consumed:
    [ticks] counts the calls of [Date.now], [draws] those of [Math.random],
    and [nextObj] the objects that got an identity. *)
Record World := mkWorld {
  channel : Channel;
  relay : Relay;
  ticks : nat;
  draws : nat;
  nextObj : nat;
}.

Definition newWorld (maxH maxN : nat) : World :=
  mkWorld (newChannel maxH maxN) emptyRelay 0 0 0.

Definition withChannel (f : Channel → Channel) (w : World) : World :=
  mkWorld (f (channel w)) (relay w) (ticks w) (draws w) (nextObj w).
Definition withRelay (f : Relay → Relay) (w : World) : World :=
  mkWorld (channel w) (f (relay w)) (ticks w) (draws w) (nextObj w).
Definition withUsers (f : Users → Users) (c : Channel) : Channel :=
  mkChannel (f (users c)) (lastSerial c) (lastTimestamp c) (maxHistory c)
            (maxNameLength c) (history c).
Definition withHistory (f : list message → list message) (c : Channel) : Channel :=
  mkChannel (users c) (lastSerial c) (lastTimestamp c) (maxHistory c)
            (maxNameLength c) (f (history c)).
Definition withLastSerial (n : Z) (c : Channel) : Channel :=
  mkChannel (users c) n (lastTimestamp c) (maxHistory c) (maxNameLength c) (history c).
Definition withLastTimestamp (n : Z) (c : Channel) : Channel :=
  mkChannel (users c) (lastSerial c) n (maxHistory c) (maxNameLength c) (history c).

(** A registry operation run on the channel of the world. *)
Definition onUsers {A} (m : M Users A) : M World A := λ w,
  let '(r, us) := m (users (channel w)) in
  (r, withChannel (withUsers (λ _, us)) w).

Definition lookupUser (t : trait) : M World (option ChatUser) := λ w,
  (Ok (getUser t (users (channel w))), w).

(** [x.name] where [x] may be [undefined]. *)
Definition nameOf (u : option ChatUser) : M World string :=
  match u with
  | Some u => ret (name u)
  | None => throw TypeError
  end.

(** The conversion of a template literal's hole. *)
Definition toStrOpt (v : option json) : option string :=
  match v with
  | None => Some "undefined"
  | Some w => toStr w
  end.

Definition template (v : option json) : M World string :=
  match toStrOpt v with
  | Some s => ret s
  | None => throw TypeError
  end.

(** ** Name generation *)

Definition adjectives : list string :=
  ["Persnickety"; "Spectacular"; "Winsome"; "Beguiling"; "Gregarious"; "Modest";
   "Vaporous"; "Harmonious"; "Adamant"; "Adroit"; "Frolicsome"; "Munificent";
   "Voluble"].

Definition animals : list string :=
  ["Aardvark"; "Anteater"; "Armadillo"; "Badger"; "Coatimundi"; "Cormorant";
   "Octopus"; "Crocodile"; "Gecko"; "Parakeet"; "Shark"; "Stork"; "Toucan";
   "Ostrich"; "Ocelot"; "Pangolin"; "Quokka"].

(** [l[Math.floor(r * l.length)]] for a draw [r] of [Math.random]: some
    element of [l]; the draw is given as a number and reduced modulo the
    length. *)
Definition pick (l : list string) (r : nat) : string :=
  nth (r mod length l)%nat l "".

(** The loop [while (channel.getUser({ name: possibleName })) { ... }];
    [None] when the fuel does not suffice. *)
Fixpoint probe (fuel : nat) (us : Users) (name possibleName : string) (count : nat)
  : option string :=
  match fuel with
  | O => None
  | S fuel' =>
    match getUser (byName possibleName) us with
    | Some _ => probe fuel' us name (name ++ "-" ++ pretty count) (S count)
    | None => Some possibleName
    end
  end.

(** [generateRandomName(channel)] with the two draws [r1], [r2] of
    [Math.random].  The loop needs at most one round more than there are
    registered names (lemma [probe_terminates]). *)
Definition generateRandomName (r1 r2 : nat) (us : Users) : option string :=
  let name := pick animals r1 in
  match getUser (byName name) us with
  | Some _ =>
    let name := pick adjectives r2 ++ " " ++ name in
    probe (S (length (lowerCaseNames us))) us name name 2
  | None => Some name
  end.

(** ** The pipeline engine *)

(** What a pattern asks of one key. *)
Inductive patval :=
  | PEq (v : json)    (* the key has this value *)
  | PAny.             (* '*': the key is present, with a value that is not empty *)

(** [===] against a string or a boolean. *)
Definition strictEq (v w : json) : bool :=
  match v, w with
  | JStr a, JStr b => bool_decide (a = b)
  | JBool a, JBool b => bool_decide (a = b)
  | JNum a, JNum b => bool_decide (a = b)
  | JNull, JNull => true
  | _, _ => false
  end.

(** Modelled from the spec: the pattern test of the pipeline engine
    ([conveyor.cjs] is not among the sources).  All keys of the pattern must
    be present with an equal value; the wildcard matches a key that is
    present with a value other than the empty string. *)
Definition matches (pattern : list (string * patval)) (m : message) : bool :=
  forallb (λ kp,
    match fget kp.1 m, kp.2 with
    | Some v, PEq w => strictEq v w
    | Some v, PAny => negb (strictEq v (JStr ""))
    | None, _ => false
    end) pattern.

(** A stage: its pattern and its handler.  The handler gives back the
    message as it leaves it and whether it called [end()]. *)
Record stage := mkStage {
  pattern : list (string * patval);
  handler : message → M World (message * bool);
}.

(** Modelled from the spec: [Conveyor.process] ([conveyor.cjs] is not among
    the sources).  The stages run in registration order; a stage whose
    pattern the message does not satisfy is skipped; after a handler that
    called [end()] no further stage runs; an exception of a handler is not
    caught. *)
Fixpoint process (stages : list stage) (m : message) : M World unit :=
  match stages with
  | [] => ret tt
  | st :: rest =>
    if matches (pattern st) m then
      bind (handler st m) (λ r, if r.2 then ret tt else process rest r.1)
    else process rest m
  end.

(** ** The channel's stages *)

(** A name cut to the maximum length, with the mark of the cut. *)
Definition cutName (maxLen : nat) (s : string) : string :=
  if (maxLen <? jsLength s)%nat then jsSlice maxLen s ++ "..." else s.

Section Channel.

(** The environment: the successive results of [Date.now()] and of
    [Math.random()] (see [pick]), and the comparisons [n >= v] and
    [n <= v] of a number with a value sent by a client (they convert [v]
    to a number, which is outside the integers of this embedding). *)
Variable dateNow : nat → Z.
Variable mathRandom : nat → nat.
Variable jsGe jsLe : Z → json → bool.

(** [channel.receive], for the handlers that call it. *)
Variable receive : message → M World unit.

(** [m._sender] as a [Map] key: a connection id, or [serverId]. *)
Definition senderOf (m : message) : M World jsval :=
  ret (keyOf (mid m) (fget "_sender" m)).

(** The names of the users, in the order of [sessions.values()]. *)
Definition userNames (us : Users) : list json :=
  map (λ u, JStr (name u)) (mvalues (sessions us)).

(** [logUsers()]: the template literals convert each session id. *)
Definition logUsers : M World unit := λ w,
  if forallb (λ u, match sessionId u with VObj _ false => false | _ => true end)
             (mvalues (sessions (users (channel w))))
  then (Ok tt, w) else (Throw TypeError, w).

Definition broadcastUserList : M World unit :=
  let* w := get in
  receive (obj [("_set", JStr "users");
                ("value", JArr (userNames (users (channel w))))]) >>
  logUsers.

(** [retrieve(first, last)] *)
Definition retrieve (first last : json) (c : Channel) : list message :=
  filter (λ h, match fget "_serial" h with
               | Some (JNum n) => jsGe n first && jsLe n last
               | _ => false
               end = true) (history c).

(** [if (v.length > maxNameLength) v = v.slice(0, maxNameLength) + '...'].
    For an object the test reads its property [length]; whatever the
    outcome, the object is no string and the lookup by name that follows
    in both callers throws the same TypeError, with nothing done in
    between. *)
Definition truncated (maxLen : nat) (v : option json) : M World json :=
  match v with
  | None | Some JNull => throw TypeError
  | Some (JStr s) => ret (JStr (cutName maxLen s))
  | Some (JArr l) =>
    if (maxLen <? length l)%nat
    then match toStr (JArr (take maxLen l)) with
         | Some s => ret (JStr (s ++ "..."))
         | None => throw TypeError
         end
    else ret (JArr l)
  | Some w => ret w
  end.

(** [v.toLowerCase()] inside [getUser({ name: v })]. *)
Definition asName (v : json) : M World string :=
  match v with
  | JStr s => ret s
  | _ => throw TypeError
  end.

Definition connectStage : message → M World (message * bool) :=
  λ m, ret (m, true).

Definition disconnectStage : message → M World (message * bool) := λ m,
  let* sender := senderOf m in
  let* u := lookupUser (bySocket sender) in
  let* uname :=
    match u with
    | Some u => onUsers (deleteUser (traitOfUser u)) >> ret (name u)
    | None => ret "Unknown user"
    end in
  receive (obj [("text", JStr (uname ++ " disconnected."));
                ("_remember", JBool true)]) >>
  broadcastUserList >>
  ret (m, true).

Definition renameStage : message → M World (message * bool) := λ m,
  let* w := get in
  let* text := truncated (maxNameLength (channel w)) (fget "text" m) in
  let m := fset "text" text m in
  template (Some text) >>
  let* sender := senderOf m in
  let* currentRecord := lookupUser (bySocket sender) in
  let* newName := asName text in
  let* nameHolder := lookupUser (byName newName) in
  match nameHolder with
  | None =>
    let* oldName := nameOf currentRecord in
    receive (obj [("text", JStr (oldName ++ " renamed to " ++ newName));
                  ("_remember", JBool true)]) >>
    receive (obj [("_set", JStr "rename");
                  ("value", JArr [JStr oldName; JStr newName])]) >>
    onUsers (updateUser (bySocket sender) (mkPatch None None (Some newName))) >>
    broadcastUserList >>
    ret (m, true)
  | Some holder =>
    match currentRecord with
    | None => throw TypeError
    | Some current =>
      if decide (sessionId holder = sessionId current) then
        receive (obj (literal
          [("to", fget "_sender" m);
           ("text", Some (JStr ("You are already named " ++ newName ++ ".")))])) >>
        ret (m, true)
      else
        receive (obj (literal
          [("text", Some (JStr ("Name already in use. (" ++ newName ++ ")")));
           ("to", fget "_sender" m)])) >>
        receive (obj (literal
          [("to", fget "_sender" m);
           ("_set", Some (JStr "name"));
           ("value", Some (JStr (name current)))])) >>
        ret (m, true)
    end
  end.

(** The session id of an identify request as a [Map] key; an object or
    array gets its identity here. *)
Definition sidOf (m : message) : M World jsval := λ w,
  match keyOf (nextObj w) (fget "sid" m) with
  | VObj i p =>
    (Ok (VObj i p), mkWorld (channel w) (relay w) (ticks w) (draws w) (S (nextObj w)))
  | k => (Ok k, w)
  end.

(** [generateRandomName(channel)], drawing twice from [Math.random] when
    the noun is in use and once otherwise. *)
Definition suggestName : M World string := λ w,
  let us := users (channel w) in
  let r1 := mathRandom (draws w) in
  let r2 := mathRandom (S (draws w)) in
  let used := match getUser (byName (pick animals r1)) us with
              | Some _ => 2%nat
              | None => 1%nat
              end in
  let w' := mkWorld (channel w) (relay w) (ticks w) (draws w + used) (nextObj w) in
  match generateRandomName r1 r2 us with
  | Some n => (Ok n, w')
  | None => (Throw Depth, w')
  end.

(** The first half of the identify stage: the listener is approved, the
    name is cut to length, and the user is created, under the requested
    name or under a generated one. *)
Definition identifyUser (m : message) : M World message :=
  let* sender := senderOf m in
  modify (withRelay (approveListener sender)) >>
  let* w := get in
  let* nm := truncated (maxNameLength (channel w)) (fget "name" m) in
  let m := fset "name" nm m in
  let* requested := asName nm in
  let* holder := lookupUser (byName requested) in
  (if bool_decide (is_Some holder) || bool_decide (requested = "") then
     let* suggestedName := suggestName in
     let* sid := sidOf m in
     onUsers (createUser (mkProps sender sid suggestedName)) >>
     let* u := lookupUser (bySocket sender) in
     nameOf u >> ret tt
   else
     template (fget "sid" m) >>
     let* sid := sidOf m in
     onUsers (createUser (mkProps sender sid requested))) >>
  ret m.

(** The identify stage: after [identifyUser], the client is told its
    name and the last serial, the arrival is announced and the user list
    is broadcast. *)
Definition identifyStage : message → M World (message * bool) := λ m,
  let* m := identifyUser m in
  let* sender := senderOf m in
  let* u := lookupUser (bySocket sender) in
  let* n := nameOf u in
  receive (obj (literal [("to", fget "_sender" m);
                         ("_set", Some (JStr "name"));
                         ("value", Some (JStr n))])) >>
  let* w := get in
  receive (obj (literal [("to", fget "_sender" m);
                         ("_set", Some (JStr "lastSeen"));
                         ("value", Some (JNum (lastSerial (channel w))))])) >>
  let* u := lookupUser (bySocket sender) in
  let* n := nameOf u in
  receive (obj [("text", JStr (n ++ " joined.")); ("_remember", JBool true)]) >>
  broadcastUserList >>
  ret (m, true).

(** [a ?? b] on a property. *)
Definition orElse (v : option json) (d : json) : json :=
  match v with
  | None | Some JNull => d
  | Some w => w
  end.

Definition historyStage : message → M World (message * bool) := λ m,
  let* w := get in
  let first := orElse (fget "first" m) (JNum 0) in
  let last := orElse (fget "last" m) (JNum (lastSerial (channel w))) in
  let records := retrieve first last (channel w) in
  match records with
  | [] => ret (m, true)
  | _ =>
    receive (obj (literal [("to", fget "_sender" m);
                           ("history", Some (JArr (map encode records)))])) >>
    ret (m, true)
  end.

Definition directStage : message → M World (message * bool) := λ m,
  let* recipient :=
    match fget "recipient" m with
    | Some v => asName v
    | None => throw TypeError
    end in
  let* whom := lookupUser (byName recipient) in
  match whom with
  | None =>
    receive (obj (literal [("to", fget "_sender" m);
                           ("text", Some (JStr "Recipient not found."))])) >>
    ret (m, true)
  | Some whom =>
    let* sender := senderOf m in
    let* u := lookupUser (bySocket sender) in
    let* n := nameOf u in
    let m := fset "name" (JStr n) m in
    let label := JStr (n ++ " → " ++ name whom) in
    receive (obj (literal [("to", jsonOf (socketId whom));
                           ("name", Some label);
                           ("text", fget "text" m)])) >>
    (if decide (sender = socketId whom) then ret tt
     else receive (obj (literal [("to", fget "_sender" m);
                                 ("name", Some label);
                                 ("text", fget "text" m)]))) >>
    ret (m, true)
  end.

Definition transmitStage : message → M World (message * bool) := λ m,
  let* sender := senderOf m in
  let* u := lookupUser (bySocket sender) in
  let* n := nameOf u in
  ret (fset "_remember" (JBool true) (fset "name" (JStr n) m), false).

(** [100 * parseInt(now / 100)]: [parseInt] drops the fraction. *)
Definition coarse (now : Z) : Z := 100 * (now ÷ 100).

(** The timestamp that the stage assigns, from the clock and the last
    timestamp. *)
Definition nextTimestamp (now lastTimestamp : Z) : Z :=
  let timestamp := coarse now in
  if timestamp <=? lastTimestamp then lastTimestamp + 1 else timestamp.

Definition timestampStage : message → M World (message * bool) := λ m w,
  let timestamp := nextTimestamp (dateNow (ticks w)) (lastTimestamp (channel w)) in
  (Ok (fset "_time" (JNum timestamp) m, false),
   mkWorld (withLastTimestamp timestamp (channel w)) (relay w)
           (S (ticks w)) (draws w) (nextObj w)).

Definition senderErasureStage : message → M World (message * bool) := λ m,
  ret (fdel "_sender" m, false).

(** The stage that keeps a record.  The template literal of its [log]
    call converts [m.name] and [m.text], after the push and before the
    trim. *)
Definition rememberStage : message → M World (message * bool) := λ m,
  let m := fdel "_remember" m in
  let* w := get in
  let serial := lastSerial (channel w) + 1 in
  let m := fset "_serial" (JNum serial) m in
  modify (withChannel (λ c, withHistory (λ h, (h ++ [m])%list) (withLastSerial serial c))) >>
  template (fget "name" m) >>
  template (fget "text" m) >>
  modify (withChannel (λ c, withHistory (trim (maxHistory c)) c)) >>
  ret (m, false).

(** [m.to = [m.to]] as the history sees it: a message that the remember
    stage has pushed is the very object that [broadcast] changes. *)
Definition assignTo (m' : message) (history : list message) : list message :=
  match fget "to" m' with
  | Some to => map (λ h, if decide (mid h = mid m') then fset "to" to h else h) history
  | None => history
  end.

(** The last stage: [channel.relay?.broadcast?.(m)]. *)
Definition broadcastStage : message → M World (message * bool) := λ m w,
  let '(m', r) := broadcast m (relay w) in
  (Ok (m', false),
   mkWorld (withHistory (assignTo m') (channel w))
           r (ticks w) (draws w) (nextObj w)).

(** [initializeChatProcessor]: the stages in the order of their
    registration. *)
Definition stages : list stage :=
  [ mkStage [("_event", PEq (JStr "connect"))] connectStage;
    mkStage [("_event", PEq (JStr "disconnect"))] disconnectStage;
    mkStage [("request", PEq (JStr "rename"))] renameStage;
    mkStage [("request", PEq (JStr "identify"))] identifyStage;
    mkStage [("request", PEq (JStr "history"))] historyStage;
    mkStage [("recipient", PAny)] directStage;
    mkStage [("_event", PEq (JStr "transmit"))] transmitStage;
    mkStage [] timestampStage;
    mkStage [] senderErasureStage;
    mkStage [("_remember", PEq (JBool true))] rememberStage;
    mkStage [] broadcastStage ].

(** The body of [channel.receive(message)] for a message object: the
    object gets its identity, [message._sender ??= this.serverId], and
    the processor runs. *)
Definition receiveBody (message : message) : M World unit := λ w,
  let m := mkMsg (nextObj w) (items message) (props message) in
  let m := match fget "_sender" m with
           | None | Some JNull => fset "_sender" (JNum serverId) m
           | Some _ => m
           end in
  process stages m (mkWorld (channel w) (relay w) (ticks w) (draws w) (S (nextObj w))).

End Channel.

(** ** [channel.receive] and the relay's handlers *)

Section Server.

Variable dateNow : nat → Z.
Variable mathRandom : nat → nat.
Variable jsGe jsLe : Z → json → bool.

(** [channel.receive(message)].  A handler may call [receive] again; the
    fuel bounds the depth of these calls.  The handlers call it only on
    messages that no handler calling [receive] matches, so depth 2 is
    never exceeded (lemma [receiveN_fuel]). *)
Fixpoint receiveN (fuel : nat) (message : message) : M World unit :=
  match fuel with
  | O => throw Depth
  | S fuel' => receiveBody dateNow mathRandom jsGe jsLe (receiveN fuel') message
  end.

Definition receive : message → M World unit := receiveN 2.

Definition findConn (s : nat) (r : Relay) : option conn :=
  List.find (λ c, Nat.eqb (sock c) s) (r_sockets r).

(** [receiveConnection(s)] *)
Definition receiveConnection (s : nat) : M World bool :=
  let* w := get in
  match findConn s (relay w) with
  | Some _ => ret false
  | None =>
    let id := connectionID (relay w) in
    modify (withRelay (λ r,
      mkRelay (r_sockets r ++ [mkConn s id false]) (connectionID r + 1) (sent r))) >>
    receive (obj [("_sender", JNum id); ("_event", JStr "connect")]) >>
    ret true
  end.

(** [if (typeof m !== 'object') m = { text: String(m) }] *)
Definition wrapPrimitive (m : json) : json :=
  match m with
  | JBool true => JObj [("text", JStr "true")]
  | JBool false => JObj [("text", JStr "false")]
  | JNum n => JObj [("text", JStr (pretty n))]
  | JStr s => JObj [("text", JStr s)]
  | _ => m
  end.

(** The body of the [try] block of the message handler of the socket
    with connection id [id]; [data] is the frame as [JSON.parse] reads
    it, [None] when it does not parse.  ([null] passes the test of the
    fields, and the assignment of [_sender] to it throws.) *)
Definition messageBody (id : Z) (data : option json) : M World unit :=
  match data with
  | None => throw SyntaxError
  | Some parsed =>
    let m := wrapPrimitive parsed in
    if containsForbiddenFields m 0 then ret tt
    else
      match m with
      | JObj fields =>
        receive (fset "_event" (JStr "transmit")
                  (fset "_sender" (JNum id) (obj fields)))
      | JArr l =>
        receive (fset "_event" (JStr "transmit")
                  (fset "_sender" (JNum id) (mkMsg 0 (Some l) [])))
      | _ => throw TypeError
      end
  end.

(** The message handler: whatever the [try] block throws is caught and
    logged. *)
Definition onMessage (s : nat) (data : option json) : M World unit := λ w,
  match findConn s (relay w) with
  | Some c => (Ok tt, (messageBody (id c) data w).2)
  | None => (Ok tt, w)
  end.

(** The close handler. *)
Definition onClose (s : nat) : M World unit :=
  let* w := get in
  match findConn s (relay w) with
  | Some c =>
    receive (obj [("_sender", JNum (id c)); ("_event", JStr "disconnect")]) >>
    modify (withRelay (λ r,
      mkRelay (List.filter (λ c, negb (Nat.eqb (sock c) s)) (r_sockets r))
              (connectionID r) (sent r)))
  | None => ret tt
  end.

(** What happens to the server: a socket connects, a frame arrives on a
    tracked socket, a socket closes, or the server announces that it has
    started (the call of [channel.receive] in [server.js]). *)
Inductive event :=
  | Connection (s : nat)
  | Frame (s : nat) (data : option json)
  | Close (s : nat)
  | Started (text : string).

Definition step (w : World) (e : event) : World :=
  match e with
  | Connection s => (receiveConnection s w).2
  | Frame s data => (onMessage s data w).2
  | Close s => (onClose s w).2
  | Started text =>
    (receive (obj [("text", JStr text); ("_remember", JBool true)]) w).2
  end.

Definition run (es : list event) (w : World) : World := fold_left step es w.

End Server.

(** ** Notions used by the statements *)

(** The messages sent to the socket [s], oldest first. *)
Definition received (s : nat) (r : Relay) : list json :=
  map snd (List.filter (λ sm, Nat.eqb sm.1 s) (sent r)).

(** The serial of a history record. *)
Definition serialOf (h : message) : Z :=
  match fget "_serial" h with
  | Some (JNum n) => n
  | _ => 0
  end.

Definition serials (h : list message) : list Z := map serialOf h.

(** The integers from [a] on, [n] of them. *)
Fixpoint countFrom (a : Z) (n : nat) : list Z :=
  match n with
  | O => []
  | S k => a :: countFrom (a + 1) k
  end.

(** [ceil(M * 0.7)] as the specification writes it, in exact arithmetic. *)
Definition ceil07 (maxHistory : nat) : nat := Z.to_nat ((7 * Z.of_nat maxHistory + 9) / 10).

(** [m] has a reserved key, at any depth. *)
Fixpoint hasReservedKey (m : json) : bool :=
  match m with
  | JObj fields =>
    (fix each (fs : list (string * json)) : bool :=
       match fs with
       | [] => false
       | (key, v) :: rest => reserved key || hasReservedKey v || each rest
       end) fields
  | JArr l =>
    (fix each (vs : list json) : bool :=
       match vs with
       | [] => false
       | v :: rest => hasReservedKey v || each rest
       end) l
  | _ => false
  end.

(** How deep the objects and arrays of [m] nest: 0 for a primitive, 1 for
    an object or array of primitives. *)
Fixpoint nesting (m : json) : nat :=
  match m with
  | JObj fields =>
    S ((fix each (fs : list (string * json)) : nat :=
          match fs with
          | [] => O
          | (_, v) :: rest => Nat.max (nesting v) (each rest)
          end) fields)
  | JArr l =>
    S ((fix each (vs : list json) : nat :=
          match vs with
          | [] => O
          | v :: rest => Nat.max (nesting v) (each rest)
          end) l)
  | _ => O
  end.

(** ** Invariants of the world *)

(** The command [c] keeps the invariant [I], whether it returns or throws. *)
Definition preserves (I : World → Prop) {A} (c : M World A) : Prop :=
  ∀ w, I w → I (c w).2.

(** The command [c] leaves the history and the serial counter alone, and
    takes back no object identity. *)
Definition stable {A} (c : M World A) : Prop :=
  ∀ w, history (channel (c w).2) = history (channel w) ∧
       lastSerial (channel (c w).2) = lastSerial (channel w) ∧
       maxHistory (channel (c w).2) = maxHistory (channel w) ∧
       (nextObj w ≤ nextObj (c w).2)%nat.

(** The serials of the history are strictly increasing and none is beyond
    the counter. *)
Definition serials_ok (w : World) : Prop :=
  StronglySorted Z.lt (serials (history (channel w))) ∧
  Forall (λ n, n ≤ lastSerial (channel w)) (serials (history (channel w))).

(** Between [w0] and [w] the counter has not gone back and no serial that
    was available at [w0] or before has been given to a new record. *)
Definition no_reuse (w0 w : World) : Prop :=
  lastSerial (channel w0) ≤ lastSerial (channel w) ∧
  ∀ n, n ∈ serials (history (channel w)) → n ≤ lastSerial (channel w0) →
       n ∈ serials (history (channel w0)).

(** What has been sent between the worlds [w] and [w']. *)
Definition delivered (w w' : World) : list (nat * json) :=
  drop (length (sent (relay w))) (sent (relay w')).

(** The history holds objects that got their identity earlier. *)
Definition ids_ok (w : World) : Prop :=
  Forall (λ h, (mid h < nextObj w)%nat) (history (channel w)).

(** The command [c] keeps [ids_ok] and takes back no object identity, in
    the worlds where the identities below [n] have been given. *)
Definition ids_step (n : nat) {A} (c : M World A) : Prop :=
  ∀ w, (n ≤ nextObj w)%nat → ids_ok w →
       ids_ok (c w).2 ∧ (nextObj w ≤ nextObj (c w).2)%nat.

(** What the command [c] returns satisfies [Q]. *)
Definition returns {A} (Q : A → Prop) (c : M World A) : Prop :=
  ∀ w a w', c w = (Ok a, w') → Q a.

(** The exceptions that [createUser] throws. *)
Definition conflict (e : exn) : Prop :=
  match e with
  | NameInUse _ | SessionInUse _ | SocketInUse _ => True
  | _ => False
  end.

(** The message that [channel.receive] hands to the stages when the relay
    passes on the frame [fields] of the connection [id], and the world in
    which the stages start. *)
Definition frameMessage (id : Z) (fields : msg) (w : World) : message :=
  mkMsg (nextObj w) None
        (setField "_event" (JStr "transmit") (setField "_sender" (JNum id) fields)).

Definition started (w : World) : World :=
  mkWorld (channel w) (relay w) (ticks w) (draws w) (S (nextObj w)).

(** What [broadcast] sends for a message without addressee, and for one
    addressed to the connection [id]: the encoded message, to each socket
    concerned. *)
Definition toApproved (r : Relay) (encoded : json) : list (nat * json) :=
  map (λ c, (sock c, encoded)) (approved (r_sockets r)).

Definition toAddressee (r : Relay) (id : Z) (encoded : json) : list (nat * json) :=
  map (λ c, (sock c, encoded)) (addressed [JNum id] (r_sockets r)).

(** ** The effect of [channel.receive] on the messages that the stages make *)

Section ServerMade.

Variable dateNow : nat → Z.

(** The timestamp that the next message gets. *)
Definition stampOf (w : World) : Z :=
  nextTimestamp (dateNow (ticks w)) (lastTimestamp (channel w)).

(** The world after a message without addressee that is not to be
    remembered: its fields with the timestamp are sent to the approved
    sockets. *)
Definition afterNotice (fields : msg) (w : World) : World :=
  let ts := stampOf w in
  mkWorld (withLastTimestamp ts (channel w))
          (mkRelay (r_sockets (relay w)) (connectionID (relay w))
             (sent (relay w) ++ toApproved (relay w) (JObj (fields ++ [("_time", JNum ts)]))))
          (S (ticks w)) (draws w) (S (nextObj w)).

(** The world after a private message for the connection [id]. *)
Definition afterPrivate (id : Z) (fields : msg) (w : World) : World :=
  let ts := stampOf w in
  let reply := mkMsg (nextObj w) None (fields ++ [("_time", JNum ts)]) in
  mkWorld (withHistory (assignTo (fset "to" (JArr [JNum id]) reply))
                       (withLastTimestamp ts (channel w)))
          (mkRelay (r_sockets (relay w)) (connectionID (relay w))
             (sent (relay w) ++ toAddressee (relay w) id (encode reply)))
          (S (ticks w)) (draws w) (S (nextObj w)).

(** The world after an announcement that is remembered. *)
Definition afterAnnouncement (text : string) (w : World) : World :=
  let ts := stampOf w in
  let n := lastSerial (channel w) + 1 in
  let record := mkMsg (nextObj w) None
                  [("text", JStr text); ("_time", JNum ts); ("_serial", JNum n)] in
  mkWorld (mkChannel (users (channel w)) n ts (maxHistory (channel w))
             (maxNameLength (channel w))
             (trim (maxHistory (channel w)) (history (channel w) ++ [record])))
          (mkRelay (r_sockets (relay w)) (connectionID (relay w))
             (sent (relay w) ++ toApproved (relay w) (encode record)))
          (S (ticks w)) (draws w) (S (nextObj w)).

End ServerMade.

(** An invariant of the history and the serial counter, as an invariant of
    the world. *)
Definition carried (J : list message → Z → Prop) (w : World) : Prop :=
  J (history (channel w)) (lastSerial (channel w)).

(** A message that no stage before the timestamp stage matches; the
    messages that the stages themselves hand to [channel.receive] are of
    this kind. *)
Definition serverMade (m : message) : Prop :=
  fget "_event" m = None ∧ fget "request" m = None ∧ fget "recipient" m = None.

(** Two commands that do the same in every world. *)
Definition same {A} (c c' : M World A) : Prop := ∀ w, c w = c' w.

(** ** Example runs *)

(** An environment: a clock that stands still, draws that all give the first
    element, and the comparisons on numbers. *)
Definition clock0 : nat → Z := λ _, 1700000000000.
Definition dice0 : nat → nat := λ _, 0%nat.
Definition numGe (n : Z) (v : json) : bool :=
  match v with JNum k => k <=? n | _ => false end.
Definition numLe (n : Z) (v : json) : bool :=
  match v with JNum k => n <=? k | _ => false end.

Definition identifyFrame (name sid : string) : json :=
  JObj [("request", JStr "identify"); ("name", JStr name); ("sid", JStr sid)].

Definition renameFrame (text : string) : json :=
  JObj [("request", JStr "rename"); ("text", JStr text)].

(** Alice has identified on socket 7 (connection 0, session s1); socket 8
    (connection 1) has connected and not identified. *)
Definition aliceAndGuest : World :=
  run clock0 dice0 numGe numLe
    [Connection 7; Frame 7 (Some (identifyFrame "Alice" "s1")); Connection 8]
    (newWorld 50 30).

(** Alice on socket 7 and Bob on socket 8 (connection 1, session s2). *)
Definition aliceAndBob : World :=
  run clock0 dice0 numGe numLe [Frame 8 (Some (identifyFrame "Bob" "s2"))] aliceAndGuest.

(** Two clients identify without a [sid] field. *)
Definition twoWithoutSession : World :=
  run clock0 dice0 numGe numLe
    [Connection 7; Frame 7 (Some (JObj [("request", JStr "identify"); ("name", JStr "a")]));
     Connection 8; Frame 8 (Some (JObj [("request", JStr "identify"); ("name", JStr "b")]))]
    (newWorld 50 30).

(** ** Notions used by the further properties *)

(** How many levels [containsForbiddenFields] descends into [m]: as
    [nesting], but a [null] counts as a level too (its [typeof] is
    ['object'], so the function is called on it). *)
Fixpoint levels (m : json) : nat :=
  match m with
  | JObj fields =>
    S ((fix each (fs : list (string * json)) : nat :=
          match fs with
          | [] => O
          | (_, v) :: rest => Nat.max (levels v) (each rest)
          end) fields)
  | JArr l =>
    S ((fix each (vs : list json) : nat :=
          match vs with
          | [] => O
          | v :: rest => Nat.max (levels v) (each rest)
          end) l)
  | JNull => 1
  | _ => O
  end.

(** The command [c] leaves the channel and the relay alone. *)
Definition quiet {A} (c : M World A) : Prop :=
  ∀ w, channel (c w).2 = channel w ∧ relay (c w).2 = relay w.

(** The [Map] key of the sender of [m] once [channel.receive] has filled in
    a missing sender; [i] is the identity that the message object gets. *)
Definition senderKey (m : message) (i : nat) : jsval :=
  keyOf i (match fget "_sender" m with
           | None | Some JNull => Some (JNum serverId)
           | v => v
           end).

(** The messages on which the identify stage, if it runs, approves a
    sender that satisfies [ok]: those that are no identify request, and
    those whose sender is such. *)
Definition admissible (ok : jsval → Prop) (m : message) : Prop :=
  fget "request" m ≠ Some (JStr "identify") ∨ ∀ i, ok (senderKey m i).

(** The tracked sockets with their connection ids, in the order of
    connection, and the counter of connection ids. *)
Definition skeleton (r : Relay) : list (nat * Z) * Z :=
  (map (λ c, (sock c, id c)) (r_sockets r), connectionID r).

(** The tracked sockets are distinct objects; their connection ids are not
    negative, below the counter, and increase in the order of
    connection. *)
Definition relay_ok (r : Relay) : Prop :=
  NoDup (map sock (r_sockets r)) ∧
  StronglySorted Z.lt (map id (r_sockets r)) ∧
  Forall (λ c, 0 ≤ id c < connectionID r) (r_sockets r) ∧
  0 ≤ connectionID r.

(** Between the relays [r0] and [r] the counter of connection ids has not
    gone back, and a connection id given at [r0] or before belongs to the
    socket that had it at [r0]. *)
Definition ids_not_reused (r0 r : Relay) : Prop :=
  connectionID r0 ≤ connectionID r ∧
  ∀ c, c ∈ r_sockets r → id c < connectionID r0 →
       ∃ c0, c0 ∈ r_sockets r0 ∧ id c0 = id c ∧ sock c0 = sock c.

(** The frame is an identify request: it parses to an object whose
    property [request] is the string "identify". *)
Definition identifies (data : option json) : bool :=
  match data with
  | Some (JObj fields) =>
    match getField "request" fields with
    | Some (JStr s) => bool_decide (s = "identify")
    | _ => false
    end
  | _ => false
  end.

(** No tracked connection of the socket [s] may listen, and nothing has
    been sent to [s]. *)
Definition mute (s : nat) (r : Relay) : Prop :=
  (∀ c, c ∈ r_sockets r → sock c = s → canListen c = false) ∧ received s r = [].

(** The history [h] holds, in order and without a gap, the records with
    the last [length h] serials given: the one at position [i] has the
    property [_serial] with the number [n - length h + 1 + i], where [n] is
    the serial counter. *)
Definition stocked (h : list message) (n : Z) : Prop :=
  Z.of_nat (length h) ≤ n ∧
  Forall2 (λ r k, fget "_serial" r = Some (JNum k)) h
          (countFrom (n - Z.of_nat (length h) + 1) (length h)).


(** ** Timestamps of what is recorded and sent *)

(** The [_time] of a value that was sent: the number in the property
    [_time] of an object. *)
Definition timeOf (v : json) : option Z :=
  match v with
  | JObj fields =>
    match getField "_time" fields with
    | Some (JNum t) => Some t
    | _ => None
    end
  | _ => None
  end.

(** The [_time] of a message object. *)
Definition timeOfMsg (m : message) : option Z := timeOf (JObj (props m)).

(** A value that was sent has its [_time]: an object has the property (an
    array is encoded without its named properties). *)
Definition stamped (v : json) : Prop :=
  match v with
  | JObj _ => is_Some (timeOf v)
  | _ => True
  end.

(** The numbers [ts] increase strictly, and none is above [bound]. *)
Definition risingTo (bound : Z) (ts : list Z) : Prop :=
  StronglySorted Z.lt ts ∧ Forall (λ t, t ≤ bound) ts.

(** The tracked sockets are distinct objects; every record of the history
    and every object that was sent has a [_time]; and the [_time]s of the
    history, and of what each socket was sent, increase strictly and stay
    at or below the last timestamp of the channel. *)
Definition timed (w : World) : Prop :=
  let last := lastTimestamp (channel w) in
  NoDup (map sock (r_sockets (relay w))) ∧
  Forall (λ r, is_Some (timeOfMsg r)) (history (channel w)) ∧
  risingTo last (omap timeOfMsg (history (channel w))) ∧
  Forall (λ sm : nat * json, stamped sm.2) (sent (relay w)) ∧
  ∀ s, risingTo last (omap timeOf (received s (relay w))).

(** ** The name index *)

(** The users of the chat: those of the name index, in the order of their
    entry. *)
Definition liveUsers (us : Users) : list ChatUser := mvalues (lowerCaseNames us).

(** What holds of the registry whatever the clients send, also when the
    session index has lost a user (two users without session id): every
    entry of the name index is under the lower-cased name of its user; the
    users of the name index are distinct objects, allocated before; and a
    user of the socket index or of the session index is there under its
    own key and is in the name index. *)
Record index_ok (us : Users) : Prop := {
  ix_names : ∀ k v, mget k (lowerCaseNames us) = Some v → k = lowerCaseName v;
  ix_oid : ∀ k v k' v',
      mget k (lowerCaseNames us) = Some v → mget k' (lowerCaseNames us) = Some v' →
      oid v = oid v' → k = k';
  ix_fresh : ∀ k v, mget k (lowerCaseNames us) = Some v → (oid v < nextOid us)%nat;
  ix_sockets : ∀ k v, mget k (sockets us) = Some v →
      k = socketId v ∧ mget (lowerCaseName v) (lowerCaseNames us) = Some v;
  ix_sessions : ∀ k v, mget k (sessions us) = Some v →
      k = sessionId v ∧ mget (lowerCaseName v) (lowerCaseNames us) = Some v;
  ix_nodup_names : NoDup (map fst (lowerCaseNames us));
  ix_nodup_sockets : NoDup (map fst (sockets us));
  ix_nodup_sessions : NoDup (map fst (sessions us));
}.

(** No two users have the same name when the names are compared in lower
    case, and the lookup by name finds the user whose name is the given
    one in lower case, if there is one. *)
Definition names_unique (us : Users) : Prop :=
  NoDup (map (λ u, toLowerCase (name u)) (liveUsers us)) ∧
  ∀ n v, getUser (byName n) us = Some v ↔
         v ∈ liveUsers us ∧ toLowerCase (name v) = toLowerCase n.

(** Two characters that are equal, or the same letter of A-Z in its two
    cases. *)
Definition sameLetter (a b : ascii) : Prop :=
  let x := nat_of_ascii a in
  let y := nat_of_ascii b in
  (x = y ∨ (65 ≤ x ≤ 90 ∧ y = x + 32) ∨ (65 ≤ y ≤ 90 ∧ x = y + 32))%nat.

(** Two strings that differ at most in the case of the letters A-Z. *)
Definition sameIgnoringCase (s t : string) : Prop :=
  Forall2 sameLetter (list_ascii_of_string s) (list_ascii_of_string t).

(** ** A socket closes *)

(** The session ids of all users can be converted to strings: [logUsers]
    prints them without throwing. *)
Definition printableSessions (us : Users) : bool :=
  forallb (λ u, match sessionId u with VObj _ false => false | _ => true end)
          (mvalues (sessions us)).

(** The registry without what the indexes hold under the keys of [u]. *)
Definition without (u : ChatUser) (us : Users) : Users :=
  mkUsers (mdelete (lowerCaseName u) (lowerCaseNames us))
          (mdelete (socketId u) (sockets us))
          (mdelete (sessionId u) (sessions us)) (nextOid us).

(** * Theorems *)

(** ** Induction on parsed JSON *)

Lemma json_rect' (P : json → Prop)
  (Hnull : P JNull) (Hbool : ∀ b, P (JBool b)) (Hnum : ∀ n, P (JNum n))
  (Hstr : ∀ s, P (JStr s))
  (Harr : ∀ l, Forall P l → P (JArr l))
  (Hobj : ∀ fs, Forall (λ kv, P kv.2) fs → P (JObj fs)) :
  ∀ j, P j.
Proof.
  fix IH 1. intros [| b | n | s | l | fs].
  - exact Hnull.
  - apply Hbool.
  - apply Hnum.
  - apply Hstr.
  - apply Harr. induction l as [| v l IHl]; constructor; [apply IH | exact IHl].
  - apply Hobj. induction fs as [| [k v] fs IHfs]; constructor; [apply IH | exact IHfs].
Qed.

(** ** The sanitizer *)

Lemma hasReservedKey_typeofObject m : hasReservedKey m = true → typeofObject m = true.
Proof. by destruct m. Qed.

Lemma containsForbiddenFields_deep m d :
  (9 < d)%nat → containsForbiddenFields m d = true.
Proof.
  intros Hd. destruct m; simpl;
    destruct (Nat.ltb_spec 9 d) as [_ | Hle]; try reflexivity; lia.
Qed.

Lemma reserved_found m :
  hasReservedKey m = true → ∀ d, containsForbiddenFields m d = true.
Proof.
  induction m as [| b | n | s | l IHl | fs IHfs] using json_rect'; simpl; try discriminate.
  - intros Hk d. destruct (9 <? d)%nat; [reflexivity |].
    induction l as [| v l IHl']; [discriminate |].
    apply Forall_cons in IHl as [Hv Hl].
    apply orb_true_iff in Hk as [Hk | Hk].
    + rewrite (hasReservedKey_typeofObject _ Hk), (Hv Hk). reflexivity.
    + destruct (typeofObject v && containsForbiddenFields v (S d)); [reflexivity |].
      by apply IHl'.
  - intros Hk d. destruct (9 <? d)%nat; [reflexivity |].
    induction fs as [| [k v] fs IHfs']; [discriminate |].
    apply Forall_cons in IHfs as [Hv Hfs]. simpl in Hv.
    destruct (reserved k); [reflexivity |]. simpl in Hk.
    apply orb_true_iff in Hk as [Hk | Hk].
    + rewrite (hasReservedKey_typeofObject _ Hk), (Hv Hk). reflexivity.
    + destruct (typeofObject v && containsForbiddenFields v (S d)); [reflexivity |].
      by apply IHfs'.
Qed.

Lemma nesting_typeofObject m : (0 < nesting m)%nat → typeofObject m = true.
Proof. destruct m; simpl; try lia; reflexivity. Qed.

Lemma too_deep_found m :
  ∀ d, (10 < nesting m + d)%nat → containsForbiddenFields m d = true.
Proof.
  induction m as [| b | n | s | l IHl | fs IHfs] using json_rect';
    intros d Hd; try (apply containsForbiddenFields_deep; simpl in Hd; lia).
  - simpl in *. destruct (Nat.ltb_spec 9 d) as [| Hle]; [reflexivity |].
    induction l as [| v l IHl']; [simpl in Hd; lia |].
    apply Forall_cons in IHl as [Hv Hl].
    destruct (Nat.max_spec (nesting v)
      ((fix each (vs : list json) : nat :=
          match vs with [] => O | v :: rest => Nat.max (nesting v) (each rest) end) l))
      as [[_ Hmax] | [_ Hmax]]; rewrite Hmax in Hd.
    + destruct (typeofObject v && containsForbiddenFields v (S d)); [reflexivity |].
      by apply IHl'.
    + rewrite nesting_typeofObject by lia. rewrite Hv by lia. reflexivity.
  - simpl in *. destruct (Nat.ltb_spec 9 d) as [| Hle]; [reflexivity |].
    induction fs as [| [k v] fs IHfs']; [simpl in Hd; lia |].
    apply Forall_cons in IHfs as [Hv Hfs]. simpl in Hv.
    destruct (reserved k); [reflexivity |].
    destruct (Nat.max_spec (nesting v)
      ((fix each (fs : list (string * json)) : nat :=
          match fs with [] => O | (_, v) :: rest => Nat.max (nesting v) (each rest) end) fs))
      as [[_ Hmax] | [_ Hmax]]; rewrite Hmax in Hd.
    + destruct (typeofObject v && containsForbiddenFields v (S d)); [reflexivity |].
      by apply IHfs'.
    + rewrite nesting_typeofObject by lia. rewrite Hv by lia. reflexivity.
Qed.

Lemma wrapPrimitive_object m : typeofObject m = true → wrapPrimitive m = m.
Proof. by destruct m. Qed.

Lemma dropped_when_forbidden dateNow mathRandom jsGe jsLe s m w :
  containsForbiddenFields (wrapPrimitive m) 0 = true →
  onMessage dateNow mathRandom jsGe jsLe s (Some m) w = (Ok tt, w).
Proof.
  intros Hf. unfold onMessage. destruct (findConn s (relay w)); [| reflexivity].
  unfold messageBody. rewrite Hf. reflexivity.
Qed.

(** C7.  A frame whose payload has a reserved key (a key that starts with an
    underscore), at any depth, is dropped by the message handler: the
    handler returns with the world as it was, so the registry, the history,
    the serial and timestamp counters are unchanged and nothing has been
    sent to any socket, the sender included. *)
Theorem reserved_key_frame_dropped dateNow mathRandom jsGe jsLe s m w :
  hasReservedKey m = true →
  containsForbiddenFields m 0 = true ∧
  onMessage dateNow mathRandom jsGe jsLe s (Some m) w = (Ok tt, w).
Proof.
  intros Hk. split; [by apply reserved_found |].
  apply dropped_when_forbidden.
  rewrite wrapPrimitive_object by (by apply hasReservedKey_typeofObject).
  by apply reserved_found.
Qed.

(** C10.  A frame whose payload nests objects or arrays more than 10 levels
    deep is dropped by the message handler, whatever its keys:
    [containsForbiddenFields] answers [true] and the handler returns with
    the world as it was. *)
Theorem deep_frame_dropped dateNow mathRandom jsGe jsLe s m w :
  (10 < nesting m)%nat →
  containsForbiddenFields m 0 = true ∧
  onMessage dateNow mathRandom jsGe jsLe s (Some m) w = (Ok tt, w).
Proof.
  intros Hn.
  assert (Hf : containsForbiddenFields m 0 = true) by (apply too_deep_found; lia).
  split; [exact Hf |].
  apply dropped_when_forbidden.
  rewrite wrapPrimitive_object by (apply nesting_typeofObject; lia).
  exact Hf.
Qed.

(** ** The relay's broadcast *)

Lemma broadcast_sent m r :
  ∃ cs, sent (broadcast m r).2 = (sent r ++ map (λ c, (sock c, encode m)) cs)%list ∧
        ∀ c, c ∈ cs → c ∈ r_sockets r ∧ canListen c = true.
Proof.
  unfold broadcast. destruct (fget "to" m) as [to |]; simpl.
  - eexists; split; [reflexivity |]. intros c Hc.
    apply list_elem_of_filter in Hc. tauto.
  - eexists; split; [reflexivity |]. intros c Hc.
    apply list_elem_of_filter in Hc. tauto.
Qed.

Lemma broadcast_sockets m r : r_sockets (broadcast m r).2 = r_sockets r.
Proof. unfold broadcast. by destruct (fget "to" m). Qed.

Lemma received_app s r1 l :
  received s (mkRelay (r_sockets r1) (connectionID r1) (sent r1 ++ l)) =
  (received s r1 ++ map snd (List.filter (λ sm, Nat.eqb sm.1 s) l))%list.
Proof. unfold received. simpl. by rewrite List.filter_app, map_app. Qed.

(** C2.  Whatever the state of the relay and whatever the message (with a
    [to] field or without), [broadcast] sends nothing to a connection whose
    [canListen] is not true: what that socket has received is the same
    before and after the call. *)
Theorem unapproved_receives_nothing m r c :
  NoDup (map sock (r_sockets r)) →
  c ∈ r_sockets r →
  canListen c = false →
  received (sock c) (broadcast m r).2 = received (sock c) r.
Proof.
  intros Hnd Hc Hno.
  destruct (broadcast_sent m r) as (cs & Hsent & Hcs).
  unfold received. rewrite Hsent, List.filter_app, map_app.
  assert (Hnone : List.filter (λ sm : nat * json, Nat.eqb sm.1 (sock c))
                    (map (λ c0, (sock c0, encode m)) cs) = []).
  { clear Hsent. induction cs as [| c' cs IH]; [reflexivity |]. simpl.
    destruct (Nat.eqb_spec (sock c') (sock c)) as [Heq |].
    - exfalso. destruct (Hcs c') as [Hin Hyes]; [left |].
      assert (c' = c); [| congruence].
      clear -Hnd Hc Hin Heq. induction (r_sockets r) as [| x l IHl]; [by inversion Hc |].
      simpl in Hnd. apply NoDup_cons in Hnd as [Hx Hl].
      apply elem_of_cons in Hc as [-> | Hc]; apply elem_of_cons in Hin as [-> | Hin];
        try reflexivity.
      + exfalso. apply Hx. rewrite <- Heq. by apply list_elem_of_fmap_2.
      + exfalso. apply Hx. rewrite Heq. by apply list_elem_of_fmap_2.
      + by apply IHl.
    - apply IH. intros c0 Hc0. apply Hcs. by right. }
  rewrite Hnone. by rewrite app_nil_r.
Qed.

(** ** Timestamps *)

Lemma nextTimestamp_gt now last : last < nextTimestamp now last.
Proof. unfold nextTimestamp. destruct (Z.leb_spec (coarse now) last); lia. Qed.

Lemma coarse_spec now : 0 ≤ now → coarse now ≤ now < coarse now + 100 ∧ (coarse now mod 100 = 0).
Proof.
  intros H. unfold coarse. rewrite Z.quot_div_nonneg by lia.
  pose proof (Z.div_mod now 100 ltac:(lia)).
  pose proof (Z.mod_pos_bound now 100 ltac:(lia)).
  split; [lia |]. rewrite Z.mul_comm. apply Z.mod_mul. lia.
Qed.

Lemma fget_fset_eq key v m : fget key (fset key v m) = Some v.
Proof.
  unfold fget, fset. simpl. induction (props m) as [| [k w] fs IH]; simpl.
  - by rewrite decide_True.
  - destruct (decide (k = key)); simpl; [by rewrite decide_True |].
    by rewrite decide_False.
Qed.

Lemma fget_fset_ne key key' v m : key ≠ key' → fget key' (fset key v m) = fget key' m.
Proof.
  intros Hne. unfold fget, fset. simpl. induction (props m) as [| [k w] fs IH]; simpl.
  - by rewrite decide_False.
  - destruct (decide (k = key)) as [-> |]; simpl.
    + by rewrite !decide_False.
    + destruct (decide (k = key')); [reflexivity | exact IH].
Qed.

(** ** The trim of the history *)

Lemma round53_lower p : 2 ^ 52 ≤ p → 2 ^ 52 ≤ round53 p.
Proof.
  intros Hp. unfold round53.
  destruct (Z.ltb_spec (Z.log2 p) 53) as [| Hb]; [exact Hp |].
  set (s := Z.log2 p - 52). assert (Hs : 0 < s) by lia.
  destruct (Z.log2_spec p ltac:(lia)) as [Hlo _].
  assert (HX : 0 < 2 ^ s) by (apply Z.pow_pos_nonneg; lia).
  assert (Hq : 2 ^ 52 ≤ p / 2 ^ s).
  { apply Z.div_le_lower_bound; [exact HX |].
    replace (Z.log2 p) with (s + 52) in Hlo by lia.
    rewrite Z.pow_add_r in Hlo by lia. lia. }
  assert (Hq' : p / 2 ^ s ≤
      (if (2 ^ (s - 1) <? p mod 2 ^ s) || ((p mod 2 ^ s =? 2 ^ (s - 1)) && Z.odd (p / 2 ^ s))
       then p / 2 ^ s + 1 else p / 2 ^ s)) by (destruct (_ || _); lia).
  nia.
Qed.

Lemma round53_upper p m :
  0 < p → p < m * 2 ^ 52 → p < 2 ^ 105 → round53 p ≤ m * 2 ^ 52.
Proof.
  intros Hp Hm Hbig. unfold round53.
  destruct (Z.ltb_spec (Z.log2 p) 53) as [| Hb]; [lia |].
  set (s := Z.log2 p - 52). assert (Hs : 0 < s) by lia.
  assert (Hs' : s ≤ 52).
  { assert (Z.log2 p < 105); [| lia]. apply Z.log2_lt_pow2; lia. }
  assert (HX : 0 < 2 ^ s) by (apply Z.pow_pos_nonneg; lia).
  assert (HY : 0 < 2 ^ (52 - s)) by (apply Z.pow_pos_nonneg; lia).
  assert (HXY : 2 ^ 52 = 2 ^ (52 - s) * 2 ^ s).
  { rewrite <- Z.pow_add_r by lia. f_equal. lia. }
  pose proof (Z.mul_div_le p (2 ^ s) HX) as Hq.
  set (q := p / 2 ^ s) in *.
  assert (Hlt : q < m * 2 ^ (52 - s)).
  { apply Z.div_lt_upper_bound; [exact HX |]. rewrite HXY in Hm. lia. }
  assert (Hq' : (if (2 ^ (s - 1) <? p mod 2 ^ s) || ((p mod 2 ^ s =? 2 ^ (s - 1)) && Z.odd q)
       then q + 1 else q) ≤ q + 1) by (destruct (_ || _); lia).
  rewrite HXY. nia.
Qed.

Lemma kept_bounds cap :
  (2 ≤ cap)%nat → Z.of_nat cap < 2 ^ 53 → (1 ≤ kept cap ≤ cap)%nat.
Proof.
  intros H2 Hbig. unfold kept, mul07.
  set (p := Z.of_nat cap * c07).
  assert (Hc : c07 = 3152519739159347) by reflexivity.
  assert (Hpow52 : 2 ^ 52 = 4503599627370496) by reflexivity.
  assert (Hlo : 2 ^ 52 ≤ p) by (unfold p; lia).
  assert (Hhi : p < Z.of_nat cap * 2 ^ 52) by (unfold p; lia).
  assert (Hbig' : p < 2 ^ 105).
  { replace (2 ^ 105) with (2 ^ 53 * 2 ^ 52) by reflexivity. nia. }
  pose proof (round53_lower p Hlo) as Hr1.
  pose proof (round53_upper p (Z.of_nat cap) ltac:(lia) Hhi Hbig') as Hr2.
  assert (1 ≤ round53 p / 2 ^ 52 ≤ Z.of_nat cap).
  { split.
    - apply Z.div_le_lower_bound; lia.
    - apply Z.div_le_upper_bound; lia. }
  lia.
Qed.

Lemma trim_spec {A} cap (h : list A) :
  (2 ≤ cap)%nat → Z.of_nat cap < 2 ^ 53 → (cap < length h)%nat →
  trim cap h = drop (length h - kept cap) h ∧ length (trim cap h) = kept cap.
Proof.
  intros H2 Hbig Hlen. pose proof (kept_bounds cap H2 Hbig) as Hk.
  unfold trim. destruct (Nat.ltb_spec cap (length h)); [| lia].
  unfold sliceLast. destruct (kept cap) as [| k] eqn:Ek; [lia |].
  split; [reflexivity |]. rewrite length_drop. lia.
Qed.

(** ** Invariants carried through the whole server *)

Lemma preserves_ret I {A} (a : A) : preserves I (ret a).
Proof. by intros w. Qed.

Lemma preserves_throw I {A} e : preserves I (throw e : M World A).
Proof. by intros w. Qed.

Lemma preserves_get I : preserves I get.
Proof. by intros w. Qed.

Lemma preserves_bind I {A B} (c : M World A) (k : A → M World B) :
  preserves I c → (∀ a, preserves I (k a)) → preserves I (bind c k).
Proof.
  intros Hc Hk w Hw. unfold bind. specialize (Hc w Hw).
  destruct (c w) as [[a | e] w']; simpl in *; [by apply Hk | exact Hc].
Qed.

Lemma stable_ret {A} (a : A) : stable (ret a).
Proof. intros w. by repeat split. Qed.

Lemma stable_throw {A} e : stable (throw e : M World A).
Proof. intros w. by repeat split. Qed.

Lemma stable_get : stable get.
Proof. intros w. by repeat split. Qed.

Lemma stable_bind {A B} (c : M World A) (k : A → M World B) :
  stable c → (∀ a, stable (k a)) → stable (bind c k).
Proof.
  intros Hc Hk w. unfold bind. specialize (Hc w).
  destruct (c w) as [[a | e] w']; simpl in *; [| exact Hc].
  destruct (Hk a w') as (-> & -> & -> & Hle). destruct Hc as (? & ? & ? & ?).
  repeat split; try assumption. lia.
Qed.

Ltac unchanged := intros ?; repeat split; simpl; try reflexivity; try lia.

Lemma stable_onUsers {A} (c : M Users A) : stable (onUsers c).
Proof. intros w. unfold onUsers. destruct (c _). by repeat split. Qed.

Lemma stable_lookupUser t : stable (lookupUser t).
Proof. unchanged. Qed.

Lemma stable_nameOf u : stable (nameOf u).
Proof. destruct u; unchanged. Qed.

Lemma stable_template v : stable (template v).
Proof. unfold template. destruct (toStrOpt v); unchanged. Qed.

Lemma stable_truncated n v : stable (truncated n v).
Proof.
  unfold truncated. destruct v as [[| | | s | l |] |]; try solve [unchanged].
  destruct (_ <? _)%nat; [| unchanged]. destruct (toStr _); unchanged.
Qed.

Lemma stable_asName v : stable (asName v).
Proof. destruct v; unchanged. Qed.

Lemma stable_senderOf m : stable (senderOf m).
Proof. unchanged. Qed.

Lemma stable_sidOf m : stable (sidOf m).
Proof. intros w. unfold sidOf. destruct (keyOf _ _); repeat split; simpl; lia. Qed.

Lemma stable_suggestName mathRandom : stable (suggestName mathRandom).
Proof.
  intros w. unfold suggestName. destruct (generateRandomName _ _ _); by repeat split.
Qed.

Lemma stable_logUsers : stable logUsers.
Proof. intros w. unfold logUsers. destruct (forallb _ _); by repeat split. Qed.

Lemma stable_withRelay f : stable (modify (withRelay f)).
Proof. unchanged. Qed.

Lemma stable_timestampStage dateNow m : stable (timestampStage dateNow m).
Proof. unchanged. Qed.

Create HintDb stable discriminated.
#[local] Hint Resolve stable_ret stable_throw stable_get stable_onUsers stable_lookupUser
  stable_nameOf stable_template stable_truncated stable_asName stable_senderOf
  stable_sidOf stable_suggestName stable_logUsers stable_withRelay
  stable_timestampStage : stable.

Ltac stable_step :=
  first
    [ apply stable_bind; [| intros ?]
    | solve [auto with stable]
    | match goal with
      | |- stable (match ?x with _ => _ end) => destruct x
      | |- stable (if ?x then _ else _) => destruct x
      end ].

Lemma serialOf_fset_to v h : serialOf (fset "to" v h) = serialOf h.
Proof. unfold serialOf. by rewrite fget_fset_ne. Qed.

Lemma serials_assignTo m' h : serials (assignTo m' h) = serials h.
Proof.
  unfold assignTo. destruct (fget "to" m'); [| reflexivity].
  unfold serials. rewrite map_map. apply map_ext. intros x.
  destruct (decide _); [apply serialOf_fset_to | reflexivity].
Qed.

Lemma serials_trim cap h : serials (trim cap h) `sublist_of` serials h.
Proof.
  unfold trim, sliceLast, serials. destruct (_ <? _)%nat; [| reflexivity].
  destruct (kept cap); [reflexivity |].
  rewrite <- skipn_map. apply sublist_drop.
Qed.

Section Carried.

Variable dateNow : nat → Z.
Variable mathRandom : nat → nat.
Variable jsGe jsLe : Z → json → bool.

(** An invariant of the history and the serial counter that holds on to
    a push with the next serial and to the removal of records. *)
Variable J : list message → Z → Prop.
Hypothesis J_push : ∀ h n m,
  J h n → J (h ++ [fset "_serial" (JNum (n + 1)) m])%list (n + 1).
Hypothesis J_sub : ∀ h h' n, serials h' `sublist_of` serials h → J h n → J h' n.

Abbreviation carried := (carried J).

Lemma preserves_stable {A} (c : M World A) : stable c → preserves carried c.
Proof. intros Hc w Hw. unfold carried. destruct (Hc w) as (-> & -> & _). exact Hw. Qed.

Lemma preserves_rememberStage m : preserves carried (rememberStage m).
Proof.
  intros w Hw. unfold rememberStage, bind, get, modify. simpl.
  pose proof (J_push _ _ (fdel "_remember" m) Hw) as Hpush.
  unfold template.
  destruct (toStrOpt _); simpl; [| exact Hpush].
  destruct (toStrOpt _); simpl; [| exact Hpush].
  unfold carried; simpl. eapply J_sub; [apply serials_trim | exact Hpush].
Qed.

Lemma preserves_broadcastStage m : preserves carried (broadcastStage m).
Proof.
  intros w Hw. unfold broadcastStage. destruct (broadcast m (relay w)) as [m' r].
  unfold carried; simpl. eapply J_sub; [| exact Hw].
  by rewrite serials_assignTo.
Qed.

Section Handlers.

Variable receive : message → M World unit.
Hypothesis receive_ok : ∀ m, preserves carried (receive m).

Ltac carry :=
  repeat first
    [ apply receive_ok
    | apply preserves_ret
    | apply preserves_throw
    | apply preserves_get
    | apply preserves_stable; solve [repeat stable_step]
    | apply preserves_bind; [| intros ?]
    | match goal with
      | |- preserves _ (match ?x with _ => _ end) => destruct x
      | |- preserves _ (if ?x then _ else _) => destruct x
      end ].

Lemma preserves_broadcastUserList : preserves carried (broadcastUserList receive).
Proof. unfold broadcastUserList. carry. Qed.

Lemma preserves_disconnectStage m : preserves carried (disconnectStage receive m).
Proof. unfold disconnectStage. carry. Qed.

Lemma preserves_renameStage m : preserves carried (renameStage receive m).
Proof. unfold renameStage. carry. Qed.

Lemma preserves_identifyStage m :
  preserves carried (identifyStage mathRandom receive m).
Proof. unfold identifyStage, identifyUser. carry. Qed.

Lemma preserves_historyStage m : preserves carried (historyStage jsGe jsLe receive m).
Proof. unfold historyStage. carry. Qed.

Lemma preserves_directStage m : preserves carried (directStage receive m).
Proof. unfold directStage. carry. Qed.

Lemma preserves_transmitStage m : preserves carried (transmitStage m).
Proof. unfold transmitStage. carry. Qed.

Lemma preserves_process stages m :
  Forall (λ st, ∀ m, preserves carried (handler st m)) stages →
  preserves carried (process stages m).
Proof.
  intros Hst. revert m. induction Hst as [| st rest Hh _ IH]; intros m; simpl.
  - apply preserves_ret.
  - destruct (matches _ _); [| apply IH].
    apply preserves_bind; [apply Hh |]. intros [m' []]; simpl; [apply preserves_ret | apply IH].
Qed.

Lemma preserves_receiveBody m :
  preserves carried (receiveBody dateNow mathRandom jsGe jsLe receive m).
Proof.
  intros w Hw. unfold receiveBody.
  apply preserves_process; [| exact Hw].
  repeat constructor; simpl; intros m'.
  - apply preserves_ret.
  - apply preserves_disconnectStage.
  - apply preserves_renameStage.
  - apply preserves_identifyStage.
  - apply preserves_historyStage.
  - apply preserves_directStage.
  - apply preserves_transmitStage.
  - apply preserves_stable, stable_timestampStage.
  - apply preserves_ret.
  - apply preserves_rememberStage.
  - apply preserves_broadcastStage.
Qed.

End Handlers.

Lemma preserves_receiveN fuel : ∀ m,
  preserves carried (receiveN dateNow mathRandom jsGe jsLe fuel m).
Proof.
  induction fuel as [| fuel IH]; intros m; simpl.
  - apply preserves_throw.
  - by apply preserves_receiveBody.
Qed.

Lemma preserves_step e : ∀ w, carried w → carried (step dateNow mathRandom jsGe jsLe w e).
Proof.
  intros w Hw. destruct e as [s | s data | s | text]; unfold step, receive.
  - revert w Hw. fold (preserves carried (receiveConnection dateNow mathRandom jsGe jsLe s)).
    unfold receiveConnection, receive.
    apply preserves_bind; [apply preserves_get | intros w0].
    destruct (findConn _ _); [apply preserves_ret |].
    apply preserves_bind; [apply preserves_stable, stable_withRelay | intros _].
    apply preserves_bind; [apply preserves_receiveN | intros _; apply preserves_ret].
  - unfold onMessage. destruct (findConn _ _) as [c |]; [| exact Hw].
    cbn [snd]. revert w Hw.
    fold (preserves carried (messageBody dateNow mathRandom jsGe jsLe (id c) data)).
    unfold messageBody, receive. destruct data as [parsed |]; [| apply preserves_throw].
    destruct (containsForbiddenFields _ _); [apply preserves_ret |].
    destruct (wrapPrimitive parsed);
      first [apply preserves_throw | apply preserves_receiveN].
  - revert w Hw. fold (preserves carried (onClose dateNow mathRandom jsGe jsLe s)).
    unfold onClose, receive.
    apply preserves_bind; [apply preserves_get | intros w0].
    destruct (findConn _ _); [| apply preserves_ret].
    apply preserves_bind; [apply preserves_receiveN | intros _].
    apply preserves_stable, stable_withRelay.
  - by apply preserves_receiveN.
Qed.

Lemma preserves_run es : ∀ w, carried w → carried (run dateNow mathRandom jsGe jsLe es w).
Proof.
  induction es as [| e es IH]; intros w Hw; simpl; [exact Hw |].
  apply IH, preserves_step, Hw.
Qed.

End Carried.

(** ** Serials *)

Lemma StronglySorted_sublist (l1 l2 : list Z) :
  l1 `sublist_of` l2 → StronglySorted Z.lt l2 → StronglySorted Z.lt l1.
Proof.
  induction 1 as [| x l1 l2 Hsub IH | x l1 l2 Hsub IH]; intros Hs.
  - constructor.
  - apply StronglySorted_inv in Hs as [Hs Hall]. constructor; [by apply IH |].
    apply Forall_forall. intros y Hy. rewrite Forall_forall in Hall.
    apply Hall. eapply elem_of_sublist; [| exact Hsub]. exact Hy.
  - apply StronglySorted_inv in Hs as [Hs _]. by apply IH.
Qed.

Lemma serials_snoc h m : serials (h ++ [m]) = (serials h ++ [serialOf m])%list.
Proof. unfold serials. by rewrite map_app. Qed.

Lemma serialOf_fset n m : serialOf (fset "_serial" (JNum n) m) = n.
Proof. unfold serialOf. by rewrite fget_fset_eq. Qed.

Lemma serials_ok_push h n m :
  StronglySorted Z.lt (serials h) ∧ Forall (λ k, k ≤ n) (serials h) →
  StronglySorted Z.lt (serials (h ++ [fset "_serial" (JNum (n + 1)) m])) ∧
  Forall (λ k, k ≤ n + 1) (serials (h ++ [fset "_serial" (JNum (n + 1)) m])).
Proof.
  intros [Hs Hb]. rewrite serials_snoc, serialOf_fset. split.
  - apply StronglySorted_app_2; [| exact Hs | repeat constructor].
    intros x1 x2 H1 H2. apply list_elem_of_singleton in H2 as ->.
    rewrite Forall_forall in Hb. specialize (Hb x1 H1). simpl in Hb. lia.
  - apply Forall_app. split; [| repeat constructor; lia].
    eapply Forall_impl; [exact Hb |]. simpl. intros; lia.
Qed.

Lemma serials_ok_sub h h' n :
  serials h' `sublist_of` serials h →
  StronglySorted Z.lt (serials h) ∧ Forall (λ k, k ≤ n) (serials h) →
  StronglySorted Z.lt (serials h') ∧ Forall (λ k, k ≤ n) (serials h').
Proof.
  intros Hsub [Hs Hb]. split; [by eapply StronglySorted_sublist |].
  rewrite Forall_forall in *. intros x Hx. apply Hb. by eapply elem_of_sublist.
Qed.

Lemma last_trim {A} cap (h : list A) x : last (trim cap (h ++ [x])) = Some x.
Proof.
  unfold trim, sliceLast. destruct (_ <? _)%nat; [| apply last_snoc].
  destruct (kept cap) as [| k]; [apply last_snoc |].
  rewrite length_app. simpl.
  destruct (decide (length h + 1 - S k ≤ length h)%nat) as [Hle | Hgt]; [| lia].
  rewrite drop_app_le by exact Hle. apply last_snoc.
Qed.

(** C3.  The remember stage gives the record the serial [lastSerial + 1] and
    stores that value as [lastSerial]; the record is the last of the
    history after the stage.  Whatever happens to the server (connections,
    frames, closes, in any number and order), the serials of the history are
    strictly increasing, the counter never goes back, and a record that
    appears later never carries a serial that was already given, also when
    the record that had it was trimmed away. *)
Theorem serials_never_reused dateNow mathRandom jsGe jsLe :
  (∀ m w,
     let w' := (rememberStage m w).2 in
     lastSerial (channel w') = lastSerial (channel w) + 1 ∧
     ∃ record, last (history (channel w')) = Some record ∧
               fget "_serial" record = Some (JNum (lastSerial (channel w) + 1))) ∧
  (∀ maxH maxN es1 es2,
     let w1 := run dateNow mathRandom jsGe jsLe es1 (newWorld maxH maxN) in
     let w2 := run dateNow mathRandom jsGe jsLe es2 w1 in
     serials_ok w2 ∧ no_reuse w1 w2).
Proof.
  split.
  - intros m w. unfold rememberStage, bind, get, modify, template. simpl.
    set (record := fset "_serial" (JNum (lastSerial (channel w) + 1)) (fdel "_remember" m)).
    assert (Hser : fget "_serial" record = Some (JNum (lastSerial (channel w) + 1)))
      by apply fget_fset_eq.
    destruct (toStrOpt _); simpl;
      [| split; [reflexivity | exists record; split; [apply last_snoc | exact Hser]]].
    destruct (toStrOpt _); simpl;
      [| split; [reflexivity | exists record; split; [apply last_snoc | exact Hser]]].
    split; [reflexivity |]. exists record. split; [apply last_trim | exact Hser].
  - intros maxH maxN es1 es2 w1 w2.
    assert (H1 : serials_ok w1).
    { apply (preserves_run dateNow mathRandom jsGe jsLe
               (λ h n, StronglySorted Z.lt (serials h) ∧ Forall (λ k, k ≤ n) (serials h))).
      - intros h n m. apply serials_ok_push.
      - intros h h' n. apply serials_ok_sub.
      - split; constructor. }
    split.
    + apply (preserves_run dateNow mathRandom jsGe jsLe
               (λ h n, StronglySorted Z.lt (serials h) ∧ Forall (λ k, k ≤ n) (serials h))).
      * intros h n m. apply serials_ok_push.
      * intros h h' n. apply serials_ok_sub.
      * exact H1.
    + apply (preserves_run dateNow mathRandom jsGe jsLe
               (λ h n, lastSerial (channel w1) ≤ n ∧
                       ∀ k, k ∈ serials h → k ≤ lastSerial (channel w1) →
                            k ∈ serials (history (channel w1)))).
      * intros h n m [Hn Hold]. split; [lia |].
        intros k Hk Hle. rewrite serials_snoc, serialOf_fset in Hk.
        apply elem_of_app in Hk as [Hk | Hk]; [by apply Hold |].
        apply list_elem_of_singleton in Hk. lia.
      * intros h h' n Hsub [Hn Hold]. split; [exact Hn |].
        intros k Hk. apply Hold. by eapply elem_of_sublist.
      * split; [lia | tauto].
Qed.

(** ** Maps *)

Section JsMapFacts.
Context {K V : Type} `{EqDecision K}.
Implicit Types (m : jsmap K V) (k : K) (v : V).

Lemma mget_mset_eq k v m : mget k (mset k v m) = Some v.
Proof.
  induction m as [| [k' v'] m IH]; simpl.
  - by rewrite decide_True.
  - destruct (decide (k' = k)) as [-> |]; simpl.
    + by rewrite decide_True.
    + by rewrite decide_False.
Qed.

Lemma mget_mset_ne k k' v m : k ≠ k' → mget k' (mset k v m) = mget k' m.
Proof.
  intros Hne. induction m as [| [k0 v0] m IH]; simpl.
  - by rewrite decide_False.
  - destruct (decide (k0 = k)) as [-> |]; simpl.
    + by rewrite !decide_False.
    + by destruct (decide (k0 = k')).
Qed.

Lemma mget_mdelete_eq k m : mget k (mdelete k m) = None.
Proof.
  induction m as [| [k0 v0] m IH]; simpl; [reflexivity |].
  destruct (decide (k0 = k)); simpl; [exact IH |]. by rewrite decide_False.
Qed.

Lemma mget_mdelete_ne k k' m : k ≠ k' → mget k' (mdelete k m) = mget k' m.
Proof.
  intros Hne. induction m as [| [k0 v0] m IH]; simpl; [reflexivity |].
  destruct (decide (k0 = k)) as [-> |]; simpl.
  - by rewrite decide_False.
  - by destruct (decide (k0 = k')).
Qed.

Lemma mhas_true k m : mhas k m = true ↔ is_Some (mget k m).
Proof. unfold mhas. apply bool_decide_eq_true. Qed.

Lemma mhas_false k m : mhas k m = false ↔ mget k m = None.
Proof. unfold mhas. rewrite bool_decide_eq_false. symmetry. apply eq_None_not_Some. Qed.

Lemma mget_elem_of k v m : mget k m = Some v → (k, v) ∈ m.
Proof.
  induction m as [| [k0 v0] m IH]; simpl; [discriminate |].
  destruct (decide (k0 = k)) as [-> |].
  - intros [= ->]. left.
  - intros Hm. right. by apply IH.
Qed.

Lemma mget_None_keys k m : mget k m = None ↔ k ∉ map fst m.
Proof.
  induction m as [| [k0 v0] m IH]; simpl.
  - split; [intros _; apply not_elem_of_nil | reflexivity].
  - rewrite not_elem_of_cons. destruct (decide (k0 = k)) as [-> |].
    + split; [discriminate | intros [? _]; congruence].
    + rewrite IH. split; [intros; split; congruence | tauto].
Qed.

Lemma elem_of_mget k v m : NoDup (map fst m) → (k, v) ∈ m → mget k m = Some v.
Proof.
  induction m as [| [k0 v0] m IH]; simpl; intros Hnd Hin; [by inversion Hin |].
  apply NoDup_cons in Hnd as [Hk0 Hnd].
  apply elem_of_cons in Hin as [[= -> ->] | Hin].
  - by rewrite decide_True.
  - destruct (decide (k0 = k)) as [-> |]; [| by apply IH].
    exfalso. apply Hk0. apply list_elem_of_fmap. by exists (k, v).
Qed.

Lemma keys_mset k v m x : x ∈ map fst (mset k v m) ↔ x = k ∨ x ∈ map fst m.
Proof.
  induction m as [| [k0 v0] m IH]; simpl.
  - rewrite list_elem_of_singleton. split; [tauto | intros [? | H']; [done | by inversion H']].
  - destruct (decide (k0 = k)) as [-> |]; simpl; rewrite !elem_of_cons; [tauto |].
    rewrite IH. tauto.
Qed.

Lemma NoDup_mset k v m : NoDup (map fst m) → NoDup (map fst (mset k v m)).
Proof.
  induction m as [| [k0 v0] m IH]; simpl; intros Hnd.
  - repeat constructor. apply not_elem_of_nil.
  - apply NoDup_cons in Hnd as [Hk0 Hnd].
    destruct (decide (k0 = k)) as [-> |]; simpl; apply NoDup_cons.
    + by split.
    + split; [| by apply IH]. rewrite keys_mset. intros [? | ?]; congruence.
Qed.

Lemma keys_mdelete k m x : x ∈ map fst (mdelete k m) → x ∈ map fst m.
Proof.
  induction m as [| [k0 v0] m IH]; simpl; [done |].
  destruct (decide (k0 = k)); simpl; rewrite ?elem_of_cons; [by right; apply IH |].
  intros [-> | Hx]; [by left | right; by apply IH].
Qed.

Lemma NoDup_mdelete k m : NoDup (map fst m) → NoDup (map fst (mdelete k m)).
Proof.
  induction m as [| [k0 v0] m IH]; simpl; intros Hnd; [constructor |].
  apply NoDup_cons in Hnd as [Hk0 Hnd].
  destruct (decide (k0 = k)); simpl; [by apply IH |].
  apply NoDup_cons. split; [| by apply IH].
  intros Hin. apply Hk0. by eapply keys_mdelete.
Qed.

Lemma mupdate_id (f : V → V) m :
  (∀ k v, (k, v) ∈ m → f v = v) → mupdate f m = m.
Proof.
  intros Hf. unfold mupdate. induction m as [| [k0 v0] m IH]; simpl; [reflexivity |].
  rewrite (Hf k0 v0) by left. f_equal. apply IH. intros k v Hin. apply (Hf k). by right.
Qed.
End JsMapFacts.

(** ** The registry *)

Lemma mget_mset_Some {K V} `{EqDecision K} (k k0 : K) (v u : V) m :
  mget k (mset k0 u m) = Some v ↔ (k = k0 ∧ v = u) ∨ (k ≠ k0 ∧ mget k m = Some v).
Proof.
  destruct (decide (k0 = k)) as [-> | Hne].
  - rewrite mget_mset_eq. split; [intros [= ->]; by left | intros [[_ ->] | [? _]]; done].
  - rewrite mget_mset_ne by done. split; [intros; right; split; congruence | intros [[? _] | [_ ?]]; congruence].
Qed.

Lemma mget_mdelete_Some {K V} `{EqDecision K} (k k0 : K) (v : V) m :
  mget k (mdelete k0 m) = Some v ↔ k ≠ k0 ∧ mget k m = Some v.
Proof.
  destruct (decide (k0 = k)) as [-> | Hne].
  - rewrite mget_mdelete_eq. split; [discriminate | intros [? _]; done].
  - rewrite mget_mdelete_ne by done. split; [intros; split; congruence | tauto].
Qed.

Lemma nullish_defined k : k ≠ VUndef → nullish k VNull = k.
Proof. by destruct k. Qed.

Lemma nullish_not_undef k : nullish k VNull ≠ VUndef.
Proof. by destruct k. Qed.

Lemma getUser_stored t us u : getUser t us = Some u → stored us u.
Proof.
  unfold getUser, stored. destruct (t_name t); [eauto |].
  destruct (t_sessionId t); [eauto |]. destruct (t_socketId t); [eauto | discriminate].
Qed.

Lemma registry_ok_empty : registry_ok emptyUsers.
Proof.
  split; simpl; try apply NoDup_nil_2.
  - intros u [[k Hk] | [[k Hk] | [k Hk]]]; discriminate.
  - intros u [[k Hk] | [[k Hk] | [k Hk]]]; discriminate.
  - intros u v [[k Hk] | [[k Hk] | [k Hk]]]; discriminate.
Qed.

Lemma createUser_ok p us :
  registry_ok us → p_sessionId p ≠ VUndef → p_socketId p ≠ VUndef →
  registry_ok (createUser p us).2.
Proof.
  intros Hok Hsid Hsock. unfold createUser.
  destruct (mhas _ (lowerCaseNames us)) eqn:Hn; [exact Hok |].
  destruct (mhas _ (sessions us)) eqn:Hs; [exact Hok |].
  destruct (mhas _ (sockets us)) eqn:Hk; [exact Hok |].
  apply mhas_false in Hn, Hs, Hk. simpl.
  set (u := newChatUser (nextOid us) p).
  assert (Hlk : lowerCaseName u = toLowerCase (p_name p)) by reflexivity.
  assert (Hus : sessionId u = p_sessionId p) by (by apply nullish_defined).
  assert (Huk : socketId u = p_socketId p) by (by apply nullish_defined).
  rewrite <- Hlk in Hn. rewrite <- Hus in Hs. rewrite <- Huk in Hk.
  destruct Hok as [Hagree Hkeys Hoid Hn1 Hn2 Hn3].
  assert (Hfresh : ¬ stored us u).
  { intros Hst. destruct (Hagree u Hst) as (H1 & _ & _).
    specialize (proj2 (H1 _) eq_refl). congruence. }
  set (us' := mkUsers _ _ _ _).
  assert (Hst' : ∀ v, stored us' v → v = u ∨ stored us v).
  { intros v [[k Hv] | [[k Hv] | [k Hv]]]; simpl in Hv;
      apply mget_mset_Some in Hv as [[_ ->] | [_ Hv]]; auto;
      right; unfold stored; eauto. }
  subst us'. split; simpl;
    change (nullish (p_sessionId p) VNull) with (sessionId u) in *;
    change (nullish (p_socketId p) VNull) with (socketId u) in *.
  - intros v Hv. destruct (decide (v = u)) as [-> | Hne].
    + repeat split; intros H'; cbn [lowerCaseNames sessions sockets] in *.
      * apply mget_mset_Some in H' as [[? _] | [_ H']]; [done |].
        exfalso. apply Hfresh. unfold stored; eauto.
      * subst k. apply mget_mset_eq.
      * apply mget_mset_Some in H' as [[? _] | [_ H']]; [done |].
        exfalso. apply Hfresh. unfold stored; eauto.
      * subst k. apply mget_mset_eq.
      * apply mget_mset_Some in H' as [[? _] | [_ H']]; [done |].
        exfalso. apply Hfresh. unfold stored; eauto 6.
      * subst k. apply mget_mset_eq.
    + destruct (Hst' v Hv) as [-> | Hold]; [done |].
      destruct (Hagree v Hold) as (H1 & H2 & H3).
      repeat split; intros H'; cbn [lowerCaseNames sessions sockets] in *.
      * apply mget_mset_Some in H' as [[_ ?] | [_ H']]; [done | by apply H1].
      * subst k. rewrite mget_mset_ne; [by apply H1 |].
        intros Heq. specialize (proj2 (H1 _) eq_refl). congruence.
      * apply mget_mset_Some in H' as [[_ ?] | [_ H']]; [done | by apply H2].
      * subst k. rewrite mget_mset_ne; [by apply H2 |].
        intros Heq. specialize (proj2 (H2 _) eq_refl). congruence.
      * apply mget_mset_Some in H' as [[_ ?] | [_ H']]; [done | by apply H3].
      * subst k. rewrite mget_mset_ne; [by apply H3 |].
        intros Heq. specialize (proj2 (H3 _) eq_refl). congruence.
  - intros v Hv. destruct (Hst' v Hv) as [-> | Hold].
    + simpl. split; [lia |]. split; apply nullish_not_undef.
    + destruct (Hkeys v Hold) as (? & ? & ?). split; [lia | done].
  - intros v1 v2 Hv1 Hv2 Heq.
    destruct (Hst' v1 Hv1) as [-> | Hold1], (Hst' v2 Hv2) as [-> | Hold2]; try done.
    + destruct (Hkeys v2 Hold2) as (? & _). simpl in Heq. lia.
    + destruct (Hkeys v1 Hold1) as (? & _). simpl in Heq. lia.
    + by apply Hoid.
  - by apply NoDup_mset.
  - by apply NoDup_mset.
  - by apply NoDup_mset.
Qed.

Lemma deleteUser_ok t us : registry_ok us → registry_ok (deleteUser t us).2.
Proof.
  intros Hok. unfold deleteUser. destruct (getUser t us) as [u |] eqn:Hu; [| exact Hok].
  apply getUser_stored in Hu. simpl.
  destruct Hok as [Hagree Hkeys Hoid Hn1 Hn2 Hn3].
  destruct (Hagree u Hu) as (U1 & U2 & U3).
  set (us' := mkUsers _ _ _ _).
  assert (Hst' : ∀ v, stored us' v → stored us v ∧ v ≠ u).
  { intros v [[k Hv] | [[k Hv] | [k Hv]]]; simpl in Hv;
      apply mget_mdelete_Some in Hv as [Hk Hv];
      (split; [unfold stored; eauto 6 |]); intros ->.
    - by apply U1 in Hv.
    - by apply U2 in Hv.
    - by apply U3 in Hv. }
  subst us'. split; simpl.
  - intros v Hv. destruct (Hst' v Hv) as [Hold Hne].
    destruct (Hagree v Hold) as (H1 & H2 & H3).
    repeat split; intros H'; cbn [lowerCaseNames sessions sockets] in *.
    + apply mget_mdelete_Some in H' as [_ H']. by apply H1.
    + subst k. rewrite mget_mdelete_ne; [by apply H1 |].
      intros Heq. apply Hne. specialize (proj2 (H1 _) eq_refl).
      specialize (proj2 (U1 _) eq_refl). congruence.
    + apply mget_mdelete_Some in H' as [_ H']. by apply H2.
    + subst k. rewrite mget_mdelete_ne; [by apply H2 |].
      intros Heq. apply Hne. specialize (proj2 (H2 _) eq_refl).
      specialize (proj2 (U2 _) eq_refl). congruence.
    + apply mget_mdelete_Some in H' as [_ H']. by apply H3.
    + subst k. rewrite mget_mdelete_ne; [by apply H3 |].
      intros Heq. apply Hne. specialize (proj2 (H3 _) eq_refl).
      specialize (proj2 (U3 _) eq_refl). congruence.
  - intros v Hv. apply Hkeys. by apply Hst'.
  - intros v1 v2 Hv1 Hv2. apply Hoid; by apply Hst'.
  - by apply NoDup_mdelete.
  - by apply NoDup_mdelete.
  - by apply NoDup_mdelete.
Qed.

Lemma getUser_self us u :
  registry_ok us → stored us u → getUser (traitOfUser u) us = Some u.
Proof.
  intros Hok Hu. destruct (ok_agree _ Hok u Hu) as (H1 & _). unfold getUser. simpl.
  by apply H1.
Qed.

Lemma deleteUser_gone us u v :
  registry_ok us → stored us u →
  stored (deleteUser (traitOfUser u) us).2 v → stored us v ∧ v ≠ u.
Proof.
  intros Hok Hu. unfold deleteUser. rewrite (getUser_self us u Hok Hu). simpl.
  destruct (ok_agree _ Hok u Hu) as (U1 & U2 & U3).
  intros [[k Hv] | [[k Hv] | [k Hv]]]; simpl in Hv;
    apply mget_mdelete_Some in Hv as [Hk Hv];
    (split; [unfold stored; eauto 6 |]); intros ->.
  - by apply U1 in Hv.
  - by apply U2 in Hv.
  - by apply U3 in Hv.
Qed.

Lemma objectAssign_unreferenced us u what :
  registry_ok us → (∀ v, stored us v → oid v ≠ oid u) →
  objectAssign u what us = (Ok (assignFields what u), us).
Proof.
  intros Hok Hno. unfold objectAssign. f_equal. destruct us as [ns sk ss n]. simpl in *.
  f_equal; apply mupdate_id; intros k v Hin; apply decide_False.
  - apply Hno. left. exists k. by apply elem_of_mget; [apply (ok_names _ Hok) |].
  - apply Hno. right; right. exists k. by apply elem_of_mget; [apply (ok_sockets _ Hok) |].
  - apply Hno. right; left. exists k. by apply elem_of_mget; [apply (ok_sessions _ Hok) |].
Qed.

Lemma updateUser_unfold who what us u :
  registry_ok us → getUser who us = Some u →
  updateUser who what us =
    let us1 := (deleteUser (traitOfUser u) us).2 in
    match createUser (propsOfUser (assignFields what u)) us1 with
    | (Ok _, us2) => (Ok true, us2)
    | (Throw e, us2) => (Throw e, us2)
    end.
Proof.
  intros Hok Hu. unfold updateUser, bind, get. rewrite Hu.
  pose proof (getUser_stored _ _ _ Hu) as Hst.
  assert (Hdel : ∃ us1, deleteUser (traitOfUser u) us = (Ok true, us1)).
  { unfold deleteUser. rewrite (getUser_self us u Hok Hst). eauto. }
  destruct Hdel as [us1 Hdel].
  pose proof (deleteUser_ok (traitOfUser u) us Hok) as Hok1.
  pose proof (λ v, deleteUser_gone us u v Hok Hst) as Hgone.
  rewrite Hdel in *. cbn [snd] in *. cbv beta iota.
  rewrite (objectAssign_unreferenced us1 u what Hok1).
  - unfold ret. destruct (createUser _ us1) as [[[] | e] us2]; reflexivity.
  - intros v Hv Heq. destruct (Hgone v Hv) as [Hold Hne]. apply Hne.
    by apply (ok_oid _ Hok).
Qed.

Lemma updateUser_ok who what us :
  registry_ok us →
  w_sessionId what ≠ Some VUndef → w_socketId what ≠ Some VUndef →
  registry_ok (updateUser who what us).2.
Proof.
  intros Hok Hsid Hsock. destruct (getUser who us) as [u |] eqn:Hu.
  - rewrite (updateUser_unfold who what us u Hok Hu). simpl.
    pose proof (getUser_stored _ _ _ Hu) as Hst.
    destruct (ok_keys _ Hok u Hst) as (_ & Hks & Hkk).
    pose proof (createUser_ok (propsOfUser (assignFields what u))
                  (deleteUser (traitOfUser u) us).2
                  (deleteUser_ok _ _ Hok)) as Hc.
    destruct (createUser _ _) as [[[] | e] us2]; simpl in *; apply Hc;
      unfold assignFields; simpl.
    all: try (destruct (w_sessionId what) as [k |]; simpl; congruence).
    all: destruct (w_socketId what) as [k |]; simpl; congruence.
  - unfold updateUser, bind, get. rewrite Hu. exact Hok.
Qed.

(** The registry invariant holds after every sequence of operations whose
    session and socket keys are given. *)
Lemma registry_ok_keyed os : ∀ us,
  Forall keyed os → registry_ok us → registry_ok (runOps os us).
Proof.
  induction os as [| o os IH]; intros us Hk Hok; [exact Hok |].
  apply Forall_cons in Hk as [Ho Hk]. simpl. apply IH; [exact Hk |].
  destruct o as [p | t | who what]; simpl in *.
  - destruct Ho. by apply createUser_ok.
  - by apply deleteUser_ok.
  - destruct Ho. by apply updateUser_ok.
Qed.

(** C1, at the input on which the code fails.  Two users created without a
    session id (the property is [undefined]: the presence test of
    [createUser] looks for the key [undefined], the insertion uses the key
    [null]): the second insertion replaces the first user in [sessions],
    so the first user is still found by name and by socket but not by
    session, and the indexes disagree.  The server reaches this registry
    when two clients identify without a [sid] field; when the first of
    them leaves, the second one is no longer in the user list. *)
Theorem undefined_session_breaks_agreement :
  let us := runOps [OpCreate (mkProps (VNum 0) VUndef "a");
                    OpCreate (mkProps (VNum 1) VUndef "b")] emptyUsers in
  let a := mkUser 0 (VNum 0) VNull "a" in
  let b := mkUser 1 (VNum 1) VNull "b" in
  getUser (byName "a") us = Some a ∧
  getUser (bySocket (VNum 0)) us = Some a ∧
  getUser (bySession (sessionId a)) us = Some b ∧
  ¬ agree us ∧
  users (channel twoWithoutSession) = us ∧
  let w' := step clock0 dice0 numGe numLe twoWithoutSession (Close 7) in
  getUser (bySocket (VNum 1)) (users (channel w')) = Some b ∧
  userNames (users (channel w')) = [].
Proof.
  intros us a b.
  split; [reflexivity|]. split; [reflexivity|]. split; [reflexivity|].
  split.
  { intros Hagree.
    destruct (Hagree a) as (_ & H2 & _).
    - left. by exists "a".
    - specialize (proj2 (H2 VNull) eq_refl). discriminate. }
  split; [by vm_compute|].
  intros w'. split; by vm_compute.
Qed.

(** ** The trim, as the remember stage runs it *)

Lemma rememberStage_history m w r w' :
  rememberStage m w = (Ok r, w') →
  history (channel w') =
    trim (maxHistory (channel w)) (history (channel w) ++ [r.1]) ∧
  lastSerial (channel w') = lastSerial (channel w) + 1 ∧
  fget "_serial" r.1 = Some (JNum (lastSerial (channel w) + 1)).
Proof.
  unfold rememberStage, bind, get, modify, template. simpl.
  destruct (toStrOpt _); simpl; [| discriminate].
  destruct (toStrOpt _); simpl; [| discriminate].
  intros [= <- <-]. simpl. repeat split. apply fget_fset_eq.
Qed.

(** C4, as the code has it.  For a cap [M] from 2 on (and below 2^53), when
    the history is longer than [M] the trim leaves exactly [kept M]
    records, the last ones of the history (those with the greatest
    serials): [kept M] is the double-precision product [M * 0.7] with its
    fraction dropped, at least 1 and at most [M].  The remember stage
    applies this trim to the history with the new record appended.  With
    cap 50 the count is 35, and 51 remembered messages leave the 35 records
    with the serials 17 to 51. *)
Theorem trim_keeps_most_recent dateNow mathRandom jsGe jsLe :
  (∀ cap (h : list message),
     (2 ≤ cap)%nat → Z.of_nat cap < 2 ^ 53 → (cap < length h)%nat →
     trim cap h = drop (length h - kept cap) h ∧
     length (trim cap h) = kept cap ∧
     (1 ≤ kept cap ≤ cap)%nat) ∧
  (∀ m w r w',
     rememberStage m w = (Ok r, w') →
     history (channel w') =
       trim (maxHistory (channel w)) (history (channel w) ++ [r.1])) ∧
  kept 50 = 35%nat ∧
  serials (history (channel
    (run dateNow mathRandom jsGe jsLe (repeat (Started "up") 51) (newWorld 50 30))))
  = countFrom 17 35.
Proof.
  split; [| split; [| split]].
  - intros cap h H2 Hbig Hlen.
    destruct (trim_spec cap h H2 Hbig Hlen) as [-> Hl].
    split; [reflexivity |]. split; [| by apply kept_bounds].
    rewrite length_drop. pose proof (kept_bounds cap H2 Hbig). lia.
  - intros m w r w' Hr. by apply rememberStage_history in Hr as (-> & _).
  - reflexivity.
  - vm_compute. reflexivity.
Qed.

(** The claim C4 as it is written fails: with cap 5 and six records the trim
    leaves 3 records, and [ceil(5 * 0.7)] is 4. *)
Lemma trim_is_not_ceil :
  ¬ (∀ cap (h : list message),
       (cap < length h)%nat → length (trim cap h) = ceil07 cap).
Proof.
  intros H. specialize (H 5%nat (repeat (obj []) 6) ltac:(simpl; lia)).
  vm_compute in H. discriminate.
Qed.

(** An instance of the first part of [trim_keeps_most_recent]: cap 50 and
    51 records. *)
Lemma trim_keeps_most_recent_witness :
  let h := repeat (obj []) 51 in
  trim 50 h = drop (length h - kept 50) h ∧
  length (trim 50 h) = kept 50 ∧ (1 ≤ kept 50 ≤ 50)%nat.
Proof.
  intros h.
  apply (proj1 (trim_keeps_most_recent (λ _, 0) (λ _, 0%nat) (λ _ _, true) (λ _ _, true))).
  - lia.
  - reflexivity.
  - unfold h. rewrite repeat_length. lia.
Defined.

(** ** Strings *)

(** The string functions on some names: lower case beyond ASCII, the final
    sigma, lengths in code units, and the cut. *)
Lemma string_examples :
  toLowerCase "Alice" = "alice" ∧ toLowerCase "École" = "école" ∧
  toLowerCase "ΟΔΟΣ" = "οδος" ∧ toLowerCase "İ" = "i̇" ∧
  jsLength "École" = 5%nat ∧ jsLength "𐐀" = 2%nat ∧
  cutName 3 "École" = "Éco..." ∧ cutName 5 "École" = "École".
Proof. vm_compute. repeat split. Qed.

(** ** Name generation *)

Lemma isAscii_app a b : isAscii (a ++ b) = isAscii a && isAscii b.
Proof.
  induction a as [| c a IH]; [reflexivity |].
  change (String c a ++ b) with (String c (a ++ b)). simpl. by rewrite IH, andb_assoc.
Qed.

Lemma toLowerCase_ascii s : isAscii s = true → toLowerCase s = asciiLower s.
Proof. unfold toLowerCase. by intros ->. Qed.

Lemma asciiLower_app a b : asciiLower (a ++ b) = asciiLower a ++ asciiLower b.
Proof. induction a as [| c a IH]; simpl; [reflexivity | by rewrite IH]. Qed.

Lemma asciiLower_length s : String.length (asciiLower s) = String.length s.
Proof. induction s as [| c s IH]; simpl; [reflexivity | by rewrite IH]. Qed.

Lemma lower_pretty_N_char x : lower_ascii (pretty_N_char x) = pretty_N_char x.
Proof. unfold pretty_N_char. by repeat case_match. Qed.

Lemma isAscii_pretty_N_char x : isAsciiChar (pretty_N_char x) = true.
Proof. unfold pretty_N_char. by repeat case_match. Qed.

Lemma asciiLower_pretty_N_go x : ∀ s,
  asciiLower s = s → asciiLower (pretty_N_go x s) = pretty_N_go x s.
Proof.
  induction (N.lt_wf_0 x) as [x _ IH]; intros s Hs.
  assert (x = 0 ∨ 0 < x)%N as [-> | Hx] by lia.
  - by rewrite pretty_N_go_0.
  - rewrite pretty_N_go_step by done. apply IH.
    + by apply N.div_lt.
    + simpl. by rewrite lower_pretty_N_char, Hs.
Qed.

Lemma isAscii_pretty_N_go x : ∀ s,
  isAscii s = true → isAscii (pretty_N_go x s) = true.
Proof.
  induction (N.lt_wf_0 x) as [x _ IH]; intros s Hs.
  assert (x = 0 ∨ 0 < x)%N as [-> | Hx] by lia.
  - by rewrite pretty_N_go_0.
  - rewrite pretty_N_go_step by done. apply IH.
    + by apply N.div_lt.
    + simpl. by rewrite isAscii_pretty_N_char, Hs.
Qed.

Lemma asciiLower_pretty (n : nat) : asciiLower (pretty n) = pretty n.
Proof.
  unfold pretty, pretty_nat, pretty, pretty_N. case_decide; [reflexivity |].
  by apply asciiLower_pretty_N_go.
Qed.

Lemma isAscii_pretty (n : nat) : isAscii (pretty n) = true.
Proof.
  unfold pretty, pretty_nat, pretty, pretty_N. case_decide; [reflexivity |].
  by apply isAscii_pretty_N_go.
Qed.

Lemma isAscii_suffixed name (c : nat) :
  isAscii name = true → isAscii (name ++ "-" ++ pretty c) = true.
Proof. intros Hn. by rewrite !isAscii_app, Hn, isAscii_pretty. Qed.

Lemma suffixed_inj name (c c' : nat) :
  isAscii name = true →
  toLowerCase (name ++ "-" ++ pretty c) = toLowerCase (name ++ "-" ++ pretty c') → c = c'.
Proof.
  intros Hn. rewrite !toLowerCase_ascii by by apply isAscii_suffixed.
  rewrite !asciiLower_app, !asciiLower_pretty. intros H.
  apply (inj (String.app _)) in H. apply (inj (String.app _)) in H.
  by apply (inj pretty) in H.
Qed.

Lemma length_append (a b : string) :
  String.length (a ++ b) = (String.length a + String.length b)%nat.
Proof.
  induction a as [| c a IH]; [reflexivity |].
  change (String c a ++ b) with (String c (a ++ b)). simpl. by rewrite IH.
Qed.

Lemma suffixed_longer name (c : nat) :
  isAscii name = true →
  toLowerCase name ≠ toLowerCase (name ++ "-" ++ pretty c).
Proof.
  intros Hn H. rewrite !toLowerCase_ascii in H by (done || by apply isAscii_suffixed).
  apply (f_equal String.length) in H.
  rewrite !asciiLower_length, !length_append in H. simpl in H. lia.
Qed.

Lemma getUser_byName_key s us :
  is_Some (getUser (byName s) us) → toLowerCase s ∈ map fst (lowerCaseNames us).
Proof.
  unfold getUser. simpl. intros [u Hu]. apply mget_elem_of in Hu.
  apply list_elem_of_fmap. by exists (toLowerCase s, u).
Qed.

Lemma length_without (k : string) (l : list string) :
  k ∈ l → (length (filter (λ s, s ≠ k) l) < length l)%nat.
Proof.
  induction l as [| x l IH]; intros Hk; [by inversion Hk |].
  rewrite filter_cons. destruct (decide (x ≠ k)) as [Hne | Heq]; simpl.
  - apply elem_of_cons in Hk as [-> | Hk]; [done |]. specialize (IH Hk). lia.
  - pose proof (length_filter (λ s, s ≠ k) l). lia.
Qed.

(** The loop of [generateRandomName] ends, with a name that is free: among
    more candidates than there are names, one is not in use. *)
Lemma probe_terminates us name : ∀ fuel (keys : list string) possibleName count,
  isAscii name = true →
  (length keys < fuel)%nat →
  (∀ s, s = possibleName ∨ (∃ c, (count ≤ c)%nat ∧ s = name ++ "-" ++ pretty c) →
        is_Some (getUser (byName s) us) → toLowerCase s ∈ keys) →
  (∀ c, (count ≤ c)%nat → toLowerCase possibleName ≠ toLowerCase (name ++ "-" ++ pretty c)) →
  ∃ r, probe fuel us name possibleName count = Some r ∧
       getUser (byName r) us = None ∧
       (r = possibleName ∨
        ∃ c, (count ≤ c)%nat ∧ r = name ++ "-" ++ pretty c ∧
             is_Some (getUser (byName possibleName) us) ∧
             ∀ c', (count ≤ c' < c)%nat →
                   is_Some (getUser (byName (name ++ "-" ++ pretty c')) us)).
Proof.
  induction fuel as [| fuel IH]; intros keys pn count Hname Hlen Hkeys Hdist; [lia |].
  simpl. destruct (getUser (byName pn) us) as [u |] eqn:Hpn.
  - assert (Hin : toLowerCase pn ∈ keys) by (apply Hkeys; [by left | by rewrite Hpn]).
    destruct (IH (filter (λ s, s ≠ toLowerCase pn) keys) (name ++ "-" ++ pretty count)
                (S count)) as (r & Hr & Hfree & Hshape).
    + exact Hname.
    + pose proof (length_without _ _ Hin). lia.
    + intros s Hs Htaken. apply list_elem_of_filter. split.
      * destruct Hs as [-> | (c & Hc & ->)]; intros Heq; symmetry in Heq;
          by (eapply Hdist; [| exact Heq]; lia).
      * apply Hkeys; [| exact Htaken].
        destruct Hs as [-> | (c & Hc & ->)]; right; [exists count | exists c];
          split; (lia || reflexivity).
    + intros c Hc Heq. apply suffixed_inj in Heq; [lia | exact Hname].
    + exists r. split; [exact Hr |]. split; [exact Hfree |]. right.
      destruct Hshape as [-> | (c & Hc & -> & Htaken & Hbelow)].
      * exists count. split; [lia |]. split; [reflexivity |].
        split; [by eexists | intros; lia].
      * exists c. split; [lia |]. split; [reflexivity |]. split; [by eexists |].
        intros c' Hc'. destruct (decide (c' = count)) as [-> | Hne]; [exact Htaken |].
        apply Hbelow. lia.
  - exists pn. split; [reflexivity |]. split; [exact Hpn | by left].
Qed.

Lemma pick_elem_of l r : l ≠ [] → pick l r ∈ l.
Proof.
  intros Hl. unfold pick. apply list_elem_of_In, nth_In.
  apply Nat.mod_upper_bound. by destruct l.
Qed.

Lemma pick_animals_nonempty r : pick animals r ≠ "".
Proof.
  pose proof (pick_elem_of animals r ltac:(done)) as Hin.
  intros Heq. rewrite Heq in Hin. unfold animals in Hin.
  repeat (apply elem_of_cons in Hin as [Hin | Hin]; [discriminate |]).
  by inversion Hin.
Qed.

Lemma app_nonempty_r (a b : string) : b ≠ "" → a ++ b ≠ "".
Proof.
  intros Hb Heq. apply (f_equal String.length) in Heq.
  rewrite length_append in Heq. destruct b; [done | simpl in Heq; lia].
Qed.

Lemma app_nonempty_l (a b : string) : a ≠ "" → a ++ b ≠ "".
Proof. intros Ha Heq. destruct a; [done | discriminate]. Qed.

Lemma pick_isAscii l r : l ≠ [] → forallb isAscii l = true → isAscii (pick l r) = true.
Proof.
  intros Hl Hall. rewrite forallb_forall in Hall.
  by apply Hall, list_elem_of_In, pick_elem_of.
Qed.

Lemma generated_isAscii r1 r2 :
  isAscii (pick adjectives r2 ++ " " ++ pick animals r1) = true.
Proof.
  rewrite !isAscii_app, !pick_isAscii; (reflexivity || discriminate || by vm_compute).
Qed.

Lemma generateRandomName_free r1 r2 us :
  ∃ n, generateRandomName r1 r2 us = Some n ∧
       n ≠ "" ∧
       getUser (byName n) us = None ∧
       let noun := pick animals r1 in
       let both := pick adjectives r2 ++ " " ++ noun in
       let taken s := is_Some (getUser (byName s) us) in
       (n = noun ∨
        (n = both ∧ taken noun) ∨
        ∃ c, (2 ≤ c)%nat ∧ n = both ++ "-" ++ pretty c ∧ taken noun ∧ taken both ∧
             ∀ c', (2 ≤ c' < c)%nat → taken (both ++ "-" ++ pretty c')).
Proof.
  unfold generateRandomName.
  destruct (getUser (byName (pick animals r1)) us) as [u |] eqn:Hnoun.
  - set (both := pick adjectives r2 ++ " " ++ pick animals r1).
    destruct (probe_terminates us both (S (length (lowerCaseNames us)))
                (map fst (lowerCaseNames us)) both 2) as (r & Hr & Hfree & Hshape).
    + apply generated_isAscii.
    + rewrite length_map. lia.
    + intros s _ Htaken. by apply getUser_byName_key.
    + intros c _. apply suffixed_longer, generated_isAscii.
    + exists r. split; [exact Hr |]. split; [| split; [exact Hfree |]].
      * assert (Hb : both ≠ "").
        { apply app_nonempty_r, app_nonempty_r, pick_animals_nonempty. }
        destruct Hshape as [-> | (c & _ & -> & _)]; [exact Hb | by apply app_nonempty_l].
      * simpl. destruct Hshape as [-> | (c & Hc & -> & Hb & Hbelow)].
        -- right; left. split; [reflexivity | by eexists].
        -- right; right. exists c. split; [exact Hc |]. split; [reflexivity |].
           split; [by eexists |]. split; [exact Hb | exact Hbelow].
  - exists (pick animals r1). split; [reflexivity |].
    split; [apply pick_animals_nonempty |]. split; [exact Hnoun | by left].
Qed.

(** ** Identification *)

Lemma truncated_state n v w : (truncated n v w).2 = w.
Proof.
  unfold truncated. destruct v as [[| | | s | l |] |]; try reflexivity.
  destruct (_ <? _)%nat; [| reflexivity]. by destruct (toStr _).
Qed.

Lemma asName_state v w : (asName v w).2 = w.
Proof. by destruct v. Qed.

Lemma template_state v w : (template v w).2 = w.
Proof. unfold template. by destruct (toStrOpt v). Qed.

Lemma nameOf_state u w : (nameOf u w).2 = w.
Proof. by destruct u. Qed.

Lemma sidOf_channel m w : channel (sidOf m w).2 = channel w.
Proof. unfold sidOf. by destruct (keyOf _ _). Qed.

Lemma suggestName_spec mathRandom w :
  ∃ n w', suggestName mathRandom w = (Ok n, w') ∧ channel w' = channel w ∧
          n ≠ "" ∧ getUser (byName n) (users (channel w)) = None.
Proof.
  unfold suggestName.
  destruct (generateRandomName_free (mathRandom (draws w)) (mathRandom (S (draws w)))
              (users (channel w))) as (n & -> & Hne & Hfree & _).
  by eexists _, _.
Qed.

Lemma createUser_named p us us' :
  createUser p us = (Ok tt, us') →
  ∃ u, name u = p_name p ∧ getUser (byName (p_name p)) us' = Some u.
Proof.
  unfold createUser. repeat (destruct (mhas _ _); [discriminate |]).
  intros [= <-]. eexists. split; [| unfold getUser; simpl; apply mget_mset_eq].
  reflexivity.
Qed.

(** ** Renaming *)

Lemma updateUser_rename us k current n :
  registry_ok us →
  getUser (bySocket k) us = Some current →
  getUser (byName n) us = None →
  let renamed := mkUser (nextOid us) (socketId current) (sessionId current) n in
  ∃ us', updateUser (bySocket k) (mkPatch None None (Some n)) us = (Ok true, us') ∧
         getUser (bySocket k) us' = Some renamed ∧
         getUser (byName n) us' = Some renamed ∧
         getUser (bySession (sessionId current)) us' = Some renamed ∧
         sessions us' = mset (sessionId current) renamed
                             (mdelete (sessionId current) (sessions us)) ∧
         registry_ok us'.
Proof.
  intros Hok Hcur Hfree renamed.
  pose proof (updateUser_ok (bySocket k) (mkPatch None None (Some n)) us Hok
                ltac:(done) ltac:(done)) as Hok'.
  pose proof (getUser_stored _ _ _ Hcur) as Hst.
  destruct (ok_keys _ Hok current Hst) as (_ & Hks & Hkk).
  destruct (ok_agree _ Hok current Hst) as (A1 & A2 & A3).
  assert (Hk : k = socketId current) by (by apply A3).
  unfold getUser in Hfree. simpl in Hfree.
  assert (H1 : mhas (toLowerCase n) (mdelete (lowerCaseName current) (lowerCaseNames us))
               = false).
  { apply mhas_false. destruct (decide (lowerCaseName current = toLowerCase n)) as [<- |].
    - apply mget_mdelete_eq.
    - by rewrite mget_mdelete_ne. }
  assert (H2 : mhas (sessionId current) (mdelete (sessionId current) (sessions us)) = false)
    by (apply mhas_false, mget_mdelete_eq).
  assert (H3 : mhas (socketId current) (mdelete (socketId current) (sockets us)) = false)
    by (apply mhas_false, mget_mdelete_eq).
  assert (Hupd : updateUser (bySocket k) (mkPatch None None (Some n)) us =
    (Ok true,
     mkUsers (mset (toLowerCase n) renamed (mdelete (lowerCaseName current) (lowerCaseNames us)))
             (mset (socketId current) renamed (mdelete (socketId current) (sockets us)))
             (mset (sessionId current) renamed (mdelete (sessionId current) (sessions us)))
             (S (nextOid us)))).
  { rewrite (updateUser_unfold _ _ _ _ Hok Hcur). cbv zeta.
    unfold deleteUser. rewrite (getUser_self us current Hok Hst). cbn [snd].
    unfold createUser, propsOfUser, assignFields, newChatUser, lowerCaseName.
    cbn [p_name p_sessionId p_socketId w_name w_sessionId w_socketId name sessionId
         socketId lowerCaseNames sessions sockets nextOid default from_option].
    cbv beta delta [Datatypes.id].
    fold (lowerCaseName current). rewrite H1, H2, H3.
    rewrite !nullish_defined by done. reflexivity. }
  rewrite Hupd in Hok'. cbn [snd] in Hok'. eexists. split; [exact Hupd |].
  unfold getUser. simpl. subst k.
  split_and!; try apply mget_mset_eq; try reflexivity. exact Hok'.
Qed.

Lemma assignTo_fresh m' h :
  Forall (λ x, (mid x < mid m')%nat) h → assignTo m' h = h.
Proof.
  intros Hh. unfold assignTo. destruct (fget "to" m'); [| reflexivity].
  induction Hh as [| x h Hx _ IH]; simpl; [reflexivity |].
  rewrite decide_False by lia. by rewrite IH.
Qed.

(** What [channel.receive] does with the messages that the stages make. *)
Section ServerMade.

Variable dateNow : nat → Z.
Variable mathRandom : nat → nat.
Variable jsGe jsLe : Z → json → bool.
Variable fuel : nat.

Abbreviation afterAnnouncement := (afterAnnouncement dateNow).
Abbreviation afterNotice := (afterNotice dateNow).
Abbreviation afterPrivate := (afterPrivate dateNow).

Lemma receive_announcement text w :
  receiveN dateNow mathRandom jsGe jsLe (S fuel)
    (obj [("text", JStr text); ("_remember", JBool true)]) w
  = (Ok tt, afterAnnouncement text w).
Proof. reflexivity. Qed.

Lemma receive_set kind value w :
  receiveN dateNow mathRandom jsGe jsLe (S fuel)
    (obj [("_set", JStr kind); ("value", value)]) w
  = (Ok tt, afterNotice [("_set", JStr kind); ("value", value)] w).
Proof. reflexivity. Qed.

Lemma receive_private_text id text w :
  receiveN dateNow mathRandom jsGe jsLe (S fuel)
    (obj [("to", JNum id); ("text", JStr text)]) w
  = (Ok tt, afterPrivate id [("to", JNum id); ("text", JStr text)] w).
Proof. reflexivity. Qed.

Lemma receive_text_private id text w :
  receiveN dateNow mathRandom jsGe jsLe (S fuel)
    (obj [("text", JStr text); ("to", JNum id)]) w
  = (Ok tt, afterPrivate id [("text", JStr text); ("to", JNum id)] w).
Proof. reflexivity. Qed.

Lemma receive_private_set id kind value w :
  receiveN dateNow mathRandom jsGe jsLe (S fuel)
    (obj [("to", JNum id); ("_set", JStr kind); ("value", value)]) w
  = (Ok tt, afterPrivate id [("to", JNum id); ("_set", JStr kind); ("value", value)] w).
Proof. reflexivity. Qed.

End ServerMade.

Lemma process_skip st rest m :
  matches (pattern st) m = false → process (st :: rest) m = process rest m.
Proof. intros H. simpl. by rewrite H. Qed.

Lemma process_run st rest m :
  matches (pattern st) m = true →
  process (st :: rest) m =
  bind (handler st m) (λ r, if r.2 then ret tt else process rest r.1).
Proof. intros H. simpl. by rewrite H. Qed.

Lemma matches_one key v m :
  matches [(key, PEq v)] m =
  match fget key m with Some x => strictEq x v | None => false end.
Proof. unfold matches. simpl. destruct (fget key m); [apply andb_true_r | reflexivity]. Qed.

Lemma getField_setField_eq key v fields : getField key (setField key v fields) = Some v.
Proof. apply (fget_fset_eq key v (obj fields)). Qed.

Lemma getField_setField_ne key key' v fields :
  key ≠ key' → getField key' (setField key v fields) = getField key' fields.
Proof. apply (fget_fset_ne key key' v (obj fields)). Qed.

Lemma frameMessage_fields id fields w key :
  fget key (frameMessage id fields w) =
  if decide (key = "_event") then Some (JStr "transmit")
  else if decide (key = "_sender") then Some (JNum id)
  else getField key fields.
Proof.
  unfold frameMessage, fget. simpl.
  destruct (decide (key = "_event")) as [-> |]; [apply getField_setField_eq |].
  rewrite getField_setField_ne by done.
  destruct (decide (key = "_sender")) as [-> |]; [apply getField_setField_eq |].
  by rewrite getField_setField_ne.
Qed.

Section Frames.

Variable dateNow : nat → Z.
Variable mathRandom : nat → nat.
Variable jsGe jsLe : Z → json → bool.

(** The frame of a connection as the relay gives it to the channel. *)
Lemma receive_frame fuel id fields w :
  receiveN dateNow mathRandom jsGe jsLe (S fuel)
    (fset "_event" (JStr "transmit") (fset "_sender" (JNum id) (obj fields))) w =
  process (stages dateNow mathRandom jsGe jsLe (receiveN dateNow mathRandom jsGe jsLe fuel))
          (frameMessage id fields w) (started w).
Proof.
  cbn [receiveN]. unfold receiveBody.
  change (mkMsg (nextObj w) _ _) with (frameMessage id fields w).
  rewrite frameMessage_fields. reflexivity.
Qed.

(** A rename request goes to the rename stage, an identify request to the
    identify stage, and none of them further. *)
Lemma process_rename recv id fields w w0 :
  getField "request" fields = Some (JStr "rename") →
  process (stages dateNow mathRandom jsGe jsLe recv) (frameMessage id fields w) w0 =
  bind (renameStage recv (frameMessage id fields w))
       (λ r, if r.2 then ret tt
             else process (drop 3 (stages dateNow mathRandom jsGe jsLe recv)) r.1) w0.
Proof.
  intros Hreq. unfold stages.
  rewrite process_skip by (cbn [pattern]; rewrite matches_one, frameMessage_fields; reflexivity).
  rewrite process_skip by (cbn [pattern]; rewrite matches_one, frameMessage_fields; reflexivity).
  rewrite process_run; [reflexivity |].
  cbn [pattern]. rewrite matches_one, frameMessage_fields. simpl. by rewrite Hreq.
Qed.

Lemma process_identify recv id fields w w0 :
  getField "request" fields = Some (JStr "identify") →
  process (stages dateNow mathRandom jsGe jsLe recv) (frameMessage id fields w) w0 =
  bind (identifyStage mathRandom recv (frameMessage id fields w))
       (λ r, if r.2 then ret tt
             else process (drop 4 (stages dateNow mathRandom jsGe jsLe recv)) r.1) w0.
Proof.
  intros Hreq. unfold stages.
  rewrite process_skip by (cbn [pattern]; rewrite matches_one, frameMessage_fields; reflexivity).
  rewrite process_skip by (cbn [pattern]; rewrite matches_one, frameMessage_fields; reflexivity).
  rewrite process_skip
    by (cbn [pattern]; rewrite matches_one, frameMessage_fields; simpl; by rewrite Hreq).
  rewrite process_run; [reflexivity |].
  cbn [pattern]. rewrite matches_one, frameMessage_fields. simpl. by rewrite Hreq.
Qed.

End Frames.

(** ** Identity conflicts *)

Lemma createUser_throw p us e us' :
  createUser p us = (Throw e, us') → us' = us ∧ conflict e.
Proof.
  unfold createUser.
  repeat (destruct (mhas _ _); [intros [= <- <-]; by split |]).
  discriminate.
Qed.

Lemma sent_approveListener k r : sent (approveListener k r) = sent r.
Proof. by destruct k. Qed.

Lemma sidOf_relay m w : relay (sidOf m w).2 = relay w.
Proof. unfold sidOf. by destruct (keyOf _ _). Qed.

Lemma truncated_throw n v w e w' : truncated n v w = (Throw e, w') → e = TypeError.
Proof.
  unfold truncated. destruct v as [[| | | s' | l |] |]; try (by intros [= <- _]); try discriminate.
  destruct (_ <? _)%nat; [| discriminate]. destruct (toStr _); [discriminate |].
  by intros [= <- _].
Qed.

Lemma asName_throw v w e w' : asName v w = (Throw e, w') → e = TypeError.
Proof. destruct v; try discriminate; by intros [= <- _]. Qed.

Lemma template_throw v w e w' : template v w = (Throw e, w') → e = TypeError.
Proof. unfold template. destruct (toStrOpt v); [discriminate | by intros [= <- _]]. Qed.

Lemma nameOf_throw u w e w' : nameOf u w = (Throw e, w') → e = TypeError.
Proof. destruct u; [discriminate | by intros [= <- _]]. Qed.

Lemma sidOf_ok m w : ∃ sid, (sidOf m w).1 = Ok sid.
Proof. unfold sidOf. destruct (keyOf _ _); by eexists. Qed.

Lemma identifyUser_conflict mathRandom m w e w' :
  identifyUser mathRandom m w = (Throw e, w') → conflict e →
  channel w' = channel w ∧ sent (relay w') = sent (relay w).
Proof.
  unfold identifyUser, bind, senderOf, ret, modify, get, lookupUser. cbn beta iota.
  set (w1 := withRelay _ w).
  assert (Hs1 : sent (relay w1) = sent (relay w)) by apply sent_approveListener.
  pose proof (truncated_state (maxNameLength (channel w1)) (fget "name" m) w1) as Ht.
  destruct (truncated _ _ w1) as [[nm | e1] w2] eqn:Htr; simpl in Ht; subst w2;
    [| intros [= <- _] Hc; apply truncated_throw in Htr as ->; destruct Hc].
  pose proof (asName_state nm w1) as Ha.
  destruct (asName nm w1) as [[requested | e1] w2] eqn:Hreq; simpl in Ha; subst w2;
    [| intros [= <- _] Hc; apply asName_throw in Hreq as ->; destruct Hc].
  destruct (bool_decide (is_Some _) || bool_decide (requested = "")).
  - destruct (suggestName_spec mathRandom w1) as (n & w3 & Hsug & Hc3 & _).
    assert (Hr3 : relay w3 = relay w1).
    { unfold suggestName in Hsug. destruct (generateRandomName _ _ _); by injection Hsug as _ <-. }
    rewrite Hsug.
    pose proof (sidOf_channel (fset "name" nm m) w3) as Hc4.
    pose proof (sidOf_relay (fset "name" nm m) w3) as Hr4.
    destruct (sidOf_ok (fset "name" nm m) w3) as [sid Hsid].
    destruct (sidOf _ w3) as [r4 w4]. simpl in Hc4, Hr4, Hsid. subst r4.
    unfold onUsers.
    destruct (createUser _ (users (channel w4))) as [[[] | e1] us5] eqn:Hcreate.
    + cbn beta iota.
      match goal with |- context [nameOf ?u ?w] =>
        destruct (nameOf u w) as [[x | e1] w6] eqn:Hn end; [discriminate |].
      intros [= <- _] Hc. apply nameOf_throw in Hn as ->. destruct Hc.
    + apply createUser_throw in Hcreate as [-> _].
      intros [= <- <-] _.
      split; [| cbn [relay withChannel]; rewrite Hr4, Hr3; exact Hs1].
      transitivity (channel w4);
        [cbn [channel withChannel]; by destruct (channel w4) |]. by rewrite Hc4, Hc3.
  - destruct (template _ w1) as [[x | e1] w3] eqn:Htem;
      [| intros [= <- _] Hc; apply template_throw in Htem as ->; destruct Hc].
    pose proof (template_state (fget "sid" (fset "name" nm m)) w1) as Ht.
    rewrite Htem in Ht. simpl in Ht. subst w3.
    pose proof (sidOf_channel (fset "name" nm m) w1) as Hc4.
    pose proof (sidOf_relay (fset "name" nm m) w1) as Hr4.
    destruct (sidOf_ok (fset "name" nm m) w1) as [sid Hsid].
    destruct (sidOf _ w1) as [r4 w4]. simpl in Hc4, Hr4, Hsid. subst r4.
    unfold onUsers.
    destruct (createUser _ (users (channel w4))) as [[[] | e1] us5] eqn:Hcreate;
      [discriminate |].
    apply createUser_throw in Hcreate as [-> _].
    intros [= <- <-] _.
    split; [| cbn [relay withChannel]; rewrite Hr4; exact Hs1].
    transitivity (channel w4);
        [cbn [channel withChannel]; by destruct (channel w4) |]. by rewrite Hc4.
Qed.

(** C5, as the code has it.  When [createUser] throws an identity conflict
    while an identify request is processed, no stage handles it:
    [channel.receive] throws it to its caller, the message handler of the
    relay, whose [try]/[catch] catches and logs it.  Nothing is sent to the
    client or to anyone, and the channel (registry, history, counters) is
    as it was. *)
Theorem identity_conflict_propagates dateNow mathRandom jsGe jsLe s c fields w e w1 :
  findConn s (relay w) = Some c →
  containsForbiddenFields (JObj fields) 0 = false →
  getField "request" fields = Some (JStr "identify") →
  identifyUser mathRandom (frameMessage (id c) fields w) (started w) = (Throw e, w1) →
  conflict e →
  receive dateNow mathRandom jsGe jsLe
    (fset "_event" (JStr "transmit") (fset "_sender" (JNum (id c)) (obj fields))) w
  = (Throw e, w1) ∧
  onMessage dateNow mathRandom jsGe jsLe s (Some (JObj fields)) w = (Ok tt, w1) ∧
  channel w1 = channel w ∧
  sent (relay w1) = sent (relay w).
Proof.
  intros Hfind Hclean Hreq Hid Hconf.
  assert (Hrecv : receive dateNow mathRandom jsGe jsLe
    (fset "_event" (JStr "transmit") (fset "_sender" (JNum (id c)) (obj fields))) w
    = (Throw e, w1)).
  { unfold receive. rewrite receive_frame, (process_identify _ _ _ _ _ _ _ _ _ Hreq).
    unfold bind at 1. unfold identifyStage. unfold bind at 1. by rewrite Hid. }
  split; [exact Hrecv |]. split.
  - unfold onMessage. rewrite Hfind. unfold messageBody. cbn [wrapPrimitive].
    rewrite Hclean, Hrecv. reflexivity.
  - by apply (identifyUser_conflict mathRandom _ (started w) e w1 Hid).
Qed.

(** ** The three outcomes of a rename request *)

Section RenameStage.

Variable dateNow : nat → Z.
Variable mathRandom : nat → nat.
Variable jsGe jsLe : Z → json → bool.

Abbreviation recv1 := (receiveN dateNow mathRandom jsGe jsLe 1).

Lemma renameStage_cases m w id t current :
  fget "_sender" m = Some (JNum id) →
  fget "text" m = Some (JStr t) →
  getUser (bySocket (VNum id)) (users (channel w)) = Some current →
  renameStage recv1 m w =
  match getUser (byName (cutName (maxNameLength (channel w)) t)) (users (channel w)) with
  | None =>
    bind (recv1 (obj [("text", JStr (name current ++ " renamed to " ++
                                      cutName (maxNameLength (channel w)) t));
                      ("_remember", JBool true)]))
      (λ _, bind (recv1 (obj [("_set", JStr "rename");
                              ("value", JArr [JStr (name current);
                                              JStr (cutName (maxNameLength (channel w)) t)])]))
      (λ _, bind (onUsers (updateUser (bySocket (VNum id))
               (mkPatch None None (Some (cutName (maxNameLength (channel w)) t)))))
      (λ _, bind (broadcastUserList recv1)
      (λ _, ret (fset "text" (JStr (cutName (maxNameLength (channel w)) t)) m, true))))) w
  | Some holder =>
    if decide (sessionId holder = sessionId current) then
      bind (recv1 (obj [("to", JNum id);
                        ("text", JStr ("You are already named " ++
                                       cutName (maxNameLength (channel w)) t ++ "."))]))
        (λ _, ret (fset "text" (JStr (cutName (maxNameLength (channel w)) t)) m, true)) w
    else
      bind (recv1 (obj [("text", JStr ("Name already in use. (" ++
                                       cutName (maxNameLength (channel w)) t ++ ")"));
                        ("to", JNum id)]))
        (λ _, bind (recv1 (obj [("to", JNum id); ("_set", JStr "name");
                                ("value", JStr (name current))]))
        (λ _, ret (fset "text" (JStr (cutName (maxNameLength (channel w)) t)) m, true))) w
  end.
Proof.
  intros Hsender Htext Hcurrent.
  unfold renameStage, bind at 1 2 3 4 5 6 7, get, lookupUser, senderOf, ret at 1.
  cbv beta iota.
  rewrite Htext. unfold truncated, ret at 1, template, asName. cbn [toStrOpt toStr].
  unfold ret at 1 2. cbv beta iota.
  rewrite fget_fset_ne, Hsender by done. cbn [keyOf].
  rewrite Hcurrent.
  destruct (getUser (byName _) (users (channel w))); [| reflexivity].
  destruct (decide _); reflexivity.
Qed.

End RenameStage.

Lemma delivered_app w w' l :
  sent (relay w') = (sent (relay w) ++ l)%list → delivered w w' = l.
Proof. intros H. unfold delivered. rewrite H. apply drop_app_length. Qed.

Lemma ids_ok_later w (m' : message) :
  ids_ok w → (nextObj w ≤ mid m')%nat → assignTo m' (history (channel w)) = history (channel w).
Proof.
  intros Hids Hle. apply assignTo_fresh.
  eapply Forall_impl; [exact Hids |]. simpl. intros; lia.
Qed.

(** The three outcomes of a rename request of a registered user, with the
    name cut to the maximum length, when the registry is consistent.  If
    no user at all holds the name (compared without case, the caller
    included), the caller is renamed by
    the registry update, the change is announced and remembered, a
    [_set: rename] notice and the user list are broadcast.  If the holder
    of the name has the session of the caller (as when the caller asks for
    its own name in another case), nothing changes and only the caller is
    sent "You are already named ...".  Otherwise nothing changes and only
    the caller is sent the rejection and its current name. *)
Theorem rename_outcomes dateNow mathRandom jsGe jsLe s c fields w t current :
  findConn s (relay w) = Some c →
  containsForbiddenFields (JObj fields) 0 = false →
  getField "request" fields = Some (JStr "rename") →
  getField "text" fields = Some (JStr t) →
  getUser (bySocket (VNum (id c))) (users (channel w)) = Some current →
  registry_ok (users (channel w)) →
  ids_ok w →
  let newName := cutName (maxNameLength (channel w)) t in
  let w' := (onMessage dateNow mathRandom jsGe jsLe s (Some (JObj fields)) w).2 in
  let ts1 := stampOf dateNow w in
  let ts2 := nextTimestamp (dateNow (S (ticks w))) ts1 in
  let ts3 := nextTimestamp (dateNow (S (S (ticks w)))) ts2 in
  match getUser (byName newName) (users (channel w)) with
  | None =>
    let renamed :=
      mkUser (nextOid (users (channel w))) (socketId current) (sessionId current) newName in
    let announcement :=
      [("text", JStr (name current ++ " renamed to " ++ newName));
       ("_time", JNum ts1); ("_serial", JNum (lastSerial (channel w) + 1))] in
    getUser (bySocket (VNum (id c))) (users (channel w')) = Some renamed ∧
    getUser (byName newName) (users (channel w')) = Some renamed ∧
    (∃ record, props record = announcement ∧
       history (channel w') =
         trim (maxHistory (channel w)) (history (channel w) ++ [record])) ∧
    delivered w w' =
      (toApproved (relay w) (JObj announcement) ++
       toApproved (relay w)
         (JObj [("_set", JStr "rename");
                ("value", JArr [JStr (name current); JStr newName]);
                ("_time", JNum ts2)]) ++
       toApproved (relay w)
         (JObj [("_set", JStr "users");
                ("value", JArr (userNames (users (channel w'))));
                ("_time", JNum ts3)]))%list
  | Some holder =>
    users (channel w') = users (channel w) ∧
    history (channel w') = history (channel w) ∧
    lastSerial (channel w') = lastSerial (channel w) ∧
    delivered w w' =
      if decide (sessionId holder = sessionId current) then
        toAddressee (relay w) (id c)
          (JObj [("to", JNum (id c));
                 ("text", JStr ("You are already named " ++ newName ++ "."));
                 ("_time", JNum ts1)])
      else
        (toAddressee (relay w) (id c)
           (JObj [("text", JStr ("Name already in use. (" ++ newName ++ ")"));
                  ("to", JNum (id c)); ("_time", JNum ts1)]) ++
         toAddressee (relay w) (id c)
           (JObj [("to", JNum (id c)); ("_set", JStr "name");
                  ("value", JStr (name current)); ("_time", JNum ts2)]))%list
  end.
Proof.
  intros Hfind Hclean Hreq Htext Hcur Hreg Hids newName w' ts1 ts2 ts3.
  assert (Hw' : w' = (bind (renameStage (receiveN dateNow mathRandom jsGe jsLe 1)
                              (frameMessage (id c) fields w))
                           (λ r, if r.2 then ret tt
                                 else process (drop 3 (stages dateNow mathRandom jsGe jsLe
                                        (receiveN dateNow mathRandom jsGe jsLe 1))) r.1)
                           (started w)).2).
  { unfold w', onMessage. rewrite Hfind. unfold messageBody. cbn [wrapPrimitive snd].
    rewrite Hclean. unfold receive.
    by rewrite receive_frame, (process_rename _ _ _ _ _ _ _ _ _ Hreq). }
  clearbody w'. unfold bind at 1 in Hw'.
  rewrite (renameStage_cases dateNow mathRandom jsGe jsLe _ (started w) (id c) t current)
    in Hw'.
  2: { rewrite frameMessage_fields. reflexivity. }
  2: { rewrite frameMessage_fields. simpl. exact Htext. }
  2: { exact Hcur. }
  change (channel (started w)) with (channel w) in Hw'. fold newName in Hw'.
  destruct (getUser (byName newName) (users (channel w))) as [holder |] eqn:Hholder.
  - destruct (decide (sessionId holder = sessionId current)) as [Hsame | Hother].
    + unfold bind in Hw'. rewrite receive_private_text in Hw'. simpl in Hw'.
      subst w'. cbn [channel relay afterPrivate withHistory withLastTimestamp users
                     history lastSerial].
      split; [reflexivity |]. split; [| split; [reflexivity |]].
      * apply (ids_ok_later w); [exact Hids | simpl; lia].
      * by apply delivered_app.
    + unfold bind in Hw'. rewrite receive_text_private in Hw'. cbv beta iota in Hw'.
      rewrite receive_private_set in Hw'. simpl in Hw'.
      subst w'. cbn [channel relay afterPrivate withHistory withLastTimestamp users
                     history lastSerial].
      split; [reflexivity |]. split; [| split; [reflexivity |]].
      * change (history (channel (started w))) with (history (channel w)).
        rewrite (ids_ok_later w) by (try exact Hids; simpl; lia).
        apply (ids_ok_later w); [exact Hids | simpl; lia].
      * apply delivered_app. rewrite app_assoc. reflexivity.
  - destruct (updateUser_rename _ _ _ newName Hreg Hcur Hholder)
      as (us' & Hupd & Hsock & Hname & _ & _ & _).
    unfold bind at 1 in Hw'. rewrite receive_announcement in Hw'.
    unfold bind at 1 in Hw'. rewrite receive_set in Hw'.
    unfold bind at 1, onUsers in Hw'.
    set (W := afterNotice _ _ _) in Hw'.
    change (users (channel W)) with (users (channel w)) in Hw'.
    rewrite Hupd in Hw'. cbv beta iota in Hw'.
    unfold broadcastUserList, bind at 1 2 3, get in Hw'. cbv beta iota in Hw'.
    rewrite receive_set in Hw'.
    assert (Hfinal : w' =
      afterNotice dateNow [("_set", JStr "users"); ("value", JArr (userNames us'))]
        (withChannel (withUsers (λ _, us')) W)).
    { rewrite Hw'. unfold logUsers. by destruct (forallb _ _). }
    clear Hw'. subst w' W.
    cbn [channel relay afterNotice afterAnnouncement withChannel withUsers
         withLastTimestamp users history lastSerial started maxHistory].
    split; [exact Hsock |]. split; [exact Hname |]. split.
    + eexists. split; [| reflexivity]. reflexivity.
    + apply delivered_app. rewrite !app_assoc. reflexivity.
Qed.

(** ** Instances and counterexamples on the example runs *)

Lemma aliceAndGuest_registry : registry_ok (users (channel aliceAndGuest)).
Proof.
  change (users (channel aliceAndGuest))
    with (runOps [OpCreate (mkProps (VNum 0) (VStr "s1") "Alice")] emptyUsers).
  apply registry_ok_keyed; [| apply registry_ok_empty].
  repeat constructor; discriminate.
Qed.

Lemma aliceAndBob_registry : registry_ok (users (channel aliceAndBob)).
Proof.
  change (users (channel aliceAndBob))
    with (runOps [OpCreate (mkProps (VNum 0) (VStr "s1") "Alice");
                  OpCreate (mkProps (VNum 1) (VStr "s2") "Bob")] emptyUsers).
  apply registry_ok_keyed; [| apply registry_ok_empty].
  repeat constructor; discriminate.
Qed.

(** An instance of [unapproved_receives_nothing]: a broadcast while socket 8
    has connected but not identified. *)
Lemma unapproved_receives_nothing_witness :
  received 8 (broadcast (obj [("text", JStr "hi")]) (relay aliceAndGuest)).2
  = received 8 (relay aliceAndGuest).
Proof.
  apply (unapproved_receives_nothing _ _ (mkConn 8 1 false)).
  - apply (bool_decide_unpack _). vm_compute. reflexivity.
  - apply (bool_decide_unpack _). vm_compute. reflexivity.
  - reflexivity.
Defined.

(** An instance of [reserved_key_frame_dropped]: the payload
    [{_serial: 99, text: "x"}] sent by Alice. *)
Lemma reserved_key_frame_dropped_witness :
  let m := JObj [("_serial", JNum 99); ("text", JStr "x")] in
  containsForbiddenFields m 0 = true ∧
  onMessage clock0 dice0 numGe numLe 7 (Some m) aliceAndGuest = (Ok tt, aliceAndGuest).
Proof.
  apply reserved_key_frame_dropped. reflexivity.
Defined.

(** An instance of [deep_frame_dropped]: eleven objects inside one another,
    with no reserved key. *)
Lemma deep_frame_dropped_witness :
  let m := Nat.iter 11 (λ v, JObj [("a", v)]) (JNum 0) in
  hasReservedKey m = false ∧
  containsForbiddenFields m 0 = true ∧
  onMessage clock0 dice0 numGe numLe 7 (Some m) aliceAndGuest = (Ok tt, aliceAndGuest).
Proof.
  split; [reflexivity |].
  apply deep_frame_dropped. vm_compute. lia.
Defined.

(** The claim C5 as it is written fails: socket 8 identifies with the
    session of Alice; [channel.receive] throws the conflict to the relay,
    the registry is as before, and nothing is sent to socket 8 or to
    anyone. *)
Lemma session_conflict_not_answered :
  let w := aliceAndGuest in
  let fields := [("request", JStr "identify"); ("name", JStr "Bob"); ("sid", JStr "s1")] in
  let w' := (onMessage clock0 dice0 numGe numLe 8 (Some (JObj fields)) w).2 in
  (receive clock0 dice0 numGe numLe
     (fset "_event" (JStr "transmit") (fset "_sender" (JNum 1) (obj fields))) w).1
  = Throw (SessionInUse (VStr "s1")) ∧
  users (channel w') = users (channel w) ∧
  delivered w w' = [] ∧
  received 8 (relay w') = [].
Proof. vm_compute. repeat split. Qed.

(** An instance of [identity_conflict_propagates]: the same request. *)
Lemma identity_conflict_propagates_witness :
  let w := aliceAndGuest in
  let fields := [("request", JStr "identify"); ("name", JStr "Bob"); ("sid", JStr "s1")] in
  let w1 := (identifyUser dice0 (frameMessage 1 fields w) (started w)).2 in
  onMessage clock0 dice0 numGe numLe 8 (Some (JObj fields)) w = (Ok tt, w1) ∧
  channel w1 = channel w ∧ sent (relay w1) = sent (relay w).
Proof.
  intros w fields w1.
  apply (identity_conflict_propagates clock0 dice0 numGe numLe 8 (mkConn 8 1 false)
           fields w (SessionInUse (VStr "s1")) w1).
  - reflexivity.
  - reflexivity.
  - reflexivity.
  - vm_compute. reflexivity.
  - exact I.
Defined.

(** C6.  The rename stage does not approve every request for a name that
    no other user holds.  Alice, on socket 7 (connection 0, session s1), is
    the only user; she asks for the name "alice".  No user of another
    session holds that name and Alice's name is not exactly that, so the
    request is to be approved (the comment in the code says so too: if no
    one else holds the name, approve the request).  But the lookup by name
    finds Alice herself, and a holder makes the stage take its second
    branch: Alice is told "You are already named alice.", which is not the
    case; her name stays "Alice", and nothing is recorded or announced.

    For comparison, the rest of the stage on the same state: a name that no
    one holds is approved, and cut to 30 code units with the mark of the
    cut when it is longer (a name of 30 letters with accents is not
    cut). *)
Theorem own_name_in_other_case_not_renamed :
  let w := aliceAndGuest in
  let w' := (onMessage clock0 dice0 numGe numLe 7 (Some (renameFrame "alice")) w).2 in
  let alice := mkUser 0 (VNum 0) (VStr "s1") "Alice" in
  (getUser (bySocket (VNum 0)) (users (channel w)) = Some alice ∧
   getUser (byName "alice") (users (channel w)) = Some alice ∧
   mvalues (sessions (users (channel w))) = [alice] ∧
   name alice ≠ "alice" ∧
   users (channel w') = users (channel w) ∧
   history (channel w') = history (channel w) ∧
   delivered w w' =
     [(7%nat, JObj [("to", JNum 0); ("text", JStr "You are already named alice.");
                ("_time", JNum 1700000000004)])]) ∧
  (let renamedTo t :=
     option_map name
       (getUser (bySocket (VNum 0))
          (users (channel (onMessage clock0 dice0 numGe numLe 7
                             (Some (renameFrame t)) w).2))) in
   renamedTo "Alicia" = Some "Alicia" ∧
   renamedTo "Alice of the thirty-one letters" = Some "Alice of the thirty-one letter..." ∧
   renamedTo "Éééééééééé Éééééééééé Éééééééé" = Some "Éééééééééé Éééééééééé Éééééééé").
Proof. vm_compute. repeat split. discriminate. Qed.

Lemma aliceAndBob_ids : ids_ok aliceAndBob.
Proof. unfold ids_ok. vm_compute. repeat (constructor; [lia |]). constructor. Qed.

(** An instance of [rename_outcomes]: Alice asks for the name "Carol", which
    no one holds, and is renamed. *)
Lemma rename_outcomes_witness :
  let w := aliceAndBob in
  let w' := (onMessage clock0 dice0 numGe numLe 7 (Some (renameFrame "Carol")) w).2 in
  getUser (bySocket (VNum 0)) (users (channel w'))
  = Some (mkUser 2 (VNum 0) (VStr "s1") "Carol").
Proof.
  pose proof (rename_outcomes clock0 dice0 numGe numLe 7 (mkConn 7 0 true)
                [("request", JStr "rename"); ("text", JStr "Carol")] aliceAndBob "Carol"
                (mkUser 0 (VNum 0) (VStr "s1") "Alice")
                eq_refl eq_refl eq_refl eq_refl eq_refl
                aliceAndBob_registry aliceAndBob_ids) as H.
  vm_compute in H. destruct H as (H & _). vm_compute. exact H.
Defined.

(** ** The depth of [channel.receive] *)

Lemma same_refl {A} (c : M World A) : same c c.
Proof. by intros w. Qed.

Lemma same_bind {A B} (c c' : M World A) (k k' : A → M World B) :
  same c c' → (∀ a, same (k a) (k' a)) → same (bind c k) (bind c' k').
Proof.
  intros Hc Hk w. unfold bind. rewrite (Hc w).
  destruct (c' w) as [[a | e] w']; [apply Hk | reflexivity].
Qed.

Lemma getField_literal key l :
  Forall (λ kv : string * option json, kv.1 ≠ key) l → getField key (literal l) = None.
Proof.
  induction 1 as [| [k [v |]] l Hk _ IH]; simpl in *; [reflexivity | | exact IH].
  by rewrite decide_False.
Qed.

Lemma serverMade_literal l :
  Forall (λ kv : string * option json, kv.1 ≠ "_event") l →
  Forall (λ kv : string * option json, kv.1 ≠ "request") l →
  Forall (λ kv : string * option json, kv.1 ≠ "recipient") l →
  serverMade (obj (literal l)).
Proof. intros H1 H2 H3. unfold serverMade, fget. simpl. by rewrite !getField_literal. Qed.

Lemma serverMade_obj fields :
  getField "_event" fields = None → getField "request" fields = None →
  getField "recipient" fields = None → serverMade (obj fields).
Proof. by intros; repeat split. Qed.

Section Depth.

Variable dateNow : nat → Z.
Variable mathRandom : nat → nat.
Variable jsGe jsLe : Z → json → bool.

Lemma process_serverMade recv m :
  serverMade m →
  process (stages dateNow mathRandom jsGe jsLe recv) m =
  process (drop 7 (stages dateNow mathRandom jsGe jsLe recv)) m.
Proof.
  intros (He & Hr & Hc). unfold stages.
  do 5 (rewrite process_skip by (cbn [pattern]; rewrite matches_one, ?He, ?Hr; reflexivity)).
  rewrite process_skip by (cbn [pattern]; unfold matches; simpl; by rewrite Hc).
  rewrite process_skip by (cbn [pattern]; rewrite matches_one, ?He, ?Hr; reflexivity).
  reflexivity.
Qed.

Lemma receiveBody_serverMade recvA recvB m :
  serverMade m →
  same (receiveBody dateNow mathRandom jsGe jsLe recvA m)
       (receiveBody dateNow mathRandom jsGe jsLe recvB m).
Proof.
  intros (He & Hr & Hc) w. unfold receiveBody.
  set (m1 := mkMsg (nextObj w) (items m) (props m)).
  set (m2 := match fget "_sender" m1 with
             | None | Some JNull => fset "_sender" (JNum serverId) m1
             | Some _ => m1
             end).
  assert (Hm2 : serverMade m2).
  { unfold m2. destruct (fget "_sender" m1) as [[] |];
      repeat split; rewrite ?fget_fset_ne by done; assumption. }
  by rewrite !(process_serverMade _ _ Hm2).
Qed.

Lemma receiveN_serverMade a b m :
  serverMade m →
  same (receiveN dateNow mathRandom jsGe jsLe (S a) m)
       (receiveN dateNow mathRandom jsGe jsLe (S b) m).
Proof. intros Hm. simpl. by apply receiveBody_serverMade. Qed.

Section Handlers.

Variables recvA recvB : message → M World unit.
Hypothesis recv_same : ∀ m, serverMade m → same (recvA m) (recvB m).

Ltac made :=
  first
    [ apply serverMade_obj; reflexivity
    | apply serverMade_literal; repeat constructor; discriminate ].

Ltac level :=
  repeat first
    [ apply same_refl
    | apply recv_same; made
    | apply same_bind; [| intros ?]
    | match goal with
      | |- same (match ?x with _ => _ end) _ => destruct x
      | |- same (if ?x then _ else _) _ => destruct x
      end ].

Lemma same_broadcastUserList : same (broadcastUserList recvA) (broadcastUserList recvB).
Proof. unfold broadcastUserList. level. Qed.

Lemma same_disconnectStage m : same (disconnectStage recvA m) (disconnectStage recvB m).
Proof. unfold disconnectStage. level. Qed.

Lemma same_renameStage m : same (renameStage recvA m) (renameStage recvB m).
Proof. unfold renameStage. level. Qed.

Lemma same_identifyStage m :
  same (identifyStage mathRandom recvA m) (identifyStage mathRandom recvB m).
Proof. unfold identifyStage. level. Qed.

Lemma same_historyStage m :
  same (historyStage jsGe jsLe recvA m) (historyStage jsGe jsLe recvB m).
Proof. unfold historyStage. level. Qed.

Lemma same_directStage m : same (directStage recvA m) (directStage recvB m).
Proof. unfold directStage. level. Qed.

Lemma same_process l1 l2 :
  Forall2 (λ a b, pattern a = pattern b ∧ ∀ m, same (handler a m) (handler b m)) l1 l2 →
  ∀ m, same (process l1 m) (process l2 m).
Proof.
  induction 1 as [| a b l1 l2 [Hp Hh] _ IH]; intros m; simpl; [apply same_refl |].
  rewrite Hp. destruct (matches (pattern b) m); [| apply IH].
  apply same_bind; [apply Hh |]. intros [m' []]; [apply same_refl | apply IH].
Qed.

Lemma same_receiveBody m :
  same (receiveBody dateNow mathRandom jsGe jsLe recvA m)
       (receiveBody dateNow mathRandom jsGe jsLe recvB m).
Proof.
  intros w. unfold receiveBody. apply same_process. unfold stages.
  repeat (constructor; [split; [reflexivity | intros m'] |]); try constructor;
    cbn [handler]; try apply same_refl.
  - apply same_disconnectStage.
  - apply same_renameStage.
  - apply same_identifyStage.
  - apply same_historyStage.
  - apply same_directStage.
Qed.

End Handlers.

(** Fuel beyond 2 changes nothing: [receive] never runs out of depth. *)
Lemma receiveN_fuel fuel m :
  same (receiveN dateNow mathRandom jsGe jsLe (S (S fuel)) m)
       (receiveN dateNow mathRandom jsGe jsLe 2 m).
Proof.
  change (same (receiveBody dateNow mathRandom jsGe jsLe
                  (receiveN dateNow mathRandom jsGe jsLe (S fuel)) m)
               (receiveBody dateNow mathRandom jsGe jsLe
                  (receiveN dateNow mathRandom jsGe jsLe 1) m)).
  apply same_receiveBody. intros x Hx. by apply receiveN_serverMade.
Qed.

End Depth.

(** ** The identities of the history records *)

Lemma returns_ret {A} (Q : A → Prop) a : Q a → returns Q (ret a : M World A).
Proof. intros Ha w a' w' [= <- _]. exact Ha. Qed.

Lemma returns_throw {A} (Q : A → Prop) e : returns Q (throw e : M World A).
Proof. intros w a w' H. discriminate. Qed.

Lemma returns_bind {A B} (Q : B → Prop) (c : M World A) (k : A → M World B) :
  (∀ a, returns Q (k a)) → returns Q (bind c k).
Proof.
  intros Hk w b w'. unfold bind. destruct (c w) as [[a | e] w1]; [apply Hk | discriminate].
Qed.

Lemma returns_bind_after {A B} (P : A → Prop) (Q : B → Prop)
    (c : M World A) (k : A → M World B) :
  returns P c → (∀ a, P a → returns Q (k a)) → returns Q (bind c k).
Proof.
  intros Hc Hk w b w'. unfold bind. specialize (Hc w).
  destruct (c w) as [[a | e] w1]; [| discriminate]. apply (Hk a). by eapply Hc.
Qed.

Lemma ids_step_le n n' {A} (c : M World A) : (n ≤ n')%nat → ids_step n c → ids_step n' c.
Proof. intros Hle Hc w Hn. apply Hc. lia. Qed.

Lemma ids_step_bind n {A B} (Q : A → Prop) (c : M World A) (k : A → M World B) :
  ids_step n c → returns Q c → (∀ a, Q a → ids_step n (k a)) → ids_step n (bind c k).
Proof.
  intros Hc Hq Hk w Hn Hw. unfold bind. specialize (Hc w Hn Hw). specialize (Hq w).
  destruct (c w) as [[a | e] w1]; simpl in *; [| exact Hc].
  destruct Hc as [Hw1 Hle]. destruct (Hk a (Hq a w1 eq_refl) w1 ltac:(lia) Hw1). split; [done | lia].
Qed.

Lemma ids_step_seq n {A B} (c : M World A) (k : A → M World B) :
  ids_step n c → (∀ a, ids_step n (k a)) → ids_step n (bind c k).
Proof.
  intros Hc Hk. apply (ids_step_bind n (λ _, True)); [exact Hc | by intros ???? | auto].
Qed.

Lemma ids_step_stable n {A} (c : M World A) : stable c → ids_step n c.
Proof.
  intros Hc w _ Hw. destruct (Hc w) as (Hh & _ & _ & Hle). split; [| exact Hle].
  unfold ids_ok in *. rewrite Hh. eapply Forall_impl; [exact Hw |]. simpl. intros; lia.
Qed.

Lemma mids_assignTo m' h (n : nat) :
  Forall (λ x, (mid x < n)%nat) h → Forall (λ x, (mid x < n)%nat) (assignTo m' h).
Proof.
  intros Hh. unfold assignTo. destruct (fget "to" m'); [| exact Hh].
  apply Forall_fmap. eapply Forall_impl; [exact Hh |]. simpl.
  intros x Hx. by destruct (decide _).
Qed.

Lemma mids_trim cap (h : list message) (n : nat) :
  Forall (λ x, (mid x < n)%nat) h → Forall (λ x, (mid x < n)%nat) (trim cap h).
Proof.
  intros Hh. unfold trim, sliceLast. destruct (_ <? _)%nat; [| exact Hh].
  destruct (kept cap); [exact Hh |]. by apply Forall_drop.
Qed.

Lemma ids_step_rememberStage m : ids_step (S (mid m)) (rememberStage m).
Proof.
  intros w Hn Hw. unfold rememberStage, bind, get, modify, template. simpl.
  assert (Hpush : Forall (λ x, (mid x < nextObj w)%nat)
            (history (channel w) ++
             [fset "_serial" (JNum (lastSerial (channel w) + 1)) (fdel "_remember" m)])).
  { apply Forall_app. split; [exact Hw |]. repeat constructor. simpl. lia. }
  destruct (toStrOpt _); simpl; [| by split].
  destruct (toStrOpt _); simpl; [| by split].
  split; [| lia]. by apply mids_trim.
Qed.

Lemma ids_step_broadcastStage n m : ids_step n (broadcastStage m).
Proof.
  intros w _ Hw. unfold broadcastStage. destruct (broadcast m (relay w)) as [m' r].
  simpl. split; [| lia]. by apply mids_assignTo.
Qed.

Section Identities.

Variable dateNow : nat → Z.
Variable mathRandom : nat → nat.
Variable jsGe jsLe : Z → json → bool.

Section Handlers.

Variable receive : message → M World unit.
Hypothesis receive_ids : ∀ m, ids_step 0 (receive m).

Ltac ids :=
  cbv beta;
  repeat first
    [ apply (ids_step_le 0); [lia | apply receive_ids]
    | apply ids_step_stable; solve [repeat stable_step]
    | apply ids_step_seq; [| intros ?]
    | match goal with
      | |- ids_step _ (match ?x with _ => _ end) => destruct x
      | |- ids_step _ (if ?x then _ else _) => destruct x
      end ].

Ltac same_mid :=
  cbv beta;
  repeat first
    [ apply returns_bind; intros ?
    | apply returns_throw
    | apply returns_ret; reflexivity
    | match goal with
      | |- returns _ (match ?x with _ => _ end) => destruct x
      | |- returns _ (if ?x then _ else _) => destruct x
      end ].

Lemma ids_stages :
  Forall (λ st, ∀ m, ids_step (S (mid m)) (handler st m) ∧
                     returns (λ r, mid r.1 = mid m) (handler st m))
         (stages dateNow mathRandom jsGe jsLe receive).
Proof.
  unfold stages. repeat (apply Forall_cons_2; [intros m'; cbn [handler]; split |]).
  - unfold connectStage. ids.
  - unfold connectStage. same_mid.
  - unfold disconnectStage, broadcastUserList. ids.
  - unfold disconnectStage. same_mid.
  - unfold renameStage, broadcastUserList. ids.
  - unfold renameStage. same_mid.
  - unfold identifyStage, identifyUser, broadcastUserList. ids.
  - unfold identifyStage.
    apply (returns_bind_after (λ m1, mid m1 = mid m')); [unfold identifyUser; same_mid |].
    intros m1 Hm1. same_mid. apply returns_ret. exact Hm1.
  - unfold historyStage. ids.
  - unfold historyStage. same_mid.
  - unfold directStage. ids.
  - unfold directStage. same_mid.
  - unfold transmitStage. ids.
  - unfold transmitStage. same_mid.
  - apply ids_step_stable, stable_timestampStage.
  - intros w a w' [= <- _]. reflexivity.
  - unfold senderErasureStage. ids.
  - unfold senderErasureStage. same_mid.
  - apply ids_step_rememberStage.
  - unfold rememberStage. same_mid.
  - apply ids_step_broadcastStage.
  - intros w a w'. unfold broadcastStage, broadcast.
    destruct (fget "to" m'); intros [= <- _]; reflexivity.
  - constructor.
Qed.

Lemma ids_process stages :
  Forall (λ st, ∀ m, ids_step (S (mid m)) (handler st m) ∧
                     returns (λ r, mid r.1 = mid m) (handler st m)) stages →
  ∀ m, ids_step (S (mid m)) (process stages m).
Proof.
  induction 1 as [| st rest Hst _ IH]; intros m; simpl.
  - apply ids_step_stable, stable_ret.
  - destruct (matches _ _); [| apply IH].
    destruct (Hst m) as [Hstep Hmid].
    apply (ids_step_bind _ _ _ _ Hstep Hmid). intros [m' b] Hm'. simpl in *.
    destruct b; [apply ids_step_stable, stable_ret |]. rewrite <- Hm'. apply IH.
Qed.

Lemma ids_receiveBody m :
  ids_step 0 (receiveBody dateNow mathRandom jsGe jsLe receive m).
Proof.
  intros w _ Hw. unfold receiveBody.
  match goal with |- context [process _ ?m' ?w'] =>
    destruct (ids_process _ ids_stages m' w') as [H1 H2] end.
  - simpl. by destruct (fget "_sender" _) as [[] |].
  - unfold ids_ok in *. simpl. eapply Forall_impl; [exact Hw |]. simpl. intros; lia.
  - split; [exact H1 |]. etrans; [| exact H2]. simpl. lia.
Qed.

End Handlers.

Lemma ids_receiveN fuel : ∀ m, ids_step 0 (receiveN dateNow mathRandom jsGe jsLe fuel m).
Proof.
  induction fuel as [| fuel IH]; intros m; simpl.
  - apply ids_step_stable, stable_throw.
  - by apply ids_receiveBody.
Qed.

Lemma ids_step_receiveConnection s :
  ids_step 0 (receiveConnection dateNow mathRandom jsGe jsLe s).
Proof.
  unfold receiveConnection, receive.
  apply ids_step_seq; [apply ids_step_stable, stable_get | intros w0].
  destruct (findConn _ _); [apply ids_step_stable, stable_ret |].
  apply ids_step_seq; [apply ids_step_stable, stable_withRelay | intros _].
  apply ids_step_seq; [apply ids_receiveN | intros _; apply ids_step_stable, stable_ret].
Qed.

Lemma ids_step_messageBody id data :
  ids_step 0 (messageBody dateNow mathRandom jsGe jsLe id data).
Proof.
  unfold messageBody, receive.
  destruct data as [parsed |]; [| apply ids_step_stable, stable_throw].
  destruct (containsForbiddenFields _ _); [apply ids_step_stable, stable_ret |].
  destruct (wrapPrimitive parsed);
    first [apply ids_step_stable, stable_throw | apply ids_receiveN].
Qed.

Lemma ids_step_onClose s : ids_step 0 (onClose dateNow mathRandom jsGe jsLe s).
Proof.
  unfold onClose, receive.
  apply ids_step_seq; [apply ids_step_stable, stable_get | intros w0].
  destruct (findConn _ _); [| apply ids_step_stable, stable_ret].
  apply ids_step_seq; [apply ids_receiveN | intros _].
  apply ids_step_stable, stable_withRelay.
Qed.

Lemma ids_ok_step e w : ids_ok w → ids_ok (step dateNow mathRandom jsGe jsLe w e).
Proof.
  intros Hw. destruct e as [s | s data | s | text]; unfold step, receive.
  - exact (proj1 (ids_step_receiveConnection s w (Nat.le_0_l _) Hw)).
  - unfold onMessage. destruct (findConn _ _) as [c |]; [| exact Hw]. cbn [snd].
    exact (proj1 (ids_step_messageBody (id c) data w (Nat.le_0_l _) Hw)).
  - exact (proj1 (ids_step_onClose s w (Nat.le_0_l _) Hw)).
  - exact (proj1 (ids_receiveN 2 _ w (Nat.le_0_l _) Hw)).
Qed.

(** Every world that the server reaches satisfies [ids_ok]. *)
Lemma ids_ok_run es : ∀ w, ids_ok w → ids_ok (run dateNow mathRandom jsGe jsLe es w).
Proof.
  induction es as [| e es IH]; intros w Hw; simpl; [exact Hw |].
  apply IH, ids_ok_step, Hw.
Qed.

End Identities.
(** * Further properties of the code *)

(** ** The registry: lookups after each operation *)

Section JsMapMore.
Context {K V : Type} `{EqDecision K}.
Implicit Types (m : jsmap K V) (k : K) (v : V).


Lemma mset_absent k v m : mget k m = None → mset k v m = (m ++ [(k, v)])%list.
Proof.
  induction m as [| [k0 v0] m IH]; simpl; [reflexivity |].
  destruct (decide (k0 = k)); [discriminate |]. intros Hm. by rewrite IH.
Qed.



Lemma mvalues_mdelete `{EqDecision V} k (u : V) m :
  (∀ k' v', (k', v') ∈ m → (k' = k ↔ v' = u)) →
  mvalues (mdelete k m) = filter (λ x, x ≠ u) (mvalues m).
Proof.
  unfold mvalues. induction m as [| [k0 v0] m IH]; intros Hm; simpl; [reflexivity |].
  assert (Hrest : ∀ k' v', (k', v') ∈ m → k' = k ↔ v' = u)
    by (intros k' v' Hin; apply Hm; by right).
  specialize (Hm k0 v0 ltac:(left)).
  destruct (decide (k0 = k)) as [Hk | Hk].
  - rewrite filter_cons_False by (intros Hne; apply Hne; by apply Hm). by apply IH.
  - rewrite filter_cons_True by (intros Hv; apply Hk; by apply Hm). simpl. f_equal. by apply IH.
Qed.

End JsMapMore.

Lemma stored_values us u :
  registry_ok us →
  (u ∈ mvalues (lowerCaseNames us) ↔ stored us u) ∧
  (u ∈ mvalues (sessions us) ↔ stored us u) ∧
  (u ∈ mvalues (sockets us) ↔ stored us u).
Proof.
  intros Hok. unfold mvalues.
  assert (Hin : ∀ {K} `{EqDecision K} (m : jsmap K ChatUser),
            NoDup (map fst m) →
            (u ∈ map snd m ↔ ∃ k, mget k m = Some u)).
  { intros K ? m Hnd. rewrite list_elem_of_fmap. split.
    - intros [[k v] [-> Hkv]]. exists k. by apply elem_of_mget.
    - intros [k Hk]. exists (k, u). split; [reflexivity | by apply mget_elem_of]. }
  rewrite (Hin _ _ (lowerCaseNames us)), (Hin _ _ (sessions us)), (Hin _ _ (sockets us))
    by apply Hok.
  split_and!; (split; [intros ?; unfold stored; tauto |]); intros Hst;
    destruct (ok_agree _ Hok u Hst) as (H1 & H2 & H3); eexists.
  - by apply H1.
  - by apply H2.
  - by apply H3.
Qed.

Lemma values_NoDup {K} `{EqDecision K} (m : jsmap K ChatUser) (key : ChatUser → K) :
  NoDup (map fst m) → (∀ k v, mget k m = Some v → k = key v) → NoDup (mvalues m).
Proof.
  intros Hnd Hkey. unfold mvalues. apply NoDup_fmap_2_strong.
  - intros [k1 v1] [k2 v2] H1 H2. simpl. intros <-.
    apply elem_of_mget in H1, H2; try done.
    apply Hkey in H1, H2. congruence.
  - by eapply NoDup_fmap_1.
Qed.

Lemma registry_values us :
  registry_ok us →
  mvalues (lowerCaseNames us) ≡ₚ mvalues (sessions us) ∧
  mvalues (sockets us) ≡ₚ mvalues (sessions us).
Proof.
  intros Hok.
  assert (N1 : NoDup (mvalues (lowerCaseNames us))).
  { apply (values_NoDup _ lowerCaseName); [apply Hok |].
    intros k v Hk. apply (ok_agree _ Hok v); [unfold stored; eauto | exact Hk]. }
  assert (N2 : NoDup (mvalues (sessions us))).
  { apply (values_NoDup _ sessionId); [apply Hok |].
    intros k v Hk. apply (ok_agree _ Hok v); [unfold stored; eauto | exact Hk]. }
  assert (N3 : NoDup (mvalues (sockets us))).
  { apply (values_NoDup _ socketId); [apply Hok |].
    intros k v Hk. apply (ok_agree _ Hok v); [unfold stored; eauto 6 | exact Hk]. }
  split; apply NoDup_Permutation; try done; intros u;
    destruct (stored_values us u Hok) as (E1 & E2 & E3); tauto.
Qed.

(** Whatever sequence of [createUser], [deleteUser] and [updateUser] calls
    runs on an empty registry, with the session and socket ids given in
    each call (none of them [undefined]) and whether or not some of the
    calls throw: the three maps agree on membership, every user is in each
    map under its own key and under no other, and the three maps hold the
    same users (so [logUsers] prints three equal sizes). *)
Theorem keyed_operations_keep_indexes_equal os :
  Forall keyed os →
  let us := runOps os emptyUsers in
  agree us ∧
  mvalues (lowerCaseNames us) ≡ₚ mvalues (sessions us) ∧
  mvalues (sockets us) ≡ₚ mvalues (sessions us) ∧
  length (lowerCaseNames us) = length (sessions us) ∧
  length (sockets us) = length (sessions us).
Proof.
  intros Hk us.
  assert (Hok : registry_ok us) by (apply registry_ok_keyed; [exact Hk | apply registry_ok_empty]).
  destruct (registry_values us Hok) as [P1 P2].
  split; [apply Hok |]. split; [exact P1 |]. split; [exact P2 |].
  apply Permutation_length in P1, P2. unfold mvalues in P1, P2.
  rewrite !length_map in P1, P2. by split.
Qed.

(** An instance of [keyed_operations_keep_indexes_equal]: two users are
    created, one is renamed and one is deleted. *)
Lemma keyed_operations_keep_indexes_equal_witness :
  let us := runOps [OpCreate (mkProps (VNum 0) (VStr "s1") "Alice");
                    OpCreate (mkProps (VNum 1) (VStr "s2") "Bob");
                    OpUpdate (bySocket (VNum 0)) (mkPatch None None (Some "Carol"));
                    OpDelete (byName "bob")] emptyUsers in
  agree us ∧
  mvalues (lowerCaseNames us) ≡ₚ mvalues (sessions us) ∧
  mvalues (sockets us) ≡ₚ mvalues (sessions us) ∧
  length (lowerCaseNames us) = length (sessions us) ∧
  length (sockets us) = length (sessions us).
Proof.
  apply keyed_operations_keep_indexes_equal.
  repeat constructor; discriminate.
Defined.

(** A user that [createUser] has stored is found by [getUser] under its
    name in any letter case, under its session id and under its socket id
    (an id that was not given is [null]); the user has the name and the ids
    of the call; and every lookup under another key answers as before. *)
Theorem created_user_found p us us' :
  createUser p us = (Ok tt, us') →
  let u := mkUser (nextOid us) (nullish (p_socketId p) VNull)
                  (nullish (p_sessionId p) VNull) (p_name p) in
  (∀ n, toLowerCase n = toLowerCase (p_name p) → getUser (byName n) us' = Some u) ∧
  getUser (bySession (sessionId u)) us' = Some u ∧
  getUser (bySocket (socketId u)) us' = Some u ∧
  (∀ n, toLowerCase n ≠ toLowerCase (p_name p) →
        getUser (byName n) us' = getUser (byName n) us) ∧
  (∀ k, k ≠ sessionId u → getUser (bySession k) us' = getUser (bySession k) us) ∧
  (∀ k, k ≠ socketId u → getUser (bySocket k) us' = getUser (bySocket k) us).
Proof.
  unfold createUser. repeat (destruct (mhas _ _); [discriminate |]).
  intros [= <-]. cbv zeta. unfold getUser. simpl. split_and!.
  - intros n ->. apply mget_mset_eq.
  - apply mget_mset_eq.
  - apply mget_mset_eq.
  - intros n Hn. by rewrite mget_mset_ne.
  - intros k Hk. by rewrite mget_mset_ne.
  - intros k Hk. by rewrite mget_mset_ne.
Qed.

(** An instance of [created_user_found]: Bob is created beside Alice. *)
Lemma created_user_found_witness :
  let us := users (channel aliceAndGuest) in
  let us' := (createUser (mkProps (VNum 1) (VStr "s2") "Bob") us).2 in
  let u := mkUser 1 (VNum 1) (VStr "s2") "Bob" in
  (∀ n, toLowerCase n = "bob" → getUser (byName n) us' = Some u) ∧
  getUser (bySession (VStr "s2")) us' = Some u ∧
  getUser (bySocket (VNum 1)) us' = Some u ∧
  (∀ n, toLowerCase n ≠ "bob" → getUser (byName n) us' = getUser (byName n) us) ∧
  (∀ k, k ≠ VStr "s2" → getUser (bySession k) us' = getUser (bySession k) us) ∧
  (∀ k, k ≠ VNum 1 → getUser (bySocket k) us' = getUser (bySocket k) us).
Proof.
  intros us us' u.
  apply (created_user_found (mkProps (VNum 1) (VStr "s2") "Bob") us us').
  vm_compute. reflexivity.
Defined.

(** When the registry is consistent, [createUser] throws exactly when some
    user already has the name (compared without case), the session id or
    the socket id of the call; the error names the first of these that is
    taken, in this order, and the registry is then unchanged. *)
Theorem createUser_conflicts p us :
  registry_ok us →
  match createUser p us with
  | (Ok _, _) =>
    ∀ v, stored us v →
      lowerCaseName v ≠ toLowerCase (p_name p) ∧
      sessionId v ≠ p_sessionId p ∧ socketId v ≠ p_socketId p
  | (Throw e, us') =>
    us' = us ∧
    ∃ v, stored us v ∧
      match e with
      | NameInUse n => n = p_name p ∧ lowerCaseName v = toLowerCase n
      | SessionInUse k =>
        k = p_sessionId p ∧ sessionId v = k ∧
        getUser (byName (p_name p)) us = None
      | SocketInUse k =>
        k = p_socketId p ∧ socketId v = k ∧
        getUser (byName (p_name p)) us = None ∧
        getUser (bySession (p_sessionId p)) us = None
      | _ => False
      end
  end.
Proof.
  intros Hok. unfold createUser.
  destruct (mhas _ (lowerCaseNames us)) eqn:Hn.
  { apply mhas_true in Hn as [v Hv]. split; [reflexivity |]. exists v.
    split; [unfold stored; eauto |]. split; [reflexivity |].
    symmetry. apply (ok_agree _ Hok v); [unfold stored; eauto | exact Hv]. }
  destruct (mhas _ (sessions us)) eqn:Hs.
  { apply mhas_true in Hs as [v Hv]. split; [reflexivity |]. exists v.
    split; [unfold stored; eauto |]. split; [reflexivity |]. split.
    - symmetry. apply (ok_agree _ Hok v); [unfold stored; eauto | exact Hv].
    - by apply mhas_false in Hn. }
  destruct (mhas _ (sockets us)) eqn:Hk.
  { apply mhas_true in Hk as [v Hv]. split; [reflexivity |]. exists v.
    split; [unfold stored; eauto 6 |]. split; [reflexivity |]. split; [| split].
    - symmetry. apply (ok_agree _ Hok v); [unfold stored; eauto 6 | exact Hv].
    - by apply mhas_false in Hn.
    - by apply mhas_false in Hs. }
  apply mhas_false in Hn, Hs, Hk.
  intros v Hv. destruct (ok_agree _ Hok v Hv) as (H1 & H2 & H3).
  split_and!; intros Heq.
  - specialize (proj2 (H1 _) eq_refl). congruence.
  - specialize (proj2 (H2 _) eq_refl). congruence.
  - specialize (proj2 (H3 _) eq_refl). congruence.
Qed.

(** An instance of [createUser_conflicts]: a second user asks for Alice's
    name in capitals. *)
Lemma createUser_conflicts_witness :
  let us := users (channel aliceAndGuest) in
  (createUser (mkProps (VNum 1) (VStr "s2") "ALICE") us).2 = us ∧
  ∃ v, stored us v ∧ lowerCaseName v = "alice".
Proof.
  intros us.
  pose proof (createUser_conflicts (mkProps (VNum 1) (VStr "s2") "ALICE") us
                aliceAndGuest_registry) as H.
  assert (Hc : createUser (mkProps (VNum 1) (VStr "s2") "ALICE") us
               = (Throw (NameInUse "ALICE"), us)) by (vm_compute; reflexivity).
  rewrite Hc in H. destruct H as [_ (v & H2 & _ & H3)].
  split; [by rewrite Hc |]. exists v. split; [exact H2 | exact H3].
Defined.

Lemma stored_without us u :
  registry_ok us → stored us u →
  ∀ v, stored (mkUsers (mdelete (lowerCaseName u) (lowerCaseNames us))
                       (mdelete (socketId u) (sockets us))
                       (mdelete (sessionId u) (sessions us)) (nextOid us)) v
       ↔ stored us v ∧ v ≠ u.
Proof.
  intros Hok Hst v. destruct (ok_agree _ Hok u Hst) as (U1 & U2 & U3). split.
  - intros [[k Hv] | [[k Hv] | [k Hv]]]; simpl in Hv;
      apply mget_mdelete_Some in Hv as [Hk Hv];
      (split; [unfold stored; eauto 6 |]); intros ->.
    + by apply U1 in Hv.
    + by apply U2 in Hv.
    + by apply U3 in Hv.
  - intros [Hv Hne]. destruct (ok_agree _ Hok v Hv) as (V1 & V2 & V3).
    left. exists (lowerCaseName v). simpl. apply mget_mdelete_Some.
    split; [| by apply V1]. intros Heq. apply Hne.
    specialize (proj2 (V1 _) eq_refl). specialize (proj2 (U1 _) eq_refl). congruence.
Qed.

(** [deleteUser] on a consistent registry.  When the trait finds a user,
    the call answers [true], the user is gone from all three maps (no
    lookup by its name, its session id or its socket id finds anyone), and
    every other user is found as before; when the trait finds nobody, the
    call answers [false] and changes nothing. *)
Theorem deleteUser_removes t us :
  registry_ok us →
  (∀ u, getUser t us = Some u →
     ∃ us', deleteUser t us = (Ok true, us') ∧
       getUser (byName (name u)) us' = None ∧
       getUser (bySession (sessionId u)) us' = None ∧
       getUser (bySocket (socketId u)) us' = None ∧
       (∀ v, stored us' v ↔ stored us v ∧ v ≠ u) ∧
       (∀ t' v, v ≠ u → getUser t' us = Some v → getUser t' us' = Some v)) ∧
  (getUser t us = None → deleteUser t us = (Ok false, us)).
Proof.
  intros Hok. unfold deleteUser. split; [| by intros ->].
  intros u Hu. rewrite Hu.
  pose proof (getUser_stored _ _ _ Hu) as Hst.
  destruct (ok_agree _ Hok u Hst) as (U1 & U2 & U3).
  eexists. split; [reflexivity |].
  unfold getUser. simpl. split_and!; try apply mget_mdelete_eq.
  - by apply stored_without.
  - intros t' v Hne. destruct (t_name t') as [n |]; [| destruct (t_sessionId t') as [k |];
      [| destruct (t_socketId t') as [k |]; [| discriminate]]];
      intros Hv; apply mget_mdelete_Some; (split; [| exact Hv]); intros Heq;
      rewrite Heq in Hv.
    + specialize (proj2 (U1 _) eq_refl). congruence.
    + specialize (proj2 (U2 _) eq_refl). congruence.
    + specialize (proj2 (U3 _) eq_refl). congruence.
Qed.

(** An instance of [deleteUser_removes]: Alice is deleted by her socket id
    while Bob stays. *)
Lemma deleteUser_removes_witness :
  let us := users (channel aliceAndBob) in
  let us' := (deleteUser (bySocket (VNum 0)) us).2 in
  getUser (byName "Alice") us' = None ∧
  getUser (bySession (VStr "s1")) us' = None ∧
  getUser (bySocket (VNum 0)) us' = None ∧
  getUser (byName "Bob") us' = Some (mkUser 1 (VNum 1) (VStr "s2") "Bob").
Proof.
  intros us us'.
  destruct (proj1 (deleteUser_removes (bySocket (VNum 0)) us aliceAndBob_registry)
              (mkUser 0 (VNum 0) (VStr "s1") "Alice") eq_refl)
    as (x & Hx & H1 & H2 & H3 & _ & H4).
  subst us'. rewrite Hx. cbn [snd].
  split; [exact H1 |]. split; [exact H2 |]. split; [exact H3 |].
  apply H4; [discriminate | reflexivity].
Defined.





(** A successful rename by [updateUser] on a consistent registry, to a name
    that no other user holds (the user's own name in another letter case
    is allowed here).  The user is found under the new name, with the
    session and socket ids it had; the old name is free unless it differs
    from the new one only in case; and in the order of
    [sessions.values()], which is the order of the user list, the renamed
    user has moved to the end. *)
Theorem updateUser_renames who us current n :
  registry_ok us →
  getUser who us = Some current →
  (∀ v, getUser (byName n) us = Some v → v = current) →
  let renamed := mkUser (nextOid us) (socketId current) (sessionId current) n in
  ∃ us', updateUser who (mkPatch None None (Some n)) us = (Ok true, us') ∧
    getUser (byName n) us' = Some renamed ∧
    getUser (bySession (sessionId current)) us' = Some renamed ∧
    getUser (bySocket (socketId current)) us' = Some renamed ∧
    (toLowerCase n ≠ lowerCaseName current →
       getUser (byName (name current)) us' = None) ∧
    mvalues (sessions us') =
      (filter (λ x, x ≠ current) (mvalues (sessions us)) ++ [renamed])%list ∧
    registry_ok us'.
Proof.
  intros Hok Hcur Hfree renamed.
  pose proof (updateUser_ok who (mkPatch None None (Some n)) us Hok
                ltac:(done) ltac:(done)) as Hok'.
  pose proof (getUser_stored _ _ _ Hcur) as Hst.
  destruct (ok_keys _ Hok current Hst) as (_ & Hks & Hkk).
  destruct (ok_agree _ Hok current Hst) as (A1 & A2 & A3).
  unfold getUser in Hfree. simpl in Hfree.
  assert (H1 : mget (toLowerCase n) (mdelete (lowerCaseName current) (lowerCaseNames us))
               = None).
  { destruct (decide (lowerCaseName current = toLowerCase n)) as [<- | Hk].
    - apply mget_mdelete_eq.
    - rewrite mget_mdelete_ne by done.
      destruct (mget (toLowerCase n) (lowerCaseNames us)) as [v |] eqn:Hv; [| reflexivity].
      exfalso. apply Hk. symmetry. apply A1. rewrite Hv. f_equal. by apply Hfree. }
  pose proof (mget_mdelete_eq (sessionId current) (sessions us)) as H2.
  pose proof (mget_mdelete_eq (socketId current) (sockets us)) as H3.
  assert (Hupd : updateUser who (mkPatch None None (Some n)) us =
    (Ok true,
     mkUsers (mset (toLowerCase n) renamed (mdelete (lowerCaseName current) (lowerCaseNames us)))
             (mset (socketId current) renamed (mdelete (socketId current) (sockets us)))
             (mset (sessionId current) renamed (mdelete (sessionId current) (sessions us)))
             (S (nextOid us)))).
  { rewrite (updateUser_unfold _ _ _ _ Hok Hcur). cbv zeta.
    unfold deleteUser. rewrite (getUser_self us current Hok Hst). cbn [snd].
    unfold createUser, propsOfUser, assignFields, newChatUser, lowerCaseName.
    cbn [p_name p_sessionId p_socketId w_name w_sessionId w_socketId name sessionId
         socketId lowerCaseNames sessions sockets nextOid default from_option].
    cbv beta delta [Datatypes.id].
    fold (lowerCaseName current).
    rewrite (proj2 (mhas_false _ _) H1), (proj2 (mhas_false _ _) H2),
            (proj2 (mhas_false _ _) H3).
    rewrite !nullish_defined by done. reflexivity. }
  rewrite Hupd in Hok'. cbn [snd] in Hok'. eexists. split; [exact Hupd |].
  unfold getUser. simpl.
  split_and!; try apply mget_mset_eq; try exact Hok'.
  - intros Hk. rewrite mget_mset_ne by done. apply mget_mdelete_eq.
  - rewrite (mset_absent _ _ _ H2). unfold mvalues at 1. rewrite map_app. simpl.
    f_equal. apply mvalues_mdelete. intros k' v' Hin.
    apply elem_of_mget in Hin; [| apply Hok].
    split.
    + intros ->. specialize (proj2 (A2 _) eq_refl). congruence.
    + intros ->. by apply A2.
Qed.

(** An instance of [updateUser_renames]: Alice, the first of two users,
    takes her own name in capitals and becomes the last of the list. *)
Lemma updateUser_renames_witness :
  let us := users (channel aliceAndBob) in
  let us' := (updateUser (bySocket (VNum 0)) (mkPatch None None (Some "ALICE")) us).2 in
  getUser (byName "alice") us' = Some (mkUser 2 (VNum 0) (VStr "s1") "ALICE") ∧
  userNames us = [JStr "Alice"; JStr "Bob"] ∧
  userNames us' = [JStr "Bob"; JStr "ALICE"].
Proof.
  intros us us'.
  destruct (updateUser_renames (bySocket (VNum 0)) us
              (mkUser 0 (VNum 0) (VStr "s1") "Alice") "ALICE"
              aliceAndBob_registry eq_refl)
    as (x & Hupd & H1 & _ & _ & _ & H5 & _).
  { vm_compute. by intros v [= <-]. }
  subst us'. rewrite Hupd. cbn [snd]. split; [exact H1 |].
  unfold userNames. rewrite H5. vm_compute. by split.
Defined.

(** ** The sanitizer, exactly *)

Lemma levels_typeofObject m : (0 < levels m)%nat ↔ typeofObject m = true.
Proof. destruct m; simpl; split; try lia; try discriminate; reflexivity. Qed.

Lemma too_many_levels m :
  ∀ d, (10 < levels m + d)%nat → containsForbiddenFields m d = true.
Proof.
  induction m as [| b | n | s | l IHl | fs IHfs] using json_rect';
    intros d Hd; try (apply containsForbiddenFields_deep; simpl in Hd; lia).
  - simpl in *. destruct (Nat.ltb_spec 9 d) as [| Hle]; [reflexivity |].
    induction l as [| v l IHl']; [simpl in Hd; lia |].
    apply Forall_cons in IHl as [Hv Hl].
    destruct (Nat.max_spec (levels v)
      ((fix each (vs : list json) : nat :=
          match vs with [] => O | v :: rest => Nat.max (levels v) (each rest) end) l))
      as [[_ Hmax] | [_ Hmax]]; rewrite Hmax in Hd.
    + destruct (typeofObject v && containsForbiddenFields v (S d)); [reflexivity |].
      by apply IHl'.
    + rewrite (proj1 (levels_typeofObject v)) by lia. rewrite Hv by lia. reflexivity.
  - simpl in *. destruct (Nat.ltb_spec 9 d) as [| Hle]; [reflexivity |].
    induction fs as [| [k v] fs IHfs']; [simpl in Hd; lia |].
    apply Forall_cons in IHfs as [Hv Hfs]. simpl in Hv.
    destruct (reserved k); [reflexivity |].
    destruct (Nat.max_spec (levels v)
      ((fix each (fs : list (string * json)) : nat :=
          match fs with [] => O | (_, v) :: rest => Nat.max (levels v) (each rest) end) fs))
      as [[_ Hmax] | [_ Hmax]]; rewrite Hmax in Hd.
    + destruct (typeofObject v && containsForbiddenFields v (S d)); [reflexivity |].
      by apply IHfs'.
    + rewrite (proj1 (levels_typeofObject v)) by lia. rewrite Hv by lia. reflexivity.
Qed.

Lemma forbidden_only m :
  ∀ d, typeofObject m = true → containsForbiddenFields m d = true →
       hasReservedKey m = true ∨ (10 < levels m + d)%nat.
Proof.
  induction m as [| b | n | s | l IHl | fs IHfs] using json_rect';
    intros d Hobj; try discriminate; clear Hobj.
  - simpl. destruct (Nat.ltb_spec 9 d); [right; lia | discriminate].
  - simpl. destruct (Nat.ltb_spec 9 d) as [| Hle]; [right; lia |].
    induction l as [| v l IHl']; [discriminate |].
    apply Forall_cons in IHl as [Hv Hl]. specialize (Hv (S d)). specialize (IHl' Hl).
    destruct (typeofObject v); simpl.
    + destruct (containsForbiddenFields v (S d)).
      * intros _. destruct (Hv eq_refl eq_refl) as [Hk | Hdeep].
        -- left. by rewrite Hk.
        -- right. lia.
      * intros Hrest. destruct (IHl' Hrest) as [Hk | Hdeep].
        -- left. rewrite Hk. apply orb_true_r.
        -- right. lia.
    + intros Hrest. destruct (IHl' Hrest) as [Hk | Hdeep].
      * left. rewrite Hk. apply orb_true_r.
      * right. lia.
  - simpl. destruct (Nat.ltb_spec 9 d) as [| Hle]; [right; lia |].
    induction fs as [| [k v] fs IHfs']; [discriminate |].
    apply Forall_cons in IHfs as [Hv Hfs]. simpl in Hv.
    specialize (Hv (S d)). specialize (IHfs' Hfs).
    destruct (reserved k); [by left |]. simpl.
    destruct (typeofObject v); simpl.
    + destruct (containsForbiddenFields v (S d)).
      * intros _. destruct (Hv eq_refl eq_refl) as [Hk | Hdeep].
        -- left. by rewrite Hk.
        -- right. lia.
      * intros Hrest. destruct (IHfs' Hrest) as [Hk | Hdeep].
        -- left. rewrite Hk. apply orb_true_r.
        -- right. lia.
    + intros Hrest. destruct (IHfs' Hrest) as [Hk | Hdeep].
      * left. rewrite Hk. apply orb_true_r.
      * right. lia.
Qed.

(** [containsForbiddenFields], called as the relay calls it, answers
    [true] exactly when the payload has a key that starts with an
    underscore, at any depth, or descends more than 10 levels, where a
    [null] is a level like an object or an array: ten objects inside one
    another pass when the innermost holds a number and are refused when it
    holds [null]. *)
Theorem forbidden_exactly m :
  (containsForbiddenFields m 0 = true ↔
   hasReservedKey m = true ∨ (10 < levels m)%nat) ∧
  containsForbiddenFields (Nat.iter 10 (λ v, JObj [("a", v)]) (JNum 0)) 0 = false ∧
  containsForbiddenFields (Nat.iter 10 (λ v, JObj [("a", v)]) JNull) 0 = true.
Proof.
  split; [| split; reflexivity]. split.
  - intros Hf. destruct (typeofObject m) eqn:Hobj.
    + destruct (forbidden_only m 0 Hobj Hf) as [? | ?]; [by left | right; lia].
    + by destruct m.
  - intros [Hk | Hdeep]; [by apply reserved_found | apply too_many_levels; lia].
Qed.

(** ** Who receives a broadcast *)

Lemma deliveries_to (P : conn → Prop) `{∀ c, Decision (P c)} cs c (x : json) :
  NoDup (map sock cs) → c ∈ cs →
  map snd (List.filter (λ sm : nat * json, Nat.eqb sm.1 (sock c))
             (map (λ c0, (sock c0, x)) (filter P cs)))
  = if decide (P c) then [x] else [].
Proof.
  induction cs as [| c0 cs IH]; intros Hnd Hc; [by inversion Hc |].
  simpl in Hnd. apply NoDup_cons in Hnd as [Hc0 Hnd].
  assert (Hother : ∀ c1, c1 ∈ cs → sock c1 ≠ sock c0).
  { intros c1 Hin Heq. apply Hc0. rewrite <- Heq. by apply list_elem_of_fmap_2. }
  assert (Hnone : ∀ l, (∀ c1, c1 ∈ l → sock c1 ≠ sock c0) →
            List.filter (λ sm : nat * json, Nat.eqb sm.1 (sock c0))
              (map (λ c1, (sock c1, x)) l) = []).
  { induction l as [| c1 l IHl]; intros Hl; [reflexivity |]. simpl.
    destruct (Nat.eqb_spec (sock c1) (sock c0)) as [Heq | _].
    - exfalso. by apply (Hl c1); [left |].
    - apply IHl. intros c2 Hc2. apply Hl. by right. }
  apply elem_of_cons in Hc as [-> | Hc].
  - rewrite filter_cons. destruct (decide (P c0)); simpl.
    + rewrite Nat.eqb_refl. simpl. rewrite Hnone; [reflexivity |].
      intros c1 Hc1. apply Hother. apply list_elem_of_filter in Hc1. tauto.
    + rewrite Hnone; [reflexivity |].
      intros c1 Hc1. apply Hother. apply list_elem_of_filter in Hc1. tauto.
  - rewrite filter_cons. destruct (decide (P c0)); simpl; [| by apply IH].
    destruct (Nat.eqb_spec (sock c0) (sock c)) as [Heq | _]; [| by apply IH].
    exfalso. by apply (Hother c).
Qed.

(** What one call of [broadcast] gives to each tracked socket (the sockets
    being distinct objects).  The socket is sent the message, once, exactly
    when it has been approved as a listener and the message either has no
    [to] property or lists the connection id of the socket in [to] (a [to]
    that is no array counts as the list of that one value); in every other
    case it is sent nothing.  What is sent is the message as it was encoded
    before [to] was wrapped; the message object itself leaves the call with
    [to] wrapped in an array. *)
Theorem broadcast_delivery m r c :
  NoDup (map sock (r_sockets r)) →
  c ∈ r_sockets r →
  let addressees :=
    match fget "to" m with
    | Some (JArr l) => Some l
    | Some to => Some [to]
    | None => None
    end in
  let due :=
    canListen c && match addressees with Some l => includes (id c) l | None => true end in
  received (sock c) (broadcast m r).2 =
    (received (sock c) r ++ (if due then [encode m] else []))%list ∧
  (broadcast m r).1 =
    match addressees with Some l => fset "to" (JArr l) m | None => m end.
Proof.
  intros Hnd Hc addressees due. unfold broadcast.
  destruct (fget "to" m) as [to |] eqn:Hto; cbn [fst snd].
  - set (l := match to with JArr l => l | _ => [to] end).
    assert (Ha : addressees = Some l) by (subst addressees l; by destruct to).
    rewrite received_app. unfold addressed.
    rewrite (deliveries_to _ _ c _ Hnd Hc). subst due. rewrite Ha. split; [| reflexivity].
    f_equal. destruct (decide _) as [[-> ->] | Hno]; [reflexivity |].
    destruct (canListen c), (includes (id c) l); try reflexivity.
    exfalso. by apply Hno.
  - rewrite received_app. unfold approved.
    rewrite (deliveries_to _ _ c _ Hnd Hc). subst due addressees. split; [| reflexivity].
    f_equal. rewrite andb_true_r. destruct (decide _) as [-> | Hno]; [reflexivity |].
    destruct (canListen c); [| reflexivity]. exfalso. by apply Hno.
Qed.

(** An instance of [broadcast_delivery]: a message addressed to connection
    0 reaches Alice's socket 7 and not Bob's socket 8. *)
Lemma broadcast_delivery_witness :
  let m := obj [("to", JNum 0); ("text", JStr "psst")] in
  let r := relay aliceAndBob in
  received 7 (broadcast m r).2 = (received 7 r ++ [encode m])%list ∧
  received 8 (broadcast m r).2 = received 8 r ∧
  (broadcast m r).1 = obj [("to", JArr [JNum 0]); ("text", JStr "psst")].
Proof.
  intros m r.
  assert (Hnd : NoDup (map sock (r_sockets r))).
  { apply (bool_decide_unpack _). vm_compute. reflexivity. }
  destruct (broadcast_delivery m r (mkConn 7 0 true) Hnd) as [H7 Hm].
  { apply (bool_decide_unpack _). vm_compute. reflexivity. }
  destruct (broadcast_delivery m r (mkConn 8 1 true) Hnd) as [H8 _].
  { apply (bool_decide_unpack _). vm_compute. reflexivity. }
  split; [exact H7 |]. split; [| exact Hm].
  cbn [sock] in H8. rewrite H8. apply app_nil_r.
Defined.

(** ** Invariants of the world, through every stage *)

Lemma quiet_ret {A} (a : A) : quiet (ret a).
Proof. by intros w. Qed.

Lemma quiet_throw {A} e : quiet (throw e : M World A).
Proof. by intros w. Qed.

Lemma quiet_get : quiet get.
Proof. by intros w. Qed.

Lemma quiet_bind {A B} (c : M World A) (k : A → M World B) :
  quiet c → (∀ a, quiet (k a)) → quiet (bind c k).
Proof.
  intros Hc Hk w. unfold bind. specialize (Hc w).
  destruct (c w) as [[a | e] w']; simpl in *; [| exact Hc].
  destruct (Hk a w') as (-> & ->). exact Hc.
Qed.

Lemma quiet_lookupUser t : quiet (lookupUser t).
Proof. by intros w. Qed.

Lemma quiet_nameOf u : quiet (nameOf u).
Proof. by destruct u. Qed.

Lemma quiet_template v : quiet (template v).
Proof. unfold template. by destruct (toStrOpt v). Qed.

Lemma quiet_truncated n v : quiet (truncated n v).
Proof. intros w. by rewrite truncated_state. Qed.

Lemma quiet_asName v : quiet (asName v).
Proof. by destruct v. Qed.

Lemma quiet_senderOf m : quiet (senderOf m).
Proof. by intros w. Qed.

Lemma quiet_sidOf m : quiet (sidOf m).
Proof. intros w. unfold sidOf. by destruct (keyOf _ _). Qed.

Lemma quiet_suggestName mathRandom : quiet (suggestName mathRandom).
Proof. intros w. unfold suggestName. by destruct (generateRandomName _ _ _). Qed.

Lemma quiet_logUsers : quiet logUsers.
Proof. intros w. unfold logUsers. by destruct (forallb _ _). Qed.

Create HintDb quiet discriminated.
#[local] Hint Resolve quiet_ret quiet_throw quiet_get quiet_lookupUser
  quiet_nameOf quiet_template quiet_truncated quiet_asName quiet_senderOf
  quiet_sidOf quiet_suggestName quiet_logUsers : quiet.

Ltac quiet_step :=
  first
    [ apply quiet_bind; [| intros ?]
    | solve [auto with quiet]
    | match goal with
      | |- quiet (match ?x with _ => _ end) => destruct x
      | |- quiet (if ?x then _ else _) => destruct x
      end ].

Lemma preserves_bind_returns I {A B} (Q : A → Prop) (c : M World A) (k : A → M World B) :
  preserves I c → returns Q c → (∀ a, Q a → preserves I (k a)) → preserves I (bind c k).
Proof.
  intros Hc Hq Hk w Hw. unfold bind. specialize (Hc w Hw). specialize (Hq w).
  destruct (c w) as [[a | e] w']; simpl in *; [| exact Hc].
  apply Hk; [by eapply Hq | exact Hc].
Qed.

Lemma preserves_bind_ret I {A B} (a : A) (k : A → M World B) :
  preserves I (k a) → preserves I (bind (ret a) k).
Proof. intros Hk w Hw. exact (Hk w Hw). Qed.

Lemma matches_identify m :
  matches [("request", PEq (JStr "identify"))] m = true →
  fget "request" m = Some (JStr "identify").
Proof.
  rewrite matches_one. destruct (fget "request" m) as [[| | | s | |] |]; try discriminate.
  simpl. intros Hs. apply bool_decide_eq_true in Hs. by subst.
Qed.

Section Held.

Variable dateNow : nat → Z.
Variable mathRandom : nat → nat.
Variable jsGe jsLe : Z → json → bool.

(** An invariant that depends on the channel and the relay only; that the
    three operations of the registry keep; that the approval of a
    connection whose id satisfies [ok] keeps; and that the last four
    stages (timestamp, erasure of the sender, record, broadcast) keep. *)
Variable I : World → Prop.
Variable ok : jsval → Prop.
Hypothesis I_frame : ∀ w w', channel w' = channel w → relay w' = relay w → I w → I w'.
Hypothesis I_create : ∀ p, preserves I (onUsers (createUser p)).
Hypothesis I_delete : ∀ t, preserves I (onUsers (deleteUser t)).
Hypothesis I_update : ∀ who what, preserves I (onUsers (updateUser who what)).
Hypothesis I_approve : ∀ k w, ok k → I w → I (withRelay (approveListener k) w).
Hypothesis I_tail : ∀ recv m,
  preserves I (process (drop 7 (stages dateNow mathRandom jsGe jsLe recv)) m).

Lemma preserves_quiet {A} (c : M World A) : quiet c → preserves I c.
Proof. intros Hc w Hw. destruct (Hc w) as (? & ?). by apply (I_frame w). Qed.

Section Handlers.

Variable receive : message → M World unit.
Hypothesis receive_ok : ∀ m, serverMade m → preserves I (receive m).

Ltac made :=
  first
    [ apply serverMade_obj; reflexivity
    | apply serverMade_literal; repeat constructor; discriminate ].

Ltac keep :=
  cbv beta;
  repeat first
    [ apply receive_ok; made
    | apply preserves_quiet; solve [repeat quiet_step]
    | apply I_create
    | apply I_delete
    | apply I_update
    | apply preserves_bind; [| intros ?]
    | match goal with
      | |- preserves _ (match ?x with _ => _ end) => destruct x
      | |- preserves _ (if ?x then _ else _) => destruct x
      end ].

Ltac ends :=
  cbv beta;
  repeat first
    [ apply returns_bind; intros ?
    | apply returns_throw
    | apply returns_ret; reflexivity
    | match goal with
      | |- returns _ (match ?x with _ => _ end) => destruct x
      | |- returns _ (if ?x then _ else _) => destruct x
      end ].

Lemma held_broadcastUserList : preserves I (broadcastUserList receive).
Proof. unfold broadcastUserList. keep. Qed.

Lemma held_disconnectStage m : preserves I (disconnectStage receive m).
Proof. unfold disconnectStage, broadcastUserList. keep. Qed.

Lemma held_renameStage m : preserves I (renameStage receive m).
Proof. unfold renameStage, broadcastUserList. keep. Qed.

Lemma held_identifyStage m :
  ok (keyOf (mid m) (fget "_sender" m)) →
  preserves I (identifyStage mathRandom receive m).
Proof.
  intros Hok. unfold identifyStage, broadcastUserList.
  apply preserves_bind; [| intros ?; keep].
  unfold identifyUser, senderOf. apply preserves_bind_ret. cbv beta.
  apply preserves_bind; [| intros ?; keep].
  intros w Hw. by apply I_approve.
Qed.

Lemma held_historyStage m : preserves I (historyStage jsGe jsLe receive m).
Proof. unfold historyStage. keep. Qed.

Lemma held_directStage m : preserves I (directStage receive m).
Proof. unfold directStage. keep. Qed.

Lemma held_transmitStage m : preserves I (transmitStage m).
Proof. unfold transmitStage. keep. Qed.

Lemma held_process m :
  fget "request" m ≠ Some (JStr "identify") ∨ ok (keyOf (mid m) (fget "_sender" m)) →
  preserves I (process (stages dateNow mathRandom jsGe jsLe receive) m).
Proof.
  intros Hm. unfold stages. cbn [process pattern handler].
  destruct (matches _ m).
  { apply (preserves_bind_returns I (λ r, r.2 = true)).
    - unfold connectStage. keep.
    - unfold connectStage. ends.
    - intros r ->. apply preserves_ret. }
  destruct (matches _ m).
  { apply (preserves_bind_returns I (λ r, r.2 = true)).
    - apply held_disconnectStage.
    - unfold disconnectStage. ends.
    - intros r ->. apply preserves_ret. }
  destruct (matches _ m).
  { apply (preserves_bind_returns I (λ r, r.2 = true)).
    - apply held_renameStage.
    - unfold renameStage. ends.
    - intros r ->. apply preserves_ret. }
  assert (Hrest : ∀ m',
    preserves I (process (drop 4 (stages dateNow mathRandom jsGe jsLe receive)) m')).
  { intros m'. cbn [drop stages process pattern handler].
    destruct (matches _ m').
    { apply preserves_bind; [apply held_historyStage |].
      intros [m1 []]; [apply preserves_ret |]. cbn [fst snd].
      destruct (matches _ m1).
      { apply preserves_bind; [apply held_directStage |].
        intros [m2 []]; [apply preserves_ret |]. cbn [fst snd].
        destruct (matches _ m2).
        - apply preserves_bind; [apply held_transmitStage |].
          intros [m3 []]; [apply preserves_ret |]. apply (I_tail receive).
        - apply (I_tail receive). }
      destruct (matches _ m1).
      - apply preserves_bind; [apply held_transmitStage |].
        intros [m3 []]; [apply preserves_ret |]. apply (I_tail receive).
      - apply (I_tail receive). }
    destruct (matches _ m').
    { apply preserves_bind; [apply held_directStage |].
      intros [m2 []]; [apply preserves_ret |]. cbn [fst snd].
      destruct (matches _ m2).
      - apply preserves_bind; [apply held_transmitStage |].
        intros [m3 []]; [apply preserves_ret |]. apply (I_tail receive).
      - apply (I_tail receive). }
    destruct (matches _ m').
    - apply preserves_bind; [apply held_transmitStage |].
      intros [m3 []]; [apply preserves_ret |]. apply (I_tail receive).
    - apply (I_tail receive). }
  destruct (matches _ m) eqn:Hid; [| apply Hrest].
  apply matches_identify in Hid.
  destruct Hm as [Hno | Hk]; [done |].
  apply preserves_bind; [by apply held_identifyStage |].
  intros [m1 []]; [apply preserves_ret | apply Hrest].
Qed.

Lemma held_receiveBody m :
  admissible ok m →
  preserves I (receiveBody dateNow mathRandom jsGe jsLe receive m).
Proof.
  intros Hm w Hw. unfold receiveBody.
  apply held_process.
  - destruct Hm as [Hno | Hk].
    + left. by destruct (fget "_sender" _) as [[] |]; rewrite ?fget_fset_ne.
    + right. specialize (Hk (nextObj w)). unfold senderKey in Hk.
      set (m1 := mkMsg (nextObj w) (items m) (props m)).
      assert (E1 : fget "_sender" m1 = fget "_sender" m) by reflexivity.
      rewrite E1. destruct (fget "_sender" m) as [[] |] eqn:E;
        rewrite ?fget_fset_eq, ?E1, ?E; exact Hk.
  - revert Hw. by apply I_frame.
Qed.

End Handlers.

Lemma serverMade_admissible m : serverMade m → admissible ok m.
Proof. intros (_ & Hr & _). left. by rewrite Hr. Qed.

Lemma held_receiveN fuel : ∀ m,
  admissible ok m → preserves I (receiveN dateNow mathRandom jsGe jsLe fuel m).
Proof.
  induction fuel as [| fuel IH]; intros m Hm; simpl.
  - apply preserves_throw.
  - apply held_receiveBody; [| exact Hm].
    intros m' Hm'. by apply IH, serverMade_admissible.
Qed.

End Held.

(** The invariants that do not look at the registry or the clock. *)
Section Invariant.

Variable dateNow : nat → Z.
Variable mathRandom : nat → nat.
Variable jsGe jsLe : Z → json → bool.

(** An invariant that depends on the relay, the history, the serial counter
    and the cap only; that the approval of a connection whose id satisfies
    [ok] keeps; and that the last four stages keep. *)
Variable I : World → Prop.
Variable ok : jsval → Prop.
Hypothesis I_inert : ∀ w w',
  relay w' = relay w → history (channel w') = history (channel w) →
  lastSerial (channel w') = lastSerial (channel w) →
  maxHistory (channel w') = maxHistory (channel w) → I w → I w'.
Hypothesis I_approve : ∀ k w, ok k → I w → I (withRelay (approveListener k) w).
Hypothesis I_tail : ∀ recv m,
  preserves I (process (drop 7 (stages dateNow mathRandom jsGe jsLe recv)) m).

Lemma preserves_onUsers {A} (c : M Users A) : preserves I (onUsers c).
Proof.
  intros w. apply I_inert; unfold onUsers; by destruct (c _).
Qed.

Lemma kept_receiveN fuel m :
  admissible ok m → preserves I (receiveN dateNow mathRandom jsGe jsLe fuel m).
Proof.
  apply (held_receiveN dateNow mathRandom jsGe jsLe I ok).
  - intros w w' Hc Hr. apply I_inert; by rewrite ?Hc, ?Hr.
  - intros p. apply preserves_onUsers.
  - intros t. apply preserves_onUsers.
  - intros who what. apply preserves_onUsers.
  - exact I_approve.
  - exact I_tail.
Qed.

End Invariant.

(** ** Connection ids *)

Lemma approve_skeleton n cs :
  map (λ c, (sock c, id c)) (approve n cs) = map (λ c, (sock c, id c)) cs.
Proof.
  induction cs as [| c cs IH]; simpl; [reflexivity |].
  destruct (decide (id c = n)); simpl; [reflexivity | by rewrite IH].
Qed.

Lemma approveListener_skeleton k r : skeleton (approveListener k r) = skeleton r.
Proof. destruct k; try reflexivity. unfold skeleton. simpl. by rewrite approve_skeleton. Qed.

Lemma broadcast_skeleton m r : skeleton (broadcast m r).2 = skeleton r.
Proof. unfold broadcast. by destruct (fget "to" m). Qed.

Lemma rememberStage_relay m w : relay (rememberStage m w).2 = relay w.
Proof.
  unfold rememberStage, bind, get, modify, template. simpl.
  destruct (toStrOpt _); simpl; [| reflexivity]. by destruct (toStrOpt _).
Qed.

(** The last four stages, in one piece. *)
Lemma tail_stages dateNow mathRandom jsGe jsLe recv m w :
  process (drop 7 (stages dateNow mathRandom jsGe jsLe recv)) m w =
  let m1 := fdel "_sender" (fset "_time" (JNum (stampOf dateNow w)) m) in
  let w1 := mkWorld (withLastTimestamp (stampOf dateNow w) (channel w)) (relay w)
                    (S (ticks w)) (draws w) (nextObj w) in
  if matches [("_remember", PEq (JBool true))] m1 then
    match rememberStage m1 w1 with
    | (Ok (m2, _), w2) => (Ok tt, (broadcastStage m2 w2).2)
    | (Throw e, w2) => (Throw e, w2)
    end
  else (Ok tt, (broadcastStage m1 w1).2).
Proof.
  cbn [drop stages process pattern handler]. unfold matches at 1 2. cbn [forallb].
  unfold bind at 1, timestampStage. cbn [fst snd]. unfold bind at 1, senderErasureStage, ret at 1.
  cbn [fst snd]. cbv zeta.
  fold (stampOf dateNow w).
  destruct (matches _ _).
  - unfold bind at 1.
    destruct (rememberStage _ _) as [[[m2 b] | e] w2] eqn:Hrem; [| reflexivity].
    assert (b = false) as ->.
    { revert Hrem. unfold rememberStage, bind, get, modify, template, ret. simpl.
      destruct (toStrOpt _); [| discriminate]. destruct (toStrOpt _); [| discriminate].
      by intros [= _ <- _]. }
    cbn [fst snd]. unfold matches at 1. cbn [forallb]. unfold bind, broadcastStage.
    destruct (broadcast m2 (relay w2)). reflexivity.
  - unfold matches at 1. cbn [forallb]. unfold bind, broadcastStage.
    destruct (broadcast _ _). reflexivity.
Qed.

Lemma findConn_None s r : findConn s r = None → s ∉ map sock (r_sockets r).
Proof.
  unfold findConn. intros Hfind Hin. apply list_elem_of_fmap in Hin as [c [-> Hc]].
  apply list_elem_of_In in Hc. apply (find_none _ _ Hfind) in Hc.
  by rewrite Nat.eqb_refl in Hc.
Qed.

Lemma findConn_Some s r c : findConn s r = Some c → c ∈ r_sockets r ∧ sock c = s.
Proof.
  unfold findConn. intros Hfind. apply find_some in Hfind as [Hin Heq].
  split; [by apply list_elem_of_In | by apply Nat.eqb_eq].
Qed.

Lemma filter_skeleton s cs :
  map (λ c, (sock c, id c)) (List.filter (λ c, negb (Nat.eqb (sock c) s)) cs) =
  List.filter (λ x : nat * Z, negb (Nat.eqb x.1 s)) (map (λ c, (sock c, id c)) cs).
Proof.
  induction cs as [| c cs IH]; simpl; [reflexivity |].
  destruct (negb _); simpl; by rewrite IH.
Qed.

Section RelaySkeleton.

Variable dateNow : nat → Z.
Variable mathRandom : nat → nat.
Variable jsGe jsLe : Z → json → bool.

Lemma skeleton_tail recv m w :
  skeleton (relay (process (drop 7 (stages dateNow mathRandom jsGe jsLe recv)) m w).2)
  = skeleton (relay w).
Proof.
  rewrite tail_stages. cbv zeta. destruct (matches _ _).
  - match goal with |- context [rememberStage ?a ?b] =>
      pose proof (rememberStage_relay a b) as Hr; destruct (rememberStage a b) as [[[m2 b'] | e] w2]
    end; simpl in Hr.
    + unfold broadcastStage. destruct (broadcast m2 (relay w2)) as [m' r'] eqn:Hb. simpl.
      change r' with (m', r').2. rewrite <- Hb, broadcast_skeleton. by rewrite Hr.
    + simpl. by rewrite Hr.
  - unfold broadcastStage. simpl.
    match goal with |- context [broadcast ?a ?b] =>
      destruct (broadcast a b) as [m' r'] eqn:Hb end.
    simpl. change r' with (m', r').2. rewrite <- Hb. apply broadcast_skeleton.
Qed.

(** A property of the tracked sockets and the counter that holds on to a
    new connection and to the removal of a socket. *)
Variable R : list (nat * Z) → Z → Prop.
Hypothesis R_connect : ∀ l n s, s ∉ map fst l → R l n → R (l ++ [(s, n)])%list (n + 1).
Hypothesis R_close : ∀ l n s, R l n → R (List.filter (λ x, negb (Nat.eqb x.1 s)) l) n.

Abbreviation holds := (λ w : World, R (skeleton (relay w)).1 (skeleton (relay w)).2).

Lemma holds_receiveN fuel m : preserves holds (receiveN dateNow mathRandom jsGe jsLe fuel m).
Proof.
  apply (kept_receiveN dateNow mathRandom jsGe jsLe holds (λ _, True)).
  - intros w w' Hr _ _ _. by rewrite Hr.
  - intros k w _. cbn [relay withRelay]. by rewrite approveListener_skeleton.
  - intros recv m' w. by rewrite skeleton_tail.
  - by right.
Qed.

Lemma holds_step e w : holds w → holds (step dateNow mathRandom jsGe jsLe w e).
Proof.
  intros Hw. destruct e as [s | s data | s | text]; unfold step, receive.
  - unfold receiveConnection, bind, get, receive.
    destruct (findConn s (relay w)) as [c |] eqn:Hfind; [exact Hw |].
    unfold modify. cbn [fst snd].
    match goal with |- context [receiveN _ _ _ _ 2 ?m ?w1] =>
      pose proof (holds_receiveN 2 m w1) as Hrecv;
      destruct (receiveN dateNow mathRandom jsGe jsLe 2 m w1) as [[[] | e] w2]
    end; apply Hrecv; cbn [relay withRelay skeleton r_sockets connectionID fst snd];
      rewrite map_app; (apply R_connect; [| exact Hw]);
      rewrite map_map; by apply findConn_None.
  - unfold onMessage. destruct (findConn s (relay w)) as [c |]; [| exact Hw].
    cbn [snd]. unfold messageBody, receive. destruct data as [parsed |]; [| exact Hw].
    destruct (containsForbiddenFields _ _); [exact Hw |].
    destruct (wrapPrimitive parsed); try exact Hw; by apply holds_receiveN.
  - unfold onClose, bind, get, receive.
    destruct (findConn s (relay w)) as [c |]; [| exact Hw].
    match goal with |- context [receiveN _ _ _ _ 2 ?m ?w1] =>
      pose proof (holds_receiveN 2 m w1 Hw) as Hrecv;
      destruct (receiveN dateNow mathRandom jsGe jsLe 2 m w1) as [[[] | e] w2]
    end; [| exact Hrecv].
    unfold modify. cbn [snd relay withRelay skeleton r_sockets connectionID fst].
    rewrite filter_skeleton. by apply R_close.
  - by apply holds_receiveN.
Qed.

Lemma holds_run es : ∀ w, holds w → holds (run dateNow mathRandom jsGe jsLe es w).
Proof.
  induction es as [| e es IH]; intros w Hw; simpl; [exact Hw |].
  apply IH, holds_step, Hw.
Qed.

End RelaySkeleton.

Lemma relay_ok_run dateNow mathRandom jsGe jsLe es w :
  relay_ok (relay w) → relay_ok (relay (run dateNow mathRandom jsGe jsLe es w)).
Proof.
  pose (R1 := λ (l : list (nat * Z)) (n : Z),
          NoDup (map fst l) ∧ StronglySorted Z.lt (map snd l) ∧
          Forall (λ x : nat * Z, 0 ≤ x.2 < n) l ∧ 0 ≤ n).
  assert (R1_connect : ∀ l n s, s ∉ map fst l → R1 l n → R1 (l ++ [(s, n)])%list (n + 1)).
  { intros l n s Hs (Hnd & Hsort & Hall & Hn). split_and!; [| | | lia].
    - rewrite map_app. apply NoDup_app. split; [exact Hnd |]. split.
      + intros x Hx Hx'. apply list_elem_of_singleton in Hx'. by subst.
      + apply NoDup_singleton.
    - rewrite map_app. apply StronglySorted_app_2; [| exact Hsort | repeat constructor].
      intros x1 x2 H1 H2. apply list_elem_of_singleton in H2 as ->.
      apply list_elem_of_fmap in H1 as [x [-> Hx]].
      rewrite Forall_forall in Hall. specialize (Hall x Hx). simpl. lia.
    - apply Forall_app. split; [| constructor; [simpl; lia | constructor]].
      eapply Forall_impl; [exact Hall |]. simpl. intros; lia. }
  assert (R1_close : ∀ l n s,
            R1 l n → R1 (List.filter (λ x : nat * Z, negb (Nat.eqb x.1 s)) l) n).
  { intros l n s (Hnd & Hsort & Hall & Hn).
    assert (Hsub : List.filter (λ x : nat * Z, negb (Nat.eqb x.1 s)) l `sublist_of` l).
    { clear. induction l as [| x l IH]; simpl; [constructor |].
      destruct (negb _); by constructor. }
    split_and!; [| | | exact Hn].
    - apply (sublist_NoDup _ (map fst l)); [exact Hnd | by apply fmap_sublist].
    - apply (StronglySorted_sublist _ (map snd l)); [by apply fmap_sublist | exact Hsort].
    - rewrite Forall_forall in *. intros x Hx. apply Hall.
      by apply (elem_of_sublist _ _ _ Hx). }
  intros (Hnd & Hsort & Hall & Hn).
  destruct (holds_run dateNow mathRandom jsGe jsLe R1 R1_connect R1_close es w)
    as (Hnd' & Hsort' & Hall' & Hn').
  { unfold R1, skeleton. cbn [fst snd]. rewrite !map_map. simpl.
    split_and!; [exact Hnd | exact Hsort | | exact Hn]. by apply Forall_fmap. }
  unfold skeleton in *. cbn [fst snd] in *. rewrite !map_map in Hnd', Hsort'. simpl in *.
  split_and!; [exact Hnd' | exact Hsort' | | exact Hn']. by apply Forall_fmap in Hall'.
Qed.

Lemma relay_ok_empty : relay_ok emptyRelay.
Proof. split_and!; simpl; [constructor | constructor | constructor | lia]. Qed.

(** Whatever happens to the server (connections, frames, closes, in any
    number and order): the tracked sockets are distinct, each has a
    connection id of its own, the ids are not negative and grow in the
    order of connection; the counter of ids never goes back, and an id is
    never given a second time, also after the socket that had it has
    closed. *)
Theorem connection_ids_unique dateNow mathRandom jsGe jsLe maxH maxN es1 es2 :
  let w1 := run dateNow mathRandom jsGe jsLe es1 (newWorld maxH maxN) in
  let w2 := run dateNow mathRandom jsGe jsLe es2 w1 in
  relay_ok (relay w2) ∧ ids_not_reused (relay w1) (relay w2).
Proof.
  intros w1 w2.
  assert (H1 : relay_ok (relay w1)) by apply relay_ok_run, relay_ok_empty.
  split; [by apply relay_ok_run |].
  pose (R2 := λ (l : list (nat * Z)) (n : Z),
          connectionID (relay w1) ≤ n ∧
          ∀ x, x ∈ l → x.2 < connectionID (relay w1) →
               ∃ c0, c0 ∈ r_sockets (relay w1) ∧ id c0 = x.2 ∧ sock c0 = x.1).
  destruct (holds_run dateNow mathRandom jsGe jsLe R2) with (es := es2) (w := w1)
    as [Hle Hold].
  - intros l n s _ [Hn Hl]. split; [lia |]. intros x Hx Hlt.
    apply elem_of_app in Hx as [Hx | Hx]; [by apply Hl |].
    apply list_elem_of_singleton in Hx as ->. simpl in Hlt. lia.
  - intros l n s [Hn Hl]. split; [exact Hn |]. intros x Hx.
    apply list_elem_of_In, filter_In in Hx as [Hx _]. apply Hl. by apply list_elem_of_In.
  - split; [simpl; lia |]. intros x Hx _. simpl in Hx.
    apply list_elem_of_fmap in Hx as [c [-> Hc]]. by exists c.
  - split; [exact Hle |]. intros c Hc Hlt.
    apply (Hold (sock c, id c)); [| exact Hlt].
    simpl. apply list_elem_of_fmap. by exists c.
Qed.

(** ** A socket that has not identified *)

Lemma sorted_ids_inj cs c1 c2 :
  StronglySorted Z.lt (map id cs) → c1 ∈ cs → c2 ∈ cs → id c1 = id c2 → c1 = c2.
Proof.
  induction cs as [| c cs IH]; intros Hs H1 H2 Heq; [by inversion H1 |].
  simpl in Hs. apply StronglySorted_inv in Hs as [Hs Hall].
  rewrite Forall_forall in Hall.
  apply elem_of_cons in H1 as [-> | H1]; apply elem_of_cons in H2 as [-> | H2];
    try reflexivity.
  - assert (Hin : id c2 ∈ map id cs) by (by apply list_elem_of_fmap_2).
    specialize (Hall _ Hin). lia.
  - assert (Hin : id c1 ∈ map id cs) by (by apply list_elem_of_fmap_2).
    specialize (Hall _ Hin). lia.
  - by apply IH.
Qed.

Lemma approve_mute n cs s :
  (∀ c, c ∈ cs → sock c = s → id c ≠ n) →
  (∀ c, c ∈ cs → sock c = s → canListen c = false) →
  ∀ c, c ∈ approve n cs → sock c = s → canListen c = false.
Proof.
  induction cs as [| c0 cs IH]; intros Hid Hm c Hc Hs; [by inversion Hc |].
  simpl in Hc. destruct (decide (id c0 = n)) as [Heq | Hne].
  - apply elem_of_cons in Hc as [-> | Hc].
    + simpl in Hs. exfalso. by apply (Hid c0); [left | |].
    + apply Hm; [by right | exact Hs].
  - apply elem_of_cons in Hc as [-> | Hc].
    + apply Hm; [by left | exact Hs].
    + apply IH; try done.
      * intros c1 H1. apply Hid. by right.
      * intros c1 H1. apply Hm. by right.
Qed.

Lemma broadcast_mute s m r : mute s r → mute s (broadcast m r).2.
Proof.
  intros [Hc Hr]. split; [by rewrite broadcast_sockets |].
  destruct (broadcast_sent m r) as (cs & Hsent & Hcs).
  unfold received in *. rewrite Hsent, List.filter_app, map_app, Hr. simpl.
  clear Hsent. induction cs as [| c' cs IH]; [reflexivity |]. simpl.
  destruct (Nat.eqb_spec (sock c') s) as [Heq | _].
  - exfalso. destruct (Hcs c') as [Hin Hyes]; [left |].
    specialize (Hc c' Hin Heq). congruence.
  - apply IH. intros c0 Hc0. apply Hcs. by right.
Qed.

Section Silent.

Variable dateNow : nat → Z.
Variable mathRandom : nat → nat.
Variable jsGe jsLe : Z → json → bool.
Variable s : nat.

Lemma mute_tail recv m w :
  mute s (relay w) →
  mute s (relay (process (drop 7 (stages dateNow mathRandom jsGe jsLe recv)) m w).2).
Proof.
  intros Hw. rewrite tail_stages. cbv zeta. destruct (matches _ _).
  - match goal with |- context [rememberStage ?a ?b] =>
      pose proof (rememberStage_relay a b) as Hr; destruct (rememberStage a b) as [[[m2 b'] | e] w2]
    end; simpl in Hr.
    + unfold broadcastStage. destruct (broadcast m2 (relay w2)) as [m' r'] eqn:Hb. simpl.
      change r' with (m', r').2. rewrite <- Hb, Hr. by apply broadcast_mute.
    + simpl. by rewrite Hr.
  - unfold broadcastStage. simpl.
    match goal with |- context [broadcast ?a ?b] =>
      destruct (broadcast a b) as [m' r'] eqn:Hb end.
    simpl. change r' with (m', r').2. rewrite <- Hb. by apply broadcast_mute.
Qed.

(** While one message is processed: the tracked sockets and their ids stay
    as they are, and [s] stays mute unless the message is an identify
    request of [s]. *)
Lemma mute_receiveN k fuel m :
  admissible (λ key, ∀ n, key = VNum n → (s, n) ∉ k.1) m →
  preserves (λ w, skeleton (relay w) = k ∧ mute s (relay w))
            (receiveN dateNow mathRandom jsGe jsLe fuel m).
Proof.
  apply (kept_receiveN dateNow mathRandom jsGe jsLe).
  - intros w w' Hr _ _ _. by rewrite Hr.
  - intros key w Hkey [Hk [Hm Hr]]. cbn [relay withRelay].
    rewrite approveListener_skeleton. split; [exact Hk |].
    destruct key as [| | | n | |]; try (by split). split; [| exact Hr].
    simpl. apply approve_mute; [| exact Hm].
    intros c Hc Hs Hid. apply (Hkey n eq_refl). rewrite <- Hk. simpl.
    apply list_elem_of_fmap. exists c. split; [by rewrite Hs, Hid | exact Hc].
  - intros recv m' w [Hk Hm]. split; [by rewrite skeleton_tail | by apply mute_tail].
Qed.

Lemma not_identify_request parsed fields :
  identifies (Some parsed) = false → wrapPrimitive parsed = JObj fields →
  getField "request" fields ≠ Some (JStr "identify").
Proof.
  destruct parsed as [| [] | n | x | l | fs]; simpl; try discriminate;
    try (intros _ [= <-]; discriminate).
  intros Hid [= <-]. destruct (getField "request" fs) as [[| | | x | |] |]; try discriminate.
  apply bool_decide_eq_false in Hid. congruence.
Qed.

Lemma mute_step e w :
  (∀ d, e = Frame s d → identifies d = false) →
  relay_ok (relay w) → mute s (relay w) →
  mute s (relay (step dateNow mathRandom jsGe jsLe w e)).
Proof.
  intros He (Hnd & Hsort & _) Hm.
  assert (Hrecv : ∀ m w1, mute s (relay w1) →
            fget "request" m ≠ Some (JStr "identify") →
            mute s (relay (receiveN dateNow mathRandom jsGe jsLe 2 m w1).2)).
  { intros m w1 Hw1 Hreq.
    apply (mute_receiveN (skeleton (relay w1)) 2 m); [by left | by split]. }
  destruct e as [s0 | s0 data | s0 | text]; unfold step, receive.
  - unfold receiveConnection, bind, get, receive.
    destruct (findConn s0 (relay w)) as [c |] eqn:Hfind; [exact Hm |].
    unfold modify. cbn [fst snd].
    match goal with |- context [receiveN _ _ _ _ 2 ?m ?w1] =>
      pose proof (Hrecv m w1) as H1;
      destruct (receiveN dateNow mathRandom jsGe jsLe 2 m w1) as [[[] | e] w2]
    end; apply H1; try discriminate.
    all: destruct Hm as [Hc Hr]; split; [| exact Hr];
      cbn [relay withRelay r_sockets]; intros c Hin Hs;
      apply elem_of_app in Hin as [Hin | Hin]; [by apply Hc |];
      apply list_elem_of_singleton in Hin as ->; reflexivity.
  - unfold onMessage. destruct (findConn s0 (relay w)) as [c |] eqn:Hfind; [| exact Hm].
    cbn [snd]. unfold messageBody, receive. destruct data as [parsed |]; [| exact Hm].
    destruct (containsForbiddenFields _ _); [exact Hm |].
    destruct (wrapPrimitive parsed) as [| | | | l | fields] eqn:Hwrap; try exact Hm.
    + apply Hrecv; [exact Hm | discriminate].
    + destruct (decide (s0 = s)) as [-> | Hne].
      * apply Hrecv; [exact Hm |]. rewrite !fget_fset_ne by done.
        by apply (not_identify_request parsed); [apply He |].
      * apply (mute_receiveN (skeleton (relay w)) 2); [| by split].
        right. intros i n. unfold senderKey.
        rewrite fget_fset_ne, fget_fset_eq by done. simpl. intros [= <-] Hin.
        apply list_elem_of_fmap in Hin as [c2 [[= Hs Hid] Hc2]].
        apply findConn_Some in Hfind as [Hc Hsock].
        assert (c2 = c) by (by apply (sorted_ids_inj (r_sockets (relay w)))).
        congruence.
  - unfold onClose, bind, get, receive.
    destruct (findConn s0 (relay w)) as [c |]; [| exact Hm].
    match goal with |- context [receiveN _ _ _ _ 2 ?m ?w1] =>
      pose proof (Hrecv m w1 Hm ltac:(discriminate)) as H1;
      destruct (receiveN dateNow mathRandom jsGe jsLe 2 m w1) as [[[] | e] w2]
    end; [| exact H1].
    unfold modify. cbn [snd relay withRelay]. destruct H1 as [Hc Hr]. split; [| exact Hr].
    cbn [r_sockets]. intros c0 Hin. apply Hc.
    apply list_elem_of_In, filter_In in Hin as [Hin _]. by apply list_elem_of_In.
  - apply Hrecv; [exact Hm | discriminate].
Qed.

Lemma mute_run es : ∀ w,
  (∀ d, Frame s d ∈ es → identifies d = false) →
  relay_ok (relay w) → mute s (relay w) →
  mute s (relay (run dateNow mathRandom jsGe jsLe es w)).
Proof.
  induction es as [| e es IH]; intros w Hes Hok Hm; [exact Hm |].
  simpl. apply IH.
  - intros d Hd. apply Hes. by right.
  - apply (relay_ok_run dateNow mathRandom jsGe jsLe [e] w Hok).
  - apply mute_step; [| exact Hok | exact Hm].
    intros d ->. apply Hes. by left.
Qed.

End Silent.

(** A socket that never sends an identify request is never approved as a
    listener and is never sent anything, whatever else happens to the
    server and whatever else the socket sends: the announcements, the user
    lists and the messages of the others do not reach it, and its own
    requests get no reply. *)
Theorem silent_without_identify dateNow mathRandom jsGe jsLe maxH maxN es s :
  (∀ d, Frame s d ∈ es → identifies d = false) →
  let w := run dateNow mathRandom jsGe jsLe es (newWorld maxH maxN) in
  received s (relay w) = [] ∧
  ∀ c, c ∈ r_sockets (relay w) → sock c = s → canListen c = false.
Proof.
  intros Hes w.
  destruct (mute_run dateNow mathRandom jsGe jsLe s es (newWorld maxH maxN) Hes)
    as [Hc Hr]; [apply relay_ok_empty | | by split].
  split; [| reflexivity]. intros c Hin. by inversion Hin.
Qed.

(** An instance of [silent_without_identify]: socket 8 connects and sends a
    chat message and a rename request without having identified, while
    Alice identifies and writes on socket 7. *)
Lemma silent_without_identify_witness :
  let es := [Connection 7; Frame 7 (Some (identifyFrame "Alice" "s1")); Connection 8;
             Frame 8 (Some (JObj [("text", JStr "hello")]));
             Frame 7 (Some (JObj [("text", JStr "hi")]));
             Frame 8 (Some (renameFrame "Bob"))] in
  let w := run clock0 dice0 numGe numLe es (newWorld 50 30) in
  received 8 (relay w) = [] ∧
  ∀ c, c ∈ r_sockets (relay w) → sock c = 8%nat → canListen c = false.
Proof.
  intros es. apply (silent_without_identify clock0 dice0 numGe numLe 50 30 es 8).
  intros d Hd. subst es.
  repeat (apply elem_of_cons in Hd as [Hd | Hd];
          [try discriminate; injection Hd as ->; reflexivity |]).
  by inversion Hd.
Defined.

(** ** Invariants of the history and of what has been sent, over every run *)

Section Everywhere.

Variable dateNow : nat → Z.
Variable mathRandom : nat → nat.
Variable jsGe jsLe : Z → json → bool.

(** An invariant that depends on the history, the serial counter, the cap
    and what has been sent only, and that the last four stages keep. *)
Variable I : World → Prop.
Hypothesis I_same : ∀ w w',
  sent (relay w') = sent (relay w) → history (channel w') = history (channel w) →
  lastSerial (channel w') = lastSerial (channel w) →
  maxHistory (channel w') = maxHistory (channel w) → I w → I w'.
Hypothesis I_tail : ∀ recv m,
  preserves I (process (drop 7 (stages dateNow mathRandom jsGe jsLe recv)) m).

Lemma everywhere_receiveN fuel m :
  preserves I (receiveN dateNow mathRandom jsGe jsLe fuel m).
Proof.
  apply (kept_receiveN dateNow mathRandom jsGe jsLe I (λ _, True)).
  - intros w w' Hr. apply I_same. by rewrite Hr.
  - intros k w _. apply I_same; try reflexivity. apply sent_approveListener.
  - exact I_tail.
  - by right.
Qed.

Lemma everywhere_step e w : I w → I (step dateNow mathRandom jsGe jsLe w e).
Proof.
  intros Hw. destruct e as [s | s data | s | text]; unfold step, receive.
  - unfold receiveConnection, bind, get, receive.
    destruct (findConn s (relay w)) as [c |]; [exact Hw |].
    unfold modify. cbn [fst snd].
    match goal with |- context [receiveN _ _ _ _ 2 ?m ?w1] =>
      pose proof (everywhere_receiveN 2 m w1) as Hrecv;
      destruct (receiveN dateNow mathRandom jsGe jsLe 2 m w1) as [[[] | e] w2]
    end; apply Hrecv; revert Hw; by apply I_same.
  - unfold onMessage. destruct (findConn s (relay w)) as [c |]; [| exact Hw].
    cbn [snd]. unfold messageBody, receive. destruct data as [parsed |]; [| exact Hw].
    destruct (containsForbiddenFields _ _); [exact Hw |].
    destruct (wrapPrimitive parsed); try exact Hw; by apply everywhere_receiveN.
  - unfold onClose, bind, get, receive.
    destruct (findConn s (relay w)) as [c |]; [| exact Hw].
    match goal with |- context [receiveN _ _ _ _ 2 ?m ?w1] =>
      pose proof (everywhere_receiveN 2 m w1 Hw) as Hrecv;
      destruct (receiveN dateNow mathRandom jsGe jsLe 2 m w1) as [[[] | e] w2]
    end; [| exact Hrecv].
    unfold modify. cbn [snd]. revert Hrecv. by apply I_same.
  - by apply everywhere_receiveN.
Qed.

Lemma everywhere_run es : ∀ w, I w → I (run dateNow mathRandom jsGe jsLe es w).
Proof.
  induction es as [| e es IH]; intros w Hw; simpl; [exact Hw |].
  apply IH, everywhere_step, Hw.
Qed.

End Everywhere.

(** ** The serials of the history have no gap *)

Lemma length_countFrom n : ∀ a, length (countFrom a n) = n.
Proof. induction n as [| n IH]; intros a; simpl; [reflexivity | by rewrite IH]. Qed.

Lemma countFrom_snoc n : ∀ a,
  countFrom a (S n) = (countFrom a n ++ [a + Z.of_nat n])%list.
Proof.
  induction n as [| n IH]; intros a.
  - simpl. by rewrite Z.add_0_r.
  - change (countFrom a (S (S n))) with (a :: countFrom (a + 1) (S n)).
    rewrite IH. simpl. do 3 f_equal. lia.
Qed.

Lemma drop_countFrom j : ∀ a n,
  drop j (countFrom a n) = countFrom (a + Z.of_nat j) (n - j).
Proof.
  induction j as [| j IH]; intros a n.
  - rewrite Nat.sub_0_r, Z.add_0_r. reflexivity.
  - destruct n as [| n]; [reflexivity |]. simpl. rewrite IH. f_equal. lia.
Qed.

Lemma stocked_push h n m :
  stocked h n → stocked (h ++ [fset "_serial" (JNum (n + 1)) m]) (n + 1).
Proof.
  intros [Hlen Hall]. unfold stocked. rewrite length_app. simpl. split; [lia |].
  rewrite Nat.add_1_r, countFrom_snoc. apply Forall2_app.
  - replace (n + 1 - Z.of_nat (S (length h)) + 1) with (n - Z.of_nat (length h) + 1) by lia.
    exact Hall.
  - constructor; [| constructor]. rewrite fget_fset_eq. do 2 f_equal. lia.
Qed.

Lemma stocked_drop j h n : stocked h n → stocked (drop j h) n.
Proof.
  intros [Hlen Hall]. unfold stocked. rewrite length_drop. split; [lia |].
  apply (Forall2_drop _ _ _ j) in Hall. rewrite drop_countFrom in Hall.
  destruct (decide (j ≤ length h)%nat) as [Hle | Hgt].
  - replace (n - Z.of_nat (length h - j) + 1)
      with (n - Z.of_nat (length h) + 1 + Z.of_nat j) by lia.
    exact Hall.
  - replace (length h - j)%nat with 0%nat in * by lia. rewrite drop_ge by lia. constructor.
Qed.

Lemma stocked_trim cap h n : stocked h n → stocked (trim cap h) n.
Proof.
  intros Hs. unfold trim, sliceLast. destruct (_ <? _)%nat; [| exact Hs].
  destruct (kept cap); [exact Hs |]. by apply stocked_drop.
Qed.

Lemma stocked_assignTo m' h n : stocked h n → stocked (assignTo m' h) n.
Proof.
  intros [Hlen Hall]. unfold assignTo. destruct (fget "to" m') as [to |]; [| by split].
  unfold stocked. rewrite length_map. split; [exact Hlen |].
  apply Forall2_fmap_l. eapply Forall2_impl; [exact Hall |]. simpl.
  intros r k Hr. destruct (decide _); [| exact Hr]. by rewrite fget_fset_ne.
Qed.

Lemma stocked_tail dateNow mathRandom jsGe jsLe recv m :
  preserves (carried stocked)
    (process (drop 7 (stages dateNow mathRandom jsGe jsLe recv)) m).
Proof.
  intros w Hw. rewrite tail_stages. cbv zeta. unfold carried in *.
  destruct (matches _ _).
  - unfold rememberStage, bind, get, modify, template, ret. simpl.
    destruct (toStrOpt _); simpl; [| by apply stocked_push].
    destruct (toStrOpt _); simpl; [| by apply stocked_push].
    unfold broadcastStage. simpl.
    match goal with |- context [broadcast ?a ?b] => destruct (broadcast a b) as [m' r'] end.
    simpl. by apply stocked_assignTo, stocked_trim, stocked_push.
  - unfold broadcastStage. simpl.
    match goal with |- context [broadcast ?a ?b] => destruct (broadcast a b) as [m' r'] end.
    simpl. by apply stocked_assignTo.
Qed.

Lemma Forall2_serials h l :
  Forall2 (λ r k, fget "_serial" r = Some (JNum k)) h l → serials h = l.
Proof.
  induction 1 as [| r k h l Hr _ IH]; [reflexivity |].
  simpl. f_equal; [| exact IH]. unfold serialOf. by rewrite Hr.
Qed.

Lemma lookup_countFrom i : ∀ n a k,
  countFrom a n !! i = Some k → k = a + Z.of_nat i.
Proof.
  induction i as [| i IH]; intros [| n] a k; simpl; try discriminate.
  - intros [= <-]. lia.
  - intros Hk. rewrite (IH _ _ _ Hk). lia.
Qed.

Lemma stocked_run dateNow mathRandom jsGe jsLe es w :
  carried stocked w → carried stocked (run dateNow mathRandom jsGe jsLe es w).
Proof.
  apply (everywhere_run dateNow mathRandom jsGe jsLe (carried stocked)).
  - intros w1 w2 _ Hh Hn _. unfold carried. by rewrite Hh, Hn.
  - intros recv m. apply stocked_tail.
Qed.

(** Whatever happens to the server, the history holds the most recent
    records without a gap: its records carry, in order, the consecutive
    serials that end with the serial counter, and there are never more
    records than serials given. *)
Theorem history_serials_contiguous dateNow mathRandom jsGe jsLe maxH maxN es :
  let w := run dateNow mathRandom jsGe jsLe es (newWorld maxH maxN) in
  let h := history (channel w) in
  let n := lastSerial (channel w) in
  Z.of_nat (length h) ≤ n ∧
  serials h = countFrom (n - Z.of_nat (length h) + 1) (length h) ∧
  Forall (λ r, ∃ k, fget "_serial" r = Some (JNum k) ∧ n - Z.of_nat (length h) < k ≤ n) h.
Proof.
  intros w h n.
  destruct (stocked_run dateNow mathRandom jsGe jsLe es (newWorld maxH maxN)) as [Hlen Hall].
  { split; [simpl; lia | constructor]. }
  fold w h n in Hlen, Hall. split; [exact Hlen |].
  split; [by apply Forall2_serials |].
  apply Forall_forall. intros r Hr.
  apply list_elem_of_lookup in Hr as [i Hi].
  destruct (Forall2_lookup_l _ _ _ _ _ Hall Hi) as (k & Hk & Hfield).
  exists k. split; [exact Hfield |].
  assert (Hi' : (i < length h)%nat) by (by eapply lookup_lt_Some).
  apply lookup_countFrom in Hk. lia.
Qed.

(** ** The properties of a message through the stages *)

Lemma getField_delField_ne key key' fields :
  key ≠ key' → getField key' (delField key fields) = getField key' fields.
Proof.
  intros Hne. induction fields as [| [k v] fields IH]; simpl; [reflexivity |].
  destruct (decide (k = key)) as [-> |]; simpl.
  - by rewrite decide_False.
  - destruct (decide (k = key')); [reflexivity | exact IH].
Qed.

Lemma fget_fdel_ne key key' m : key ≠ key' → fget key' (fdel key m) = fget key' m.
Proof. intros Hne. unfold fget, fdel. simpl. by apply getField_delField_ne. Qed.








Section ChatMessage.

Variable dateNow : nat → Z.
Variable mathRandom : nat → nat.
Variable jsGe jsLe : Z → json → bool.

(** A frame without [request] and without [recipient] goes to the
    transmit stage and from there to the last four stages. *)
Lemma process_plain recv id fields w w0 :
  getField "request" fields = None →
  getField "recipient" fields = None →
  process (stages dateNow mathRandom jsGe jsLe recv) (frameMessage id fields w) w0 =
  bind (transmitStage (frameMessage id fields w))
       (λ r, if r.2 then ret tt
             else process (drop 7 (stages dateNow mathRandom jsGe jsLe recv)) r.1) w0.
Proof.
  intros Hreq Hrec. unfold stages.
  rewrite process_skip by (cbn [pattern]; rewrite matches_one, frameMessage_fields; reflexivity).
  rewrite process_skip by (cbn [pattern]; rewrite matches_one, frameMessage_fields; reflexivity).
  do 3 (rewrite process_skip
    by (cbn [pattern]; rewrite matches_one, frameMessage_fields; simpl; by rewrite Hreq)).
  rewrite process_skip
    by (cbn [pattern]; unfold matches; simpl; rewrite frameMessage_fields; simpl;
        by rewrite Hrec).
  rewrite process_run; [reflexivity |].
  cbn [pattern]. rewrite matches_one, frameMessage_fields. reflexivity.
Qed.

(** The message of a plain frame of a registered user when it reaches the
    record stage. *)
Lemma plain_frame s c fields w u :
  findConn s (relay w) = Some c →
  containsForbiddenFields (JObj fields) 0 = false →
  getField "request" fields = None →
  getField "recipient" fields = None →
  getUser (bySocket (VNum (id c))) (users (channel w)) = Some u →
  let m1 := fdel "_sender" (fset "_time" (JNum (stampOf dateNow w))
              (fset "_remember" (JBool true)
                 (fset "name" (JStr (name u)) (frameMessage (id c) fields w)))) in
  let w1 := mkWorld (withLastTimestamp (stampOf dateNow w) (channel w)) (relay w)
                    (S (ticks w)) (draws w) (S (nextObj w)) in
  (onMessage dateNow mathRandom jsGe jsLe s (Some (JObj fields)) w).2 =
    match rememberStage m1 w1 with
    | (Ok (m2, _), w2) => (broadcastStage m2 w2).2
    | (Throw e, w2) => w2
    end.
Proof.
  intros Hfind Hclean Hreq Hrec Hu m1 w1.
  unfold onMessage. rewrite Hfind. unfold messageBody. cbn [wrapPrimitive snd].
  rewrite Hclean. unfold receive.
  rewrite receive_frame, (process_plain _ _ _ _ _ Hreq Hrec).
  unfold bind at 1, transmitStage, bind at 1 2 3, senderOf, lookupUser, ret at 1.
  cbv beta iota. rewrite frameMessage_fields. cbn [decide]. simpl keyOf.
  change (users (channel (started w))) with (users (channel w)). rewrite Hu.
  unfold nameOf, ret at 1 2. cbv beta iota. cbn [snd fst].
  rewrite tail_stages. cbv zeta.
  change (stampOf dateNow (started w)) with (stampOf dateNow w).
  fold m1. change (mkWorld _ _ _ _ _) with w1 at 1.
  match goal with |- context [matches ?p m1] =>
    assert (Hm : matches p m1 = true) end.
  { rewrite matches_one. subst m1.
    rewrite fget_fdel_ne, fget_fset_ne, fget_fset_eq by done. reflexivity. }
  rewrite Hm.
  destruct (rememberStage m1 w1) as [[[m2 b] | e] w2]; reflexivity.
Qed.

End ChatMessage.



(** A frame of a registered user whose text is an object that cannot be
    converted to a string (an object with a property [toString] of its
    own, as in [{"text": {"toString": 1}}]).  The record stage has pushed
    the record and advanced the serial counter when the conversion for its
    log line throws; the trim and the broadcast do not run.  So the message
    is in the history, under a serial of its own, though it was sent to
    nobody, and the history is not trimmed even when it is now longer than
    the cap. *)
Theorem unprintable_text_recorded_not_sent dateNow mathRandom jsGe jsLe s c fields w u :
  findConn s (relay w) = Some c →
  containsForbiddenFields (JObj fields) 0 = false →
  getField "request" fields = None →
  getField "recipient" fields = None →
  getUser (bySocket (VNum (id c))) (users (channel w)) = Some u →
  toStrOpt (getField "text" fields) = None →
  let w' := (onMessage dateNow mathRandom jsGe jsLe s (Some (JObj fields)) w).2 in
  ∃ record,
    history (channel w') = (history (channel w) ++ [record])%list ∧
    lastSerial (channel w') = lastSerial (channel w) + 1 ∧
    fget "_serial" record = Some (JNum (lastSerial (channel w) + 1)) ∧
    fget "text" record = getField "text" fields ∧
    relay w' = relay w.
Proof.
  intros Hfind Hclean Hreq Hrec Hu Htext w'.
  subst w'. rewrite (plain_frame _ _ _ _ _ _ _ _ u Hfind Hclean Hreq Hrec Hu). cbv zeta.
  set (m0 := frameMessage (id c) fields w).
  set (m1 := fdel "_sender" _).
  set (w1 := mkWorld _ _ _ _ _).
  set (record := fset "_serial" (JNum (lastSerial (channel w) + 1)) (fdel "_remember" m1)).
  assert (Hname : fget "name" record = Some (JStr (name u))).
  { subst record m1. rewrite fget_fset_ne, !fget_fdel_ne, !fget_fset_ne by done.
    apply fget_fset_eq. }
  assert (Htxt : fget "text" record = getField "text" fields).
  { subst record m1 m0.
    rewrite fget_fset_ne, !fget_fdel_ne, !fget_fset_ne, frameMessage_fields by done.
    reflexivity. }
  assert (Hrem : rememberStage m1 w1 =
    (Throw TypeError,
     mkWorld (mkChannel (users (channel w)) (lastSerial (channel w) + 1)
                (stampOf dateNow w) (maxHistory (channel w)) (maxNameLength (channel w))
                (history (channel w) ++ [record]))
             (relay w) (S (ticks w)) (draws w) (S (nextObj w)))).
  { unfold rememberStage, bind, get, modify, template. cbn [fst snd].
    change (lastSerial (channel w1)) with (lastSerial (channel w)). fold record.
    rewrite Hname, Htxt. cbn [toStrOpt toStr]. rewrite Htext. reflexivity. }
  rewrite Hrem. exists record. cbn [channel relay history lastSerial].
  split_and!; try reflexivity; try assumption. apply fget_fset_eq.
Qed.

(** An instance of [unprintable_text_recorded_not_sent]: Alice sends
    [{"text": {"toString": 1}}]. *)
Lemma unprintable_text_recorded_not_sent_witness :
  let w := aliceAndBob in
  let fields := [("text", JObj [("toString", JNum 1)])] in
  let w' := (onMessage clock0 dice0 numGe numLe 7 (Some (JObj fields)) w).2 in
  length (history (channel w')) = S (length (history (channel w))) ∧
  lastSerial (channel w') = lastSerial (channel w) + 1 ∧
  relay w' = relay w.
Proof.
  intros w fields w'.
  destruct (unprintable_text_recorded_not_sent clock0 dice0 numGe numLe 7 (mkConn 7 0 true)
              fields w (mkUser 0 (VNum 0) (VStr "s1") "Alice")
              eq_refl eq_refl eq_refl eq_refl eq_refl eq_refl)
    as (record & Hh & Hn & _ & _ & Hr).
  fold w' in Hh, Hn, Hr. rewrite Hh, length_app.
  split; [apply Nat.add_1_r |]. split; [exact Hn | exact Hr].
Defined.

(** ** Frames of a connection without a registered user *)

Lemma renameStage_unregistered recv m w n :
  fget "_sender" m = Some (JNum n) →
  getUser (bySocket (VNum n)) (users (channel w)) = None →
  ∃ e, renameStage recv m w = (Throw e, w).
Proof.
  intros Hsender Hnone. unfold renameStage, bind at 1, get. cbv beta iota.
  unfold bind at 1.
  pose proof (truncated_state (maxNameLength (channel w)) (fget "text" m) w) as Ht.
  destruct (truncated _ _ w) as [[text | e] w1]; simpl in Ht; subst w1; [| by eexists].
  unfold bind at 1.
  pose proof (template_state (Some text) w) as Ht.
  destruct (template _ w) as [[x | e] w1]; simpl in Ht; subst w1; [| by eexists].
  unfold bind at 1, senderOf, ret at 1. cbv beta iota.
  rewrite fget_fset_ne, Hsender by done. cbn [keyOf].
  unfold bind at 1, lookupUser. cbv beta iota. rewrite Hnone.
  unfold bind at 1.
  pose proof (asName_state text w) as Ht.
  destruct (asName text w) as [[newName | e] w1]; simpl in Ht; subst w1; [| by eexists].
  unfold bind at 1. cbv beta iota.
  destruct (getUser (byName newName) (users (channel w))); by eexists.
Qed.

(** A connection that has no registered user (it has not identified, or
    its identification failed) sends a chat message or a rename request:
    the stage that looks up the user of the sender throws, the relay
    catches the error, and nothing has changed and nothing has been sent,
    to the sender or to anyone. *)
Theorem unregistered_sender_ignored dateNow mathRandom jsGe jsLe s c fields w :
  findConn s (relay w) = Some c →
  containsForbiddenFields (JObj fields) 0 = false →
  getUser (bySocket (VNum (id c))) (users (channel w)) = None →
  (getField "request" fields = None ∧ getField "recipient" fields = None) ∨
  getField "request" fields = Some (JStr "rename") →
  let w' := (onMessage dateNow mathRandom jsGe jsLe s (Some (JObj fields)) w).2 in
  channel w' = channel w ∧ relay w' = relay w.
Proof.
  intros Hfind Hclean Hnone Hkind w'. subst w'.
  unfold onMessage. rewrite Hfind. unfold messageBody. cbn [wrapPrimitive snd].
  rewrite Hclean. unfold receive. rewrite receive_frame.
  destruct Hkind as [[Hreq Hrec] | Hreq].
  - rewrite (process_plain _ _ _ _ _ _ _ _ _ Hreq Hrec).
    assert (Hres : transmitStage (frameMessage (id c) fields w) (started w)
                   = (Throw TypeError, started w)).
    { assert (Hs : fget "_sender" (frameMessage (id c) fields w) = Some (JNum (id c)))
        by (rewrite frameMessage_fields; reflexivity).
      unfold transmitStage, bind, senderOf, lookupUser, ret. rewrite Hs. cbn [keyOf].
      change (users (channel (started w))) with (users (channel w)). by rewrite Hnone. }
    unfold bind. rewrite Hres. by split.
  - rewrite (process_rename _ _ _ _ _ _ _ _ _ Hreq).
    destruct (renameStage_unregistered
                (receiveN dateNow mathRandom jsGe jsLe 1)
                (frameMessage (id c) fields w) (started w) (id c)) as [e Hres].
    + by rewrite frameMessage_fields.
    + exact Hnone.
    + unfold bind. rewrite Hres. by split.
Qed.

(** An instance of [unregistered_sender_ignored]: socket 8, which has
    connected and not identified, sends a chat message. *)
Lemma unregistered_sender_ignored_witness :
  let w := aliceAndGuest in
  let w' := (onMessage clock0 dice0 numGe numLe 8 (Some (JObj [("text", JStr "hello")])) w).2 in
  channel w' = channel w ∧ relay w' = relay w.
Proof.
  intros w.
  apply (unregistered_sender_ignored clock0 dice0 numGe numLe 8 (mkConn 8 1 false));
    [reflexivity | reflexivity | reflexivity | left; by split].
Defined.

(** An identify request without a [name] property.  The identify stage
    approves the connection as a listener first and reads the name
    afterwards; reading the length of the missing name throws.  So the
    connection receives every later broadcast, while no user is
    registered for it: it is in no user list, and its own messages are
    ignored. *)
Theorem identify_without_name_listens dateNow mathRandom jsGe jsLe s c fields w :
  findConn s (relay w) = Some c →
  containsForbiddenFields (JObj fields) 0 = false →
  getField "request" fields = Some (JStr "identify") →
  getField "name" fields = None →
  let w' := (onMessage dateNow mathRandom jsGe jsLe s (Some (JObj fields)) w).2 in
  channel w' = channel w ∧
  sent (relay w') = sent (relay w) ∧
  r_sockets (relay w') = approve (id c) (r_sockets (relay w)).
Proof.
  intros Hfind Hclean Hreq Hname w'.
  assert (Hres : identifyUser mathRandom (frameMessage (id c) fields w) (started w)
                 = (Throw TypeError,
                    withRelay (approveListener (VNum (id c))) (started w))).
  { assert (Hn : fget "name" (frameMessage (id c) fields w) = None)
      by (rewrite frameMessage_fields; exact Hname).
    assert (Hs : fget "_sender" (frameMessage (id c) fields w) = Some (JNum (id c)))
      by (rewrite frameMessage_fields; reflexivity).
    unfold identifyUser, bind, senderOf, modify, get, ret. rewrite Hs, Hn.
    reflexivity. }
  assert (Hw' : w' = withRelay (approveListener (VNum (id c))) (started w)).
  { subst w'. unfold onMessage. rewrite Hfind. unfold messageBody. cbn [wrapPrimitive snd].
    rewrite Hclean. unfold receive.
    rewrite receive_frame, (process_identify _ _ _ _ _ _ _ _ _ Hreq).
    unfold bind at 1, identifyStage, bind at 1. by rewrite Hres. }
  rewrite Hw'. by split_and!.
Qed.

(** An instance of [identify_without_name_listens]: socket 8 sends
    [{"request": "identify"}]. *)
Lemma identify_without_name_listens_witness :
  let w := aliceAndGuest in
  let w' := (onMessage clock0 dice0 numGe numLe 8
               (Some (JObj [("request", JStr "identify")])) w).2 in
  channel w' = channel w ∧
  sent (relay w') = sent (relay w) ∧
  r_sockets (relay w') = [mkConn 7 0 true; mkConn 8 1 true].
Proof.
  intros w.
  apply (identify_without_name_listens clock0 dice0 numGe numLe 8 (mkConn 8 1 false));
    reflexivity.
Defined.

(** ** History requests *)

Section HistoryRequest.

Variable dateNow : nat → Z.
Variable mathRandom : nat → nat.
Variable jsGe jsLe : Z → json → bool.

Lemma process_history recv id fields w w0 :
  getField "request" fields = Some (JStr "history") →
  process (stages dateNow mathRandom jsGe jsLe recv) (frameMessage id fields w) w0 =
  bind (historyStage jsGe jsLe recv (frameMessage id fields w))
       (λ r, if r.2 then ret tt
             else process (drop 5 (stages dateNow mathRandom jsGe jsLe recv)) r.1) w0.
Proof.
  intros Hreq. unfold stages.
  rewrite process_skip by (cbn [pattern]; rewrite matches_one, frameMessage_fields; reflexivity).
  rewrite process_skip by (cbn [pattern]; rewrite matches_one, frameMessage_fields; reflexivity).
  do 2 (rewrite process_skip
    by (cbn [pattern]; rewrite matches_one, frameMessage_fields; simpl; by rewrite Hreq)).
  rewrite process_run; [reflexivity |].
  cbn [pattern]. rewrite matches_one, frameMessage_fields. simpl. by rewrite Hreq.
Qed.

Lemma receive_private_history fuel id records w :
  receiveN dateNow mathRandom jsGe jsLe (S fuel)
    (obj [("to", JNum id); ("history", records)]) w
  = (Ok tt, afterPrivate dateNow id [("to", JNum id); ("history", records)] w).
Proof. reflexivity. Qed.

(** The world after a history request. *)
Lemma history_request_world s c fields w :
  findConn s (relay w) = Some c →
  containsForbiddenFields (JObj fields) 0 = false →
  getField "request" fields = Some (JStr "history") →
  let first := orElse (getField "first" fields) (JNum 0) in
  let last := orElse (getField "last" fields) (JNum (lastSerial (channel w))) in
  let records := retrieve jsGe jsLe first last (channel w) in
  (onMessage dateNow mathRandom jsGe jsLe s (Some (JObj fields)) w).2 =
    match records with
    | [] => started w
    | _ => afterPrivate dateNow (id c)
             [("to", JNum (id c)); ("history", JArr (map encode records))] (started w)
    end.
Proof.
  intros Hfind Hclean Hreq first last records.
  set (m := frameMessage (id c) fields w).
  assert (Hs : fget "_sender" m = Some (JNum (id c)))
    by (unfold m; rewrite frameMessage_fields; reflexivity).
  assert (Hf : fget "first" m = getField "first" fields)
    by (unfold m; rewrite frameMessage_fields; reflexivity).
  assert (Hl : fget "last" m = getField "last" fields)
    by (unfold m; rewrite frameMessage_fields; reflexivity).
  unfold onMessage. rewrite Hfind. unfold messageBody. cbn [wrapPrimitive snd].
  rewrite Hclean. unfold receive.
  rewrite receive_frame, (process_history _ _ _ _ _ Hreq). fold m.
  unfold bind at 1, historyStage, bind at 1, get. cbv beta iota zeta.
  rewrite Hf, Hl, Hs.
  change (retrieve jsGe jsLe _ _ (channel (started w))) with records.
  destruct records as [| r rs]; [reflexivity |].
  unfold bind at 1.
  change (obj (literal _))
    with (obj [("to", JNum (id c)); ("history", JArr (map encode (r :: rs)))]).
  by rewrite receive_private_history.
Qed.

Lemma retrieve_all n (c : Channel) :
  (∀ k x, jsGe k (JNum x) = (x <=? k)) →
  (∀ k x, jsLe k (JNum x) = (k <=? x)) →
  stocked (history c) n → n ≤ lastSerial c →
  retrieve jsGe jsLe (JNum 0) (JNum (lastSerial c)) c = history c.
Proof.
  intros Hge Hle [Hlen Hall] Hn. unfold retrieve.
  assert (Hin : Forall (λ r, ∃ k, fget "_serial" r = Some (JNum k) ∧ 0 < k ≤ n) (history c)).
  { apply Forall_forall. intros r Hr. apply list_elem_of_lookup in Hr as [i Hi].
    destruct (Forall2_lookup_l _ _ _ _ _ Hall Hi) as (k & Hk & Hfield).
    exists k. split; [exact Hfield |].
    assert (Hi' : (i < length (history c))%nat) by (by eapply lookup_lt_Some).
    apply lookup_countFrom in Hk. lia. }
  clear Hlen Hall. revert Hin. generalize (history c) as h.
  induction 1 as [| r h (k & Hk & Hr) _ IH]; [reflexivity |].
  rewrite filter_cons_True; [by rewrite IH |].
  rewrite Hk, Hge, Hle. apply andb_true_iff. split; apply Z.leb_le; lia.
Qed.

End HistoryRequest.

(** A history request of a tracked connection, with any bounds.  The
    records that [retrieve] selects between [first] (0 when absent or
    [null]) and [last] (the serial counter when absent or [null]) are sent
    in one message, in the order of the history, addressed to the
    requester alone; when no record is selected, nothing is sent.  The
    request itself is neither recorded nor broadcast, and the registry,
    the history and the serial counter are as before. *)
Theorem history_request_outcome dateNow mathRandom jsGe jsLe s c fields w :
  findConn s (relay w) = Some c →
  containsForbiddenFields (JObj fields) 0 = false →
  getField "request" fields = Some (JStr "history") →
  ids_ok w →
  let w' := (onMessage dateNow mathRandom jsGe jsLe s (Some (JObj fields)) w).2 in
  let first := orElse (getField "first" fields) (JNum 0) in
  let last := orElse (getField "last" fields) (JNum (lastSerial (channel w))) in
  let records := retrieve jsGe jsLe first last (channel w) in
  users (channel w') = users (channel w) ∧
  history (channel w') = history (channel w) ∧
  lastSerial (channel w') = lastSerial (channel w) ∧
  delivered w w' =
    match records with
    | [] => []
    | _ => toAddressee (relay w) (id c)
             (JObj [("to", JNum (id c)); ("history", JArr (map encode records));
                    ("_time", JNum (stampOf dateNow w))])
    end.
Proof.
  intros Hfind Hclean Hreq Hids w' first last records. subst w'.
  rewrite (history_request_world dateNow mathRandom jsGe jsLe s c fields w Hfind Hclean Hreq).
  cbv zeta. fold first last records. destruct records as [| r rs].
  - split_and!; try reflexivity. unfold delivered. simpl. apply drop_all.
  - cbn [channel relay afterPrivate withHistory withLastTimestamp users history lastSerial
         started].
    split_and!; try reflexivity.
    + apply (ids_ok_later w); [exact Hids | simpl; lia].
    + by apply delivered_app.
Qed.

(** An instance of [history_request_outcome]: Bob asks for the history
    after Alice and he have joined. *)
Lemma history_request_outcome_witness :
  let w := aliceAndBob in
  let w' := (onMessage clock0 dice0 numGe numLe 8
               (Some (JObj [("request", JStr "history")])) w).2 in
  history (channel w') = history (channel w) ∧
  map fst (delivered w w') = [8%nat].
Proof.
  intros w w'.
  destruct (history_request_outcome clock0 dice0 numGe numLe 8 (mkConn 8 1 true)
              [("request", JStr "history")] w eq_refl eq_refl eq_refl aliceAndBob_ids)
    as (_ & Hh & _ & Hd).
  split; [exact Hh |]. fold w' in Hd. rewrite Hd. vm_compute. reflexivity.
Defined.

(** In every state that the server reaches, a history request without
    bounds is answered with the whole stored history (the comparisons of
    numbers being the usual ones): one message to the requester that holds
    every record, in order; and with nothing when the history is empty. *)
Theorem bare_history_request_returns_all dateNow mathRandom jsGe jsLe maxH maxN es s c fields :
  (∀ k x, jsGe k (JNum x) = (x <=? k)) →
  (∀ k x, jsLe k (JNum x) = (k <=? x)) →
  let w := run dateNow mathRandom jsGe jsLe es (newWorld maxH maxN) in
  findConn s (relay w) = Some c →
  containsForbiddenFields (JObj fields) 0 = false →
  getField "request" fields = Some (JStr "history") →
  getField "first" fields = None →
  getField "last" fields = None →
  let w' := (onMessage dateNow mathRandom jsGe jsLe s (Some (JObj fields)) w).2 in
  retrieve jsGe jsLe (JNum 0) (JNum (lastSerial (channel w))) (channel w)
    = history (channel w) ∧
  delivered w w' =
    match history (channel w) with
    | [] => []
    | _ => toAddressee (relay w) (id c)
             (JObj [("to", JNum (id c));
                    ("history", JArr (map encode (history (channel w))));
                    ("_time", JNum (stampOf dateNow w))])
    end.
Proof.
  intros Hge Hle w Hfind Hclean Hreq Hfirst Hlast w'.
  assert (Hall : retrieve jsGe jsLe (JNum 0) (JNum (lastSerial (channel w))) (channel w)
                 = history (channel w)).
  { apply (retrieve_all jsGe jsLe (lastSerial (channel w))); [exact Hge | exact Hle | | lia].
    apply (stocked_run dateNow mathRandom jsGe jsLe es (newWorld maxH maxN)).
    split; [simpl; lia | constructor]. }
  split; [exact Hall |]. subst w'.
  rewrite (history_request_world dateNow mathRandom jsGe jsLe s c fields w Hfind Hclean Hreq).
  cbv zeta. rewrite Hfirst, Hlast. cbn [orElse]. rewrite Hall.
  destruct (history (channel w)) as [| r rs] eqn:Hh.
  - unfold delivered. simpl. apply drop_all.
  - by apply delivered_app.
Qed.

(** An instance of [bare_history_request_returns_all]: Bob asks for the
    history after Alice and he have joined. *)
Lemma bare_history_request_returns_all_witness :
  let es := [Connection 7; Frame 7 (Some (identifyFrame "Alice" "s1")); Connection 8;
             Frame 8 (Some (identifyFrame "Bob" "s2"))] in
  let w := run clock0 dice0 numGe numLe es (newWorld 50 30) in
  retrieve numGe numLe (JNum 0) (JNum (lastSerial (channel w))) (channel w)
    = history (channel w).
Proof.
  intros es w.
  apply (bare_history_request_returns_all clock0 dice0 numGe numLe 50 30 es 8
           (mkConn 8 1 true) [("request", JStr "history")]);
    try reflexivity.
Defined.


(** ** Direct messages *)

Section DirectMessage.

Variable dateNow : nat → Z.
Variable mathRandom : nat → nat.
Variable jsGe jsLe : Z → json → bool.






End DirectMessage.



(** ** A successful identification *)

Section Identify.

Variable dateNow : nat → Z.
Variable mathRandom : nat → nat.
Variable jsGe jsLe : Z → json → bool.



End Identify.



(** ** Timestamps through the stages *)

Lemma risingTo_weaken b b' ts : b ≤ b' → risingTo b ts → risingTo b' ts.
Proof.
  intros Hb [Hs Hall]. split; [exact Hs |].
  eapply Forall_impl; [exact Hall |]. simpl. intros; lia.
Qed.

Lemma risingTo_snoc b t ts : b < t → risingTo b ts → risingTo t (ts ++ [t])%list.
Proof.
  intros Hb [Hs Hall]. split.
  - apply StronglySorted_app_2; [| exact Hs | repeat constructor].
    intros x1 x2 H1 H2. apply list_elem_of_singleton in H2 as ->.
    rewrite Forall_forall in Hall. specialize (Hall _ H1). simpl in Hall. lia.
  - apply Forall_app. split; [| by repeat constructor].
    eapply Forall_impl; [exact Hall |]. simpl. intros; lia.
Qed.

Lemma risingTo_sublist b (l1 l2 : list Z) :
  l1 `sublist_of` l2 → risingTo b l2 → risingTo b l1.
Proof.
  intros Hsub [Hs Hall]. split.
  - by apply (StronglySorted_sublist _ l2).
  - rewrite Forall_forall in *. intros x Hx. apply Hall.
    by apply (elem_of_sublist _ _ _ Hx).
Qed.

Lemma omap_sublist {A B} (f : A → option B) (l1 l2 : list A) :
  l1 `sublist_of` l2 → omap f l1 `sublist_of` omap f l2.
Proof.
  induction 1 as [| x l1 l2 _ IH | x l1 l2 _ IH]; simpl.
  - constructor.
  - destruct (f x); [by constructor | exact IH].
  - destruct (f x); [by constructor | exact IH].
Qed.

Lemma timeOfMsg_fset_time t m : timeOfMsg (fset "_time" (JNum t) m) = Some t.
Proof.
  unfold timeOfMsg, timeOf. change (getField "_time" (props (fset "_time" (JNum t) m)))
    with (fget "_time" (fset "_time" (JNum t) m)). by rewrite fget_fset_eq.
Qed.

Lemma timeOfMsg_fset_ne key v m : key ≠ "_time" → timeOfMsg (fset key v m) = timeOfMsg m.
Proof.
  intros Hne. unfold timeOfMsg, timeOf.
  change (getField "_time" (props (fset key v m))) with (fget "_time" (fset key v m)).
  by rewrite fget_fset_ne.
Qed.

Lemma timeOfMsg_fdel_ne key m : key ≠ "_time" → timeOfMsg (fdel key m) = timeOfMsg m.
Proof.
  intros Hne. unfold timeOfMsg, timeOf.
  change (getField "_time" (props (fdel key m))) with (fget "_time" (fdel key m)).
  by rewrite fget_fdel_ne.
Qed.

Lemma stamped_encode m : is_Some (timeOfMsg m) → stamped (encode m).
Proof. unfold encode, timeOfMsg. by destruct (items m). Qed.

Lemma timeOf_encode_cases m : timeOf (encode m) = None ∨ timeOf (encode m) = timeOfMsg m.
Proof. unfold encode, timeOfMsg. destruct (items m); [by left | by right]. Qed.

Lemma map_timeOfMsg_assignTo m' h : map timeOfMsg (assignTo m' h) = map timeOfMsg h.
Proof.
  unfold assignTo. destruct (fget "to" m') as [to |]; [| reflexivity].
  rewrite map_map. apply map_ext. intros r.
  destruct (decide _); [| reflexivity]. by apply timeOfMsg_fset_ne.
Qed.

Lemma omap_as_map {A B} (f : A → option B) (l : list A) : omap f l = omap (λ x, x) (map f l).
Proof.
  induction l as [| x l IH]; [reflexivity |].
  change (omap f (x :: l)) with (match f x with Some y => y :: omap f l | None => omap f l end).
  change (omap (λ x, x) (map f (x :: l)))
    with (match f x with Some y => y :: omap (λ x, x) (map f l)
                      | None => omap (λ x, x) (map f l) end).
  by rewrite IH.
Qed.

Lemma Forall_as_map {A B} (P : B → Prop) (f : A → B) (l : list A) :
  Forall (λ x, P (f x)) l ↔ Forall P (map f l).
Proof. symmetry. apply Forall_fmap. Qed.

(** The history after the last stage, from the history before it. *)
Lemma timed_history b m' h :
  Forall (λ r, is_Some (timeOfMsg r)) h ∧ risingTo b (omap timeOfMsg h) →
  Forall (λ r, is_Some (timeOfMsg r)) (assignTo m' h) ∧
  risingTo b (omap timeOfMsg (assignTo m' h)).
Proof.
  rewrite (omap_as_map _ (assignTo m' h)), (omap_as_map _ h).
  rewrite !(Forall_as_map is_Some timeOfMsg). by rewrite map_timeOfMsg_assignTo.
Qed.

Lemma timed_push b t h r :
  b < t → timeOfMsg r = Some t →
  Forall (λ r, is_Some (timeOfMsg r)) h ∧ risingTo b (omap timeOfMsg h) →
  Forall (λ r, is_Some (timeOfMsg r)) (h ++ [r])%list ∧
  risingTo t (omap timeOfMsg (h ++ [r])%list).
Proof.
  intros Hb Hr [Hall Hrise]. split.
  - apply Forall_app. split; [exact Hall |]. constructor; [by rewrite Hr | constructor].
  - rewrite omap_app. simpl. rewrite Hr. simpl. by apply risingTo_snoc with b.
Qed.

Lemma timed_trim b cap h :
  Forall (λ r, is_Some (timeOfMsg r)) h ∧ risingTo b (omap timeOfMsg h) →
  Forall (λ r, is_Some (timeOfMsg r)) (trim cap h) ∧
  risingTo b (omap timeOfMsg (trim cap h)).
Proof.
  intros [Hall Hrise].
  assert (Hsub : trim cap h `sublist_of` h).
  { unfold trim, sliceLast. destruct (_ <? _)%nat; [| reflexivity].
    destruct (kept cap); [reflexivity | apply sublist_drop]. }
  split.
  - rewrite Forall_forall in *. intros x Hx. apply Hall. by apply (elem_of_sublist _ _ _ Hx).
  - apply (risingTo_sublist _ _ (omap timeOfMsg h)); [by apply omap_sublist | exact Hrise].
Qed.

(** A socket gets a broadcast at most once. *)
Lemma delivered_once (x : json) s : ∀ l : list conn,
  NoDup (map sock l) →
  let got := map snd (List.filter (λ sm : nat * json, Nat.eqb sm.1 s)
                                  (map (λ c, (sock c, x)) l)) in
  got = [] ∨ got = [x].
Proof.
  induction l as [| c l IH]; intros Hnd; [by left |].
  simpl in Hnd. apply NoDup_cons in Hnd as [Hc Hnd]. simpl.
  destruct (Nat.eqb_spec (sock c) s) as [Heq | Hne]; [| by apply IH].
  right. simpl. f_equal.
  assert (Hnone : ∀ l' : list conn, s ∉ map sock l' →
            List.filter (λ sm : nat * json, Nat.eqb sm.1 s) (map (λ c, (sock c, x)) l') = []).
  { induction l' as [| c1 l' IHl']; intros Hs; [reflexivity |]. simpl.
    destruct (Nat.eqb_spec (sock c1) s) as [Heq1 | _].
    - exfalso. apply Hs. simpl. rewrite Heq1. by left.
    - apply IHl'. intros Hin. apply Hs. simpl. by right. }
  rewrite Hnone; [reflexivity | by rewrite <- Heq].
Qed.

Lemma timed_broadcast b t m r :
  b < t → timeOfMsg m = Some t →
  NoDup (map sock (r_sockets r)) →
  Forall (λ sm : nat * json, stamped sm.2) (sent r) →
  (∀ s, risingTo b (omap timeOf (received s r))) →
  let r' := (broadcast m r).2 in
  NoDup (map sock (r_sockets r')) ∧
  Forall (λ sm : nat * json, stamped sm.2) (sent r') ∧
  ∀ s, risingTo t (omap timeOf (received s r')).
Proof.
  intros Hb Hm Hnd Hall Hrise r'.
  assert (Hshape : ∃ cs, cs `sublist_of` r_sockets r ∧
            r' = mkRelay (r_sockets r) (connectionID r)
                         (sent r ++ map (λ c, (sock c, encode m)) cs)).
  { subst r'. unfold broadcast. destruct (fget "to" m) as [to |]; simpl.
    - eexists. split; [| reflexivity]. apply sublist_filter.
    - eexists. split; [| reflexivity]. apply sublist_filter. }
  destruct Hshape as (cs & Hsub & ->). cbn [r_sockets sent]. split; [exact Hnd |]. split.
  - apply Forall_app. split; [exact Hall |]. apply Forall_forall.
    intros sm Hsm. apply list_elem_of_fmap in Hsm as [c [-> _]]. simpl.
    apply stamped_encode. by rewrite Hm.
  - intros s. rewrite received_app, omap_app.
    assert (Hnd' : NoDup (map sock cs)).
    { apply (sublist_NoDup _ (map sock (r_sockets r))); [exact Hnd | by apply fmap_sublist]. }
    destruct (delivered_once (encode m) s cs Hnd') as [-> | ->]; simpl.
    + rewrite app_nil_r. apply (risingTo_weaken b); [lia | apply Hrise].
    + destruct (timeOf_encode_cases m) as [-> | ->]; simpl.
      * rewrite app_nil_r. apply (risingTo_weaken b); [lia | apply Hrise].
      * rewrite Hm. simpl. apply (risingTo_snoc b); [exact Hb | apply Hrise].
Qed.

Lemma timed_tail dateNow mathRandom jsGe jsLe recv m :
  preserves timed (process (drop 7 (stages dateNow mathRandom jsGe jsLe recv)) m).
Proof.
  intros w (Hnd & Hh & Hhr & Hs & Hr). rewrite tail_stages. cbv zeta.
  set (t := stampOf dateNow w).
  assert (Hb : lastTimestamp (channel w) < t) by apply nextTimestamp_gt.
  set (m1 := fdel "_sender" (fset "_time" (JNum t) m)).
  assert (Hm1 : timeOfMsg m1 = Some t).
  { subst m1. rewrite timeOfMsg_fdel_ne by done. apply timeOfMsg_fset_time. }
  destruct (matches _ _).
  - unfold rememberStage, bind, get, modify, template, ret.
    cbn [fst snd channel withChannel withHistory withLastSerial withLastTimestamp history
         lastSerial lastTimestamp maxHistory relay].
    set (m2 := fset "_serial" _ (fdel "_remember" m1)).
    assert (Hm2 : timeOfMsg m2 = Some t).
    { subst m2. rewrite timeOfMsg_fset_ne, timeOfMsg_fdel_ne by done. exact Hm1. }
    pose proof (timed_push _ t _ m2 Hb Hm2 (conj Hh Hhr)) as [Hh1 Hhr1].
    assert (Hthrown : timed (mkWorld
              (withHistory (λ h, (h ++ [m2])%list)
                 (withLastSerial (lastSerial (channel w) + 1)
                    (withLastTimestamp t (channel w))))
              (relay w) (S (ticks w)) (draws w) (nextObj w))).
    { unfold timed. cbn [channel relay history lastTimestamp withHistory withLastSerial
                         withLastTimestamp].
      split_and!; try done. intros s. apply (risingTo_weaken (lastTimestamp (channel w)));
        [lia | apply Hr]. }
    destruct (toStrOpt _); cbn [fst snd]; [| exact Hthrown].
    destruct (toStrOpt _); cbn [fst snd]; [| exact Hthrown].
    unfold broadcastStage, withChannel. cbn [relay channel].
    pose proof (timed_broadcast _ t m2 (relay w) Hb Hm2 Hnd Hs Hr) as (B1 & B2 & B3).
    destruct (broadcast m2 (relay w)) as [m' r']. cbn [snd] in *.
    unfold timed. cbn [channel relay history lastTimestamp withHistory withLastSerial
                       withLastTimestamp maxHistory].
    pose proof (timed_history t m' _ (timed_trim t (maxHistory (channel w)) _ (conj Hh1 Hhr1)))
      as [Hh2 Hhr2].
    split_and!; done.
  - unfold broadcastStage. cbn [relay channel].
    pose proof (timed_broadcast _ t m1 (relay w) Hb Hm1 Hnd Hs Hr) as (B1 & B2 & B3).
    destruct (broadcast m1 (relay w)) as [m' r']. cbn [snd] in *.
    unfold timed. cbn [channel relay history lastTimestamp withHistory withLastTimestamp].
    pose proof (timed_history t m' _ (conj Hh (risingTo_weaken _ t _ (Z.lt_le_incl _ _ Hb) Hhr)))
      as [Hh2 Hhr2].
    split_and!; done.
Qed.

Lemma onUsers_timed {A} (c : M Users A) : preserves timed (onUsers c).
Proof. intros w. unfold onUsers. by destruct (c _). Qed.

Lemma approveListener_socks k r :
  map sock (r_sockets (approveListener k r)) = map sock (r_sockets r).
Proof.
  destruct k as [| | | n | |]; try reflexivity. simpl.
  induction (r_sockets r) as [| c cs IH]; simpl; [reflexivity |].
  destruct (decide (id c = n)); simpl; [reflexivity | by rewrite IH].
Qed.

Lemma timed_receiveN dateNow mathRandom jsGe jsLe fuel m :
  preserves timed (receiveN dateNow mathRandom jsGe jsLe fuel m).
Proof.
  apply (held_receiveN dateNow mathRandom jsGe jsLe timed (λ _, True)).
  - intros w w' Hc Hr. unfold timed. by rewrite Hc, Hr.
  - intros p. apply onUsers_timed.
  - intros t. apply onUsers_timed.
  - intros who what. apply onUsers_timed.
  - intros k w _ (Hnd & Hh & Hhr & Hs & Hr). unfold timed.
    cbn [relay channel withRelay]. rewrite sent_approveListener.
    split_and!; try done.
    + by rewrite approveListener_socks.
    + intros s. specialize (Hr s). unfold received in *. by rewrite sent_approveListener.
  - intros recv m'. apply timed_tail.
  - by right.
Qed.

Lemma timed_step dateNow mathRandom jsGe jsLe e w :
  timed w → timed (step dateNow mathRandom jsGe jsLe w e).
Proof.
  intros Hw. destruct e as [s | s data | s | text]; unfold step, receive.
  - unfold receiveConnection, bind, get, receive.
    destruct (findConn s (relay w)) as [c |] eqn:Hfind; [exact Hw |].
    unfold modify. cbn [fst snd].
    match goal with |- context [receiveN _ _ _ _ 2 ?m ?w1] =>
      pose proof (timed_receiveN dateNow mathRandom jsGe jsLe 2 m w1) as Hrecv;
      destruct (receiveN dateNow mathRandom jsGe jsLe 2 m w1) as [[[] | e] w2]
    end; apply Hrecv; destruct Hw as (Hnd & Hh & Hhr & Hs & Hr); unfold timed;
      cbn [relay channel withRelay r_sockets sent]; (split_and!; try done);
      rewrite map_app; apply NoDup_app; (split; [exact Hnd |]); simpl;
      (split; [| apply NoDup_singleton]); intros x Hx Hx';
      apply list_elem_of_singleton in Hx' as ->; by apply (findConn_None _ _ Hfind).
  - unfold onMessage. destruct (findConn s (relay w)) as [c |]; [| exact Hw].
    cbn [snd]. unfold messageBody, receive. destruct data as [parsed |]; [| exact Hw].
    destruct (containsForbiddenFields _ _); [exact Hw |].
    destruct (wrapPrimitive parsed); try exact Hw; by apply timed_receiveN.
  - unfold onClose, bind, get, receive.
    destruct (findConn s (relay w)) as [c |]; [| exact Hw].
    match goal with |- context [receiveN _ _ _ _ 2 ?m ?w1] =>
      pose proof (timed_receiveN dateNow mathRandom jsGe jsLe 2 m w1 Hw) as Hrecv;
      destruct (receiveN dateNow mathRandom jsGe jsLe 2 m w1) as [[[] | e] w2]
    end; [| exact Hrecv].
    unfold modify. cbn [snd]. destruct Hrecv as (Hnd & Hh & Hhr & Hs & Hr). unfold timed.
    cbn [relay channel withRelay r_sockets sent]. split_and!; try done.
    apply (sublist_NoDup _ (map sock (r_sockets (relay w2)))); [exact Hnd |].
    apply fmap_sublist. clear. induction (r_sockets (relay w2)) as [| x l IH]; simpl;
      [constructor |]. destruct (negb _); by constructor.
  - by apply timed_receiveN.
Qed.

Lemma timed_run dateNow mathRandom jsGe jsLe es : ∀ w,
  timed w → timed (run dateNow mathRandom jsGe jsLe es w).
Proof.
  induction es as [| e es IH]; intros w Hw; simpl; [exact Hw |].
  apply IH, timed_step, Hw.
Qed.

Lemma timed_new maxH maxN : timed (newWorld maxH maxN).
Proof.
  unfold timed. simpl. split_and!.
  - constructor.
  - constructor.
  - split; constructor.
  - constructor.
  - intros s. split; constructor.
Qed.

Lemma tail_lastTimestamp dateNow mathRandom jsGe jsLe recv m w :
  lastTimestamp (channel (process (drop 7 (stages dateNow mathRandom jsGe jsLe recv)) m w).2)
  = stampOf dateNow w.
Proof.
  rewrite tail_stages. cbv zeta. destruct (matches _ _).
  - unfold rememberStage, bind, get, modify, template, ret. cbn [fst snd].
    destruct (toStrOpt _); cbn [fst snd]; [| reflexivity].
    destruct (toStrOpt _); cbn [fst snd]; [| reflexivity].
    unfold broadcastStage. by destruct (broadcast _ _).
  - unfold broadcastStage. by destruct (broadcast _ _).
Qed.

(** C9.  The timestamp stage gives the message, as its [_time], the clock
    reading cut down to the multiple of 100 ms at or below it
    ([100 * (now ÷ 100)], the division dropping the fraction) when that is
    greater than the last timestamp of the channel, and the last timestamp
    plus one otherwise; the value is greater than the last timestamp and
    becomes the new one, and the stages after it (erasure of the sender,
    record, broadcast) leave it in place.  Consequently, whatever happens
    to the server (connections, frames, closes, in any number and order,
    with any clock): every record of the history has a [_time] and these
    increase strictly along the history; every object sent to a socket has
    a [_time] and these increase strictly in the order in which the socket
    was sent them; and none is above the last timestamp of the channel. *)
Theorem timestamps_increase dateNow mathRandom jsGe jsLe :
  (∀ m w,
     let now := dateNow (ticks w) in
     let last := lastTimestamp (channel w) in
     let cut := 100 * (now ÷ 100) in
     let t := if last <? cut then cut else last + 1 in
     ∃ w', timestampStage dateNow m w = (Ok (fset "_time" (JNum t) m, false), w') ∧
           fget "_time" (fset "_time" (JNum t) m) = Some (JNum t) ∧
           lastTimestamp (channel w') = t ∧
           last < t ∧
           ∀ recv,
             lastTimestamp
               (channel (process (drop 7 (stages dateNow mathRandom jsGe jsLe recv)) m w).2)
             = t) ∧
  (∀ maxH maxN es,
     let w := run dateNow mathRandom jsGe jsLe es (newWorld maxH maxN) in
     let last := lastTimestamp (channel w) in
     let h := history (channel w) in
     Forall (λ r, is_Some (timeOfMsg r)) h ∧
     StronglySorted Z.lt (omap timeOfMsg h) ∧
     Forall (λ t, t ≤ last) (omap timeOfMsg h) ∧
     ∀ s, let got := received s (relay w) in
          Forall stamped got ∧
          StronglySorted Z.lt (omap timeOf got) ∧
          Forall (λ t, t ≤ last) (omap timeOf got)).
Proof.
  split.
  - intros m w now last cut t.
    assert (Ht : nextTimestamp (dateNow (ticks w)) (lastTimestamp (channel w)) = t).
    { unfold nextTimestamp, coarse. fold now last cut. subst t.
      destruct (Z.leb_spec cut last); destruct (Z.ltb_spec last cut); lia. }
    eexists. unfold timestampStage. rewrite Ht. split; [reflexivity |].
    split; [apply fget_fset_eq |]. split; [reflexivity |]. split.
    + rewrite <- Ht. apply nextTimestamp_gt.
    + intros recv. rewrite tail_lastTimestamp. exact Ht.
  - intros maxH maxN es w last h.
    destruct (timed_run dateNow mathRandom jsGe jsLe es (newWorld maxH maxN) (timed_new _ _))
      as (_ & Hh & [Hs1 Hs2] & Hsent & Hr).
    fold w in Hh, Hs1, Hs2, Hsent, Hr. split_and!; try done.
    intros s got. destruct (Hr s) as [Hr1 Hr2]. split_and!; try done.
    subst got. unfold received. apply Forall_fmap, Forall_forall. intros sm Hsm.
    apply list_elem_of_In, filter_In in Hsm as [Hsm _]. apply list_elem_of_In in Hsm.
    rewrite Forall_forall in Hsent. by apply Hsent.
Qed.

(** ** The name index *)

Lemma index_found t us u :
  index_ok us → getUser t us = Some u →
  mget (lowerCaseName u) (lowerCaseNames us) = Some u.
Proof.
  intros Hok. unfold getUser. destruct (t_name t) as [n |].
  - intros Hu. by rewrite <- (ix_names _ Hok _ _ Hu).
  - destruct (t_sessionId t) as [k |].
    + intros Hu. by apply (ix_sessions _ Hok k).
    + destruct (t_socketId t) as [k |]; [| discriminate].
      intros Hu. by apply (ix_sockets _ Hok k).
Qed.

Lemma createUser_index p us : index_ok us → index_ok (createUser p us).2.
Proof.
  intros Hok. unfold createUser.
  destruct (mhas _ (lowerCaseNames us)) eqn:Hn; [exact Hok |].
  destruct (mhas _ (sessions us)); [exact Hok |].
  destruct (mhas _ (sockets us)); [exact Hok |].
  apply mhas_false in Hn. set (u := newChatUser (nextOid us) p).
  assert (Hkey : lowerCaseName u = toLowerCase (p_name p)) by reflexivity.
  assert (Hoid : oid u = nextOid us) by reflexivity.
  cbn [snd]. rewrite Hkey.
  constructor; cbn [lowerCaseNames sockets sessions nextOid].
  - intros k v Hv. apply mget_mset_Some in Hv as [[-> ->] | [_ Hv]];
      [by rewrite Hkey | by apply (ix_names _ Hok)].
  - intros k v k' v' Hv Hv' Ho.
    apply mget_mset_Some in Hv as [[-> ->] | [Hk Hv]];
      apply mget_mset_Some in Hv' as [[-> ->] | [Hk' Hv']]; try done.
    + apply (ix_fresh _ Hok) in Hv'. lia.
    + apply (ix_fresh _ Hok) in Hv. lia.
    + by apply (ix_oid _ Hok k v k' v').
  - intros k v Hv. apply mget_mset_Some in Hv as [[-> ->] | [_ Hv]]; [lia |].
    apply (ix_fresh _ Hok) in Hv. lia.
  - intros k v Hv. apply mget_mset_Some in Hv as [[-> ->] | [_ Hv]].
    + split; [reflexivity |]. rewrite Hkey. apply mget_mset_eq.
    + destruct (ix_sockets _ Hok _ _ Hv) as [Hk Hin]. split; [exact Hk |].
      rewrite mget_mset_ne; [exact Hin |]. intros Heq. rewrite <- Heq in Hin. congruence.
  - intros k v Hv. apply mget_mset_Some in Hv as [[-> ->] | [_ Hv]].
    + split; [reflexivity |]. rewrite Hkey. apply mget_mset_eq.
    + destruct (ix_sessions _ Hok _ _ Hv) as [Hk Hin]. split; [exact Hk |].
      rewrite mget_mset_ne; [exact Hin |]. intros Heq. rewrite <- Heq in Hin. congruence.
  - apply NoDup_mset, Hok.
  - apply NoDup_mset, Hok.
  - apply NoDup_mset, Hok.
Qed.

(** The registry without the user [u] of the name index: the invariant
    stays, and no index refers to the object [u] any more. *)
Lemma removed_index us u :
  index_ok us → mget (lowerCaseName u) (lowerCaseNames us) = Some u →
  let us' := mkUsers (mdelete (lowerCaseName u) (lowerCaseNames us))
                     (mdelete (socketId u) (sockets us))
                     (mdelete (sessionId u) (sessions us)) (nextOid us) in
  index_ok us' ∧
  (∀ k v, (k, v) ∈ lowerCaseNames us' → oid v ≠ oid u) ∧
  (∀ k v, (k, v) ∈ sockets us' → oid v ≠ oid u) ∧
  (∀ k v, (k, v) ∈ sessions us' → oid v ≠ oid u).
Proof.
  intros Hok Hu us'.
  assert (Hn : ∀ k v, mget k (lowerCaseNames us') = Some v →
            k ≠ lowerCaseName u ∧ mget k (lowerCaseNames us) = Some v).
  { intros k v Hv. by apply mget_mdelete_Some in Hv. }
  assert (Hkeep : ∀ v, v ≠ u → mget (lowerCaseName v) (lowerCaseNames us) = Some v →
            mget (lowerCaseName v) (lowerCaseNames us') = Some v).
  { intros v Hne Hv. apply mget_mdelete_Some. split; [| exact Hv].
    intros Heq. rewrite Heq in Hv. congruence. }
  assert (Hok' : index_ok us').
  { constructor; cbn [lowerCaseNames sockets sessions nextOid us'].
    - intros k v Hv. apply Hn in Hv as [_ Hv]. by apply (ix_names _ Hok).
    - intros k v k' v' Hv Hv' Ho. apply Hn in Hv as [_ Hv]. apply Hn in Hv' as [_ Hv'].
      by apply (ix_oid _ Hok k v k' v').
    - intros k v Hv. apply Hn in Hv as [_ Hv]. by apply (ix_fresh _ Hok k).
    - intros k v Hv. apply mget_mdelete_Some in Hv as [Hk Hv].
      destruct (ix_sockets _ Hok _ _ Hv) as [-> Hin]. split; [reflexivity |].
      apply Hkeep; [congruence | exact Hin].
    - intros k v Hv. apply mget_mdelete_Some in Hv as [Hk Hv].
      destruct (ix_sessions _ Hok _ _ Hv) as [-> Hin]. split; [reflexivity |].
      apply Hkeep; [congruence | exact Hin].
    - apply NoDup_mdelete, Hok.
    - apply NoDup_mdelete, Hok.
    - apply NoDup_mdelete, Hok. }
  split; [exact Hok' |]. split_and!; intros k v Hin Ho.
  - apply elem_of_mget in Hin; [| apply Hok']. apply Hn in Hin as [Hk Hv].
    apply Hk. by apply (ix_oid _ Hok k v (lowerCaseName u) u).
  - apply elem_of_mget in Hin; [| apply Hok'].
    apply mget_mdelete_Some in Hin as [Hk Hv].
    destruct (ix_sockets _ Hok _ _ Hv) as [-> Hin].
    assert (lowerCaseName v = lowerCaseName u)
      by (by apply (ix_oid _ Hok _ v _ u)).
    apply Hk. f_equal. congruence.
  - apply elem_of_mget in Hin; [| apply Hok'].
    apply mget_mdelete_Some in Hin as [Hk Hv].
    destruct (ix_sessions _ Hok _ _ Hv) as [-> Hin].
    assert (lowerCaseName v = lowerCaseName u)
      by (by apply (ix_oid _ Hok _ v _ u)).
    apply Hk. f_equal. congruence.
Qed.

Lemma deleteUser_index t us : index_ok us → index_ok (deleteUser t us).2.
Proof.
  intros Hok. unfold deleteUser. destruct (getUser t us) as [u |] eqn:Hu; [| exact Hok].
  apply removed_index; [exact Hok | by apply (index_found t)].
Qed.

Lemma updateUser_index who what us : index_ok us → index_ok (updateUser who what us).2.
Proof.
  intros Hok. unfold updateUser, bind, get. cbn [fst snd].
  destruct (getUser who us) as [u |] eqn:Hu; [| exact Hok].
  pose proof (index_found who us u Hok Hu) as Hin.
  unfold deleteUser. unfold getUser at 1. cbn [traitOfUser t_name].
  change (toLowerCase (name u)) with (lowerCaseName u). rewrite Hin.
  destruct (removed_index us u Hok Hin) as (Hok' & G1 & G2 & G3).
  set (us' := mkUsers _ _ _ _) in *.
  assert (Hassign : objectAssign u what us' = (Ok (assignFields what u), us')).
  { unfold objectAssign. f_equal. destruct us' as [a b c n] eqn:E. f_equal.
    - apply mupdate_id. intros k v Hv. rewrite decide_False; [reflexivity |].
      by apply (G1 k).
    - apply mupdate_id. intros k v Hv. rewrite decide_False; [reflexivity |].
      by apply (G2 k).
    - apply mupdate_id. intros k v Hv. rewrite decide_False; [reflexivity |].
      by apply (G3 k). }
  rewrite Hassign.
  pose proof (createUser_index (propsOfUser (assignFields what u)) us' Hok') as Hc.
  destruct (createUser _ us') as [[[] | e] us2]; exact Hc.
Qed.

Lemma index_empty : index_ok emptyUsers.
Proof. constructor; simpl; try discriminate; constructor. Qed.

Lemma index_names_unique us : index_ok us → names_unique us.
Proof.
  intros Hok.
  assert (Hkeys : ∀ k v, (k, v) ∈ lowerCaseNames us → k = toLowerCase (name v)).
  { intros k v Hin. apply (ix_names _ Hok). apply elem_of_mget; [apply Hok | exact Hin]. }
  split.
  - assert (Heq : map (λ u, toLowerCase (name u)) (liveUsers us)
                  = map fst (lowerCaseNames us)).
    { unfold liveUsers, mvalues. rewrite map_map.
      revert Hkeys. induction (lowerCaseNames us) as [| [k v] l IH]; intros Hkeys;
        [reflexivity |].
      simpl. rewrite <- (Hkeys k v) by left. f_equal. apply IH.
      intros k' v' Hin. apply Hkeys. by right. }
    rewrite Heq. apply Hok.
  - intros n v. unfold getUser. cbn [byName t_name]. split.
    + intros Hv. pose proof (ix_names _ Hok _ _ Hv) as Hk. split; [| by rewrite Hk].
      apply mget_elem_of in Hv. unfold liveUsers, mvalues.
      apply list_elem_of_fmap. by exists (toLowerCase n, v).
    + intros [Hin Hn]. unfold liveUsers, mvalues in Hin.
      apply list_elem_of_fmap in Hin as [[k v'] [-> Hin]]. simpl in *.
      rewrite <- Hn, <- (Hkeys k v' Hin). apply elem_of_mget; [apply Hok | exact Hin].
Qed.

Lemma tail_users dateNow mathRandom jsGe jsLe recv m w :
  users (channel (process (drop 7 (stages dateNow mathRandom jsGe jsLe recv)) m w).2)
  = users (channel w).
Proof.
  rewrite tail_stages. cbv zeta. destruct (matches _ _).
  - unfold rememberStage, bind, get, modify, template, ret. cbn [fst snd].
    destruct (toStrOpt _); cbn [fst snd]; [| reflexivity].
    destruct (toStrOpt _); cbn [fst snd]; [| reflexivity].
    unfold broadcastStage. by destruct (broadcast _ _).
  - unfold broadcastStage. by destruct (broadcast _ _).
Qed.

Lemma onUsers_index {A} (c : M Users A) :
  (∀ us, index_ok us → index_ok (c us).2) →
  preserves (λ w, index_ok (users (channel w))) (onUsers c).
Proof.
  intros Hc w Hw. unfold onUsers. specialize (Hc _ Hw).
  by destruct (c (users (channel w))).
Qed.

Lemma index_receiveN dateNow mathRandom jsGe jsLe fuel m :
  preserves (λ w, index_ok (users (channel w)))
            (receiveN dateNow mathRandom jsGe jsLe fuel m).
Proof.
  apply (held_receiveN dateNow mathRandom jsGe jsLe _ (λ _, True)).
  - intros w w' Hc _. by rewrite Hc.
  - intros p. apply onUsers_index. intros us. apply createUser_index.
  - intros t. apply onUsers_index. intros us. apply deleteUser_index.
  - intros who what. apply onUsers_index. intros us. apply updateUser_index.
  - by intros k w _ Hw.
  - intros recv m' w Hw. by rewrite tail_users.
  - by right.
Qed.

Lemma index_step dateNow mathRandom jsGe jsLe e w :
  index_ok (users (channel w)) →
  index_ok (users (channel (step dateNow mathRandom jsGe jsLe w e))).
Proof.
  intros Hw. destruct e as [s | s data | s | text]; unfold step, receive.
  - unfold receiveConnection, bind, get, receive.
    destruct (findConn s (relay w)) as [c |]; [exact Hw |].
    unfold modify. cbn [fst snd].
    match goal with |- context [receiveN _ _ _ _ 2 ?m ?w1] =>
      pose proof (index_receiveN dateNow mathRandom jsGe jsLe 2 m w1 Hw) as Hrecv;
      destruct (receiveN dateNow mathRandom jsGe jsLe 2 m w1) as [[[] | e] w2]
    end; exact Hrecv.
  - unfold onMessage. destruct (findConn s (relay w)) as [c |]; [| exact Hw].
    cbn [snd]. unfold messageBody, receive. destruct data as [parsed |]; [| exact Hw].
    destruct (containsForbiddenFields _ _); [exact Hw |].
    destruct (wrapPrimitive parsed); try exact Hw;
      by apply (index_receiveN dateNow mathRandom jsGe jsLe).
  - unfold onClose, bind, get, receive.
    destruct (findConn s (relay w)) as [c |]; [| exact Hw].
    match goal with |- context [receiveN _ _ _ _ 2 ?m ?w1] =>
      pose proof (index_receiveN dateNow mathRandom jsGe jsLe 2 m w1 Hw) as Hrecv;
      destruct (receiveN dateNow mathRandom jsGe jsLe 2 m w1) as [[[] | e] w2]
    end; exact Hrecv.
  - by apply (index_receiveN dateNow mathRandom jsGe jsLe).
Qed.

Lemma index_run dateNow mathRandom jsGe jsLe es : ∀ w,
  index_ok (users (channel w)) →
  index_ok (users (channel (run dateNow mathRandom jsGe jsLe es w))).
Proof.
  induction es as [| e es IH]; intros w Hw; simpl; [exact Hw |].
  apply IH, index_step, Hw.
Qed.

(** ** Names compared without case *)

Lemma nat_of_ascii_inj a b : nat_of_ascii a = nat_of_ascii b → a = b.
Proof. intros H. by rewrite <- (ascii_nat_embedding a), <- (ascii_nat_embedding b), H. Qed.

Lemma lower_ascii_nat c :
  nat_of_ascii (lower_ascii c) =
  (if (Nat.leb 65 (nat_of_ascii c) && Nat.leb (nat_of_ascii c) 90)%bool
   then nat_of_ascii c + 32 else nat_of_ascii c)%nat.
Proof.
  unfold lower_ascii. destruct (_ && _)%bool eqn:Hc; [| reflexivity].
  apply andb_true_iff in Hc as [H1 H2]. apply Nat.leb_le in H1, H2.
  apply nat_ascii_embedding. lia.
Qed.

Lemma lower_ascii_same a b : lower_ascii a = lower_ascii b ↔ sameLetter a b.
Proof.
  unfold sameLetter. split.
  - intros H. apply (f_equal nat_of_ascii) in H. rewrite !lower_ascii_nat in H.
    destruct (Nat.leb_spec 65 (nat_of_ascii a)); destruct (Nat.leb_spec (nat_of_ascii a) 90);
      destruct (Nat.leb_spec 65 (nat_of_ascii b)); destruct (Nat.leb_spec (nat_of_ascii b) 90);
      simpl in H; lia.
  - intros H. apply nat_of_ascii_inj. rewrite !lower_ascii_nat.
    destruct (Nat.leb_spec 65 (nat_of_ascii a)); destruct (Nat.leb_spec (nat_of_ascii a) 90);
      destruct (Nat.leb_spec 65 (nat_of_ascii b)); destruct (Nat.leb_spec (nat_of_ascii b) 90);
      simpl; lia.
Qed.

Lemma asciiLower_same s : ∀ t, asciiLower s = asciiLower t ↔ sameIgnoringCase s t.
Proof.
  unfold sameIgnoringCase.
  induction s as [| a s IH]; intros [| b t]; simpl.
  - split; [constructor | reflexivity].
  - split; [discriminate | intros H; inversion H].
  - split; [discriminate | intros H; inversion H].
  - split.
    + intros [= Hc Hr]. constructor; [by apply lower_ascii_same | by apply IH].
    + intros H. apply Forall2_cons in H as [Hc Hr].
      f_equal; [by apply lower_ascii_same | by apply IH].
Qed.

Lemma toLowerCase_same s t :
  isAscii s = true → isAscii t = true →
  toLowerCase s = toLowerCase t ↔ sameIgnoringCase s t.
Proof. intros Hs Ht. rewrite !toLowerCase_ascii by done. apply asciiLower_same. Qed.

(** ** The name that an identify request gets *)

Lemma asName_inv v w r w' : asName v w = (Ok r, w') → v = JStr r ∧ w' = w.
Proof. destruct v; try discriminate. by intros [= -> ->]. Qed.

Lemma createUser_inv p us us' :
  createUser p us = (Ok tt, us') →
  let u := newChatUser (nextOid us) p in
  mget (toLowerCase (p_name p)) (lowerCaseNames us) = None ∧
  us' = mkUsers (mset (lowerCaseName u) u (lowerCaseNames us))
                (mset (socketId u) u (sockets us))
                (mset (sessionId u) u (sessions us)) (S (nextOid us)).
Proof.
  unfold createUser. destruct (mhas _ (lowerCaseNames us)) eqn:Hn; [discriminate |].
  destruct (mhas _ (sessions us)); [discriminate |].
  destruct (mhas _ (sockets us)); [discriminate |].
  intros [= <-]. split; [by apply mhas_false | reflexivity].
Qed.

Lemma createUser_live p us us' :
  createUser p us = (Ok tt, us') →
  let u := newChatUser (nextOid us) p in
  liveUsers us' = (liveUsers us ++ [u])%list ∧
  getUser (byName (p_name p)) us = None ∧
  getUser (byName (p_name p)) us' = Some u.
Proof.
  intros Hc u. destruct (createUser_inv _ _ _ Hc) as [Hfree ->]. fold u.
  split; [| split].
  - unfold liveUsers, mvalues. cbn [lowerCaseNames].
    change (lowerCaseName u) with (toLowerCase (p_name p)).
    rewrite mset_absent by exact Hfree. by rewrite map_app.
  - exact Hfree.
  - unfold getUser. cbn [byName t_name lowerCaseNames]. apply mget_mset_eq.
Qed.

(** What the first half of the identify stage does when it returns. *)
Lemma identifyUser_created mathRandom m w m' w' :
  identifyUser mathRandom m w = (Ok m', w') →
  let us := users (channel w) in
  let us' := users (channel w') in
  ∃ requested sid u,
    fget "name" m' = Some (JStr requested) ∧
    (∀ n0, fget "name" m = Some (JStr n0) →
           requested = cutName (maxNameLength (channel w)) n0) ∧
    (if bool_decide (is_Some (getUser (byName requested) us)) || bool_decide (requested = "")
     then generateRandomName (mathRandom (draws w)) (mathRandom (S (draws w))) us
          = Some (name u)
     else name u = requested) ∧
    name u ≠ "" ∧
    getUser (byName (name u)) us = None ∧
    createUser (mkProps (keyOf (mid m) (fget "_sender" m)) sid (name u)) us = (Ok tt, us') ∧
    liveUsers us' = (liveUsers us ++ [u])%list ∧
    getUser (byName (name u)) us' = Some u.
Proof.
  intros Hid us us'. revert Hid.
  unfold identifyUser, bind, senderOf, ret, modify, get, lookupUser. cbn beta iota.
  set (w1 := withRelay _ w).
  pose proof (truncated_state (maxNameLength (channel w1)) (fget "name" m) w1) as Ht.
  destruct (truncated _ _ w1) as [[nm | e] w2] eqn:Htr; [| discriminate].
  simpl in Ht. subst w2.
  destruct (asName nm w1) as [[requested | e] w2] eqn:Has; [| discriminate].
  apply asName_inv in Has as [-> ->].
  assert (Hcut : ∀ n0, fget "name" m = Some (JStr n0) →
            requested = cutName (maxNameLength (channel w)) n0).
  { intros n0 Hn0. rewrite Hn0 in Htr. simpl in Htr. by injection Htr as ->. }
  change (users (channel w1)) with us.
  destruct (bool_decide (is_Some _) || bool_decide (requested = "")) eqn:Hcond.
  - unfold suggestName. change (users (channel w1)) with us. change (draws w1) with (draws w).
    destruct (generateRandomName_free (mathRandom (draws w)) (mathRandom (S (draws w))) us)
      as (n & Hgen & Hne & Hfree & _).
    rewrite Hgen.
    match goal with |- context [sidOf ?a ?b] =>
      pose proof (sidOf_channel a b) as Hc4; destruct (sidOf a b) as [[sid | e] w4]
    end; [| discriminate]. simpl in Hc4.
    unfold onUsers.
    destruct (createUser _ (users (channel w4))) as [[[] | e] us5] eqn:Hcreate;
      [| discriminate].
    rewrite Hc4 in Hcreate. change (users (channel w1)) with us in Hcreate.
    cbn beta iota.
    match goal with |- context [nameOf ?u ?w] =>
      pose proof (nameOf_state u w) as Hn; destruct (nameOf u w) as [[x | e] w6];
      [| discriminate] end.
    simpl in Hn. subst w6. intros [= <- <-].
    destruct (createUser_live _ _ _ Hcreate) as (Hlive & _ & Hfound).
    cbn [p_name] in Hfound.
    exists requested, sid,
      (newChatUser (nextOid us) (mkProps (keyOf (mid m) (fget "_sender" m)) sid n)).
    split; [apply fget_fset_eq |]. split; [exact Hcut |].
    rewrite Hcond. cbn [name newChatUser p_name].
    split; [reflexivity |]. split; [exact Hne |]. split; [exact Hfree |].
    split; [exact Hcreate |]. split; [exact Hlive | exact Hfound].
  - apply orb_false_iff in Hcond as [Hfree Hne].
    apply bool_decide_eq_false in Hfree, Hne.
    destruct (template _ w1) as [[s | e] w3] eqn:Htpl; [| discriminate].
    pose proof (template_state (fget "sid" (fset "name" (JStr requested) m)) w1) as Hw3.
    rewrite Htpl in Hw3. simpl in Hw3. subst w3.
    match goal with |- context [sidOf ?a ?b] =>
      pose proof (sidOf_channel a b) as Hc4; destruct (sidOf a b) as [[sid | e] w4]
    end; [| discriminate]. simpl in Hc4.
    unfold onUsers.
    destruct (createUser _ (users (channel w4))) as [[[] | e] us5] eqn:Hcreate;
      [| discriminate].
    rewrite Hc4 in Hcreate. change (users (channel w1)) with us in Hcreate.
    intros [= <- <-].
    destruct (createUser_live _ _ _ Hcreate) as (Hlive & _ & Hfound).
    cbn [p_name] in Hfound.
    exists requested, sid,
      (newChatUser (nextOid us) (mkProps (keyOf (mid m) (fget "_sender" m)) sid requested)).
    split; [apply fget_fset_eq |]. split; [exact Hcut |].
    rewrite (proj2 (orb_false_iff _ _)); [| split; by apply bool_decide_eq_false].
    cbn [name newChatUser p_name].
    split; [reflexivity |]. split; [exact Hne |].
    split; [by apply eq_None_not_Some |].
    split; [exact Hcreate |]. split; [exact Hlive | exact Hfound].
Qed.

(** The first half of the identify stage returns when the name and the
    session id are strings and neither the session nor the connection has
    a user. *)
Lemma identifyUser_returns mathRandom m w k n0 sd :
  fget "_sender" m = Some (JNum k) →
  fget "name" m = Some (JStr n0) →
  fget "sid" m = Some (JStr sd) →
  getUser (bySession (VStr sd)) (users (channel w)) = None →
  getUser (bySocket (VNum k)) (users (channel w)) = None →
  ∃ m' w', identifyUser mathRandom m w = (Ok m', w').
Proof.
  intros Hs Hn Hsd Hsess Hsock.
  set (us := users (channel w)) in *.
  assert (Hcreate : ∀ n, getUser (byName n) us = None →
            ∃ us', createUser (mkProps (VNum k) (VStr sd) n) us = (Ok tt, us') ∧
                   getUser (bySocket (VNum k)) us' =
                     Some (newChatUser (nextOid us) (mkProps (VNum k) (VStr sd) n))).
  { intros n Hfree. unfold createUser. unfold getUser in Hfree, Hsess, Hsock.
    simpl in Hfree, Hsess, Hsock. cbn [p_name p_sessionId p_socketId].
    rewrite (proj2 (mhas_false _ _) Hfree), (proj2 (mhas_false _ _) Hsess),
            (proj2 (mhas_false _ _) Hsock).
    eexists. split; [reflexivity |]. unfold getUser. simpl. apply mget_mset_eq. }
  set (requested := cutName (maxNameLength (channel w)) n0).
  assert (Hsd' : fget "sid" (fset "name" (JStr requested) m) = Some (JStr sd))
    by (by rewrite fget_fset_ne).
  unfold identifyUser, truncated, asName, template, sidOf, onUsers, senderOf, lookupUser,
    modify, get, bind, ret, throw.
  rewrite Hs, Hn. cbv beta iota.
  cbn [keyOf channel withRelay maxNameLength users]. fold us requested.
  destruct (bool_decide (is_Some _) || bool_decide (requested = "")) eqn:Hcond.
  - unfold suggestName. cbn [channel users draws withRelay]. fold us.
    destruct (generateRandomName_free (mathRandom (draws w)) (mathRandom (S (draws w))) us)
      as (n & Hgen & _ & Hfree & _).
    rewrite Hgen, Hsd'. cbn [keyOf channel users withRelay]. fold us.
    destruct (Hcreate n Hfree) as (us' & -> & Hfound). cbn [channel withChannel withUsers users].
    rewrite Hfound. by eexists _, _.
  - apply orb_false_iff in Hcond as [Hfree _]. apply bool_decide_eq_false in Hfree.
    apply eq_None_not_Some in Hfree.
    rewrite Hsd'. cbn [toStrOpt toStr keyOf channel users withRelay]. fold us.
    destruct (Hcreate requested Hfree) as (us' & -> & _). by eexists _, _.
Qed.

(** C8.  The name generator always returns (its loop ends), with a name
    that is not empty and that no user holds: the noun, or the adjective
    and the noun, or these followed by [-2], [-3], ... in turn while the
    name before is taken.  Whenever the first half of the identify stage
    returns, it has created one user, the last of the users now; when the
    name asked for (cut to the maximum length) is empty or is the name of
    a user, compared in lower case, the name of the new user is the one
    that the generator returns, and otherwise it is the name asked for; it
    is not empty, and no user held it.  The stage does return when the
    name and the session id are strings and neither the session id nor the
    connection has a user.  Whatever happens to the server, no two users
    have the same name compared in lower case, and the new user of an
    identify request has a name that differs from every other user's in
    more than case.  Names of ASCII characters are equal in lower case
    exactly when they differ at most in the case of letters; beyond ASCII,
    a client that asks for "école" when "École" is a user gets a generated
    name. *)
Theorem identify_assigns_unique_name dateNow mathRandom jsGe jsLe :
  (∀ r1 r2 us,
     ∃ n, generateRandomName r1 r2 us = Some n ∧ n ≠ "" ∧
          getUser (byName n) us = None ∧
          let noun := pick animals r1 in
          let both := pick adjectives r2 ++ " " ++ noun in
          let taken s := is_Some (getUser (byName s) us) in
          (n = noun ∨
           (n = both ∧ taken noun) ∨
           ∃ c, (2 ≤ c)%nat ∧ n = both ++ "-" ++ pretty c ∧ taken noun ∧ taken both ∧
                ∀ c', (2 ≤ c' < c)%nat → taken (both ++ "-" ++ pretty c'))) ∧
  (∀ m w m' w',
     identifyUser mathRandom m w = (Ok m', w') →
     let us := users (channel w) in
     let us' := users (channel w') in
     ∃ requested sid u,
       fget "name" m' = Some (JStr requested) ∧
       (∀ n0, fget "name" m = Some (JStr n0) →
              requested = cutName (maxNameLength (channel w)) n0) ∧
       (if bool_decide (is_Some (getUser (byName requested) us))
           || bool_decide (requested = "")
        then generateRandomName (mathRandom (draws w)) (mathRandom (S (draws w))) us
             = Some (name u)
        else name u = requested) ∧
       name u ≠ "" ∧
       getUser (byName (name u)) us = None ∧
       createUser (mkProps (keyOf (mid m) (fget "_sender" m)) sid (name u)) us
         = (Ok tt, us') ∧
       liveUsers us' = (liveUsers us ++ [u])%list ∧
       getUser (byName (name u)) us' = Some u) ∧
  (∀ m w k n0 sd,
     fget "_sender" m = Some (JNum k) →
     fget "name" m = Some (JStr n0) →
     fget "sid" m = Some (JStr sd) →
     getUser (bySession (VStr sd)) (users (channel w)) = None →
     getUser (bySocket (VNum k)) (users (channel w)) = None →
     ∃ m' w', identifyUser mathRandom m w = (Ok m', w')) ∧
  (∀ maxH maxN es,
     let w := run dateNow mathRandom jsGe jsLe es (newWorld maxH maxN) in
     names_unique (users (channel w)) ∧
     ∀ m m' w',
       identifyUser mathRandom m w = (Ok m', w') →
       names_unique (users (channel w')) ∧
       ∃ u, liveUsers (users (channel w')) = (liveUsers (users (channel w)) ++ [u])%list ∧
            name u ≠ "" ∧
            ∀ v, v ∈ liveUsers (users (channel w)) →
                 toLowerCase (name v) ≠ toLowerCase (name u)) ∧
  (∀ s t, isAscii s = true → isAscii t = true →
          (toLowerCase s = toLowerCase t ↔ sameIgnoringCase s t)) ∧
  (let w := run clock0 dice0 numGe numLe
              [Connection 7; Frame 7 (Some (identifyFrame "École" "s1"));
               Connection 8; Frame 8 (Some (identifyFrame "école" "s2"))]
              (newWorld 50 30) in
   map name (liveUsers (users (channel w))) = ["École"; "Aardvark"]).
Proof.
  split; [apply generateRandomName_free |].
  split; [apply identifyUser_created |].
  split; [apply identifyUser_returns |].
  split; [| split; [apply toLowerCase_same | vm_compute; reflexivity]].
  intros maxH maxN es w.
  assert (Hok : index_ok (users (channel w))).
  { apply index_run. apply index_empty. }
  split; [by apply index_names_unique |].
  intros m m' w' Hid.
  destruct (identifyUser_created _ _ _ _ _ Hid)
    as (requested & sid & u & _ & _ & _ & Hne & Hfree & Hcreate & Hlive & _).
  assert (Hok' : index_ok (users (channel w'))).
  { pose proof (createUser_index (mkProps (keyOf (mid m) (fget "_sender" m)) sid (name u))
                  _ Hok) as H.
    by rewrite Hcreate in H. }
  split; [by apply index_names_unique |].
  exists u. split; [exact Hlive |]. split; [exact Hne |].
  intros v Hv Heq.
  destruct (index_names_unique _ Hok) as [_ Hfind].
  assert (Hsome : getUser (byName (name u)) (users (channel w)) = Some v)
    by (by apply Hfind).
  congruence.
Qed.

(** An instance of [identify_assigns_unique_name]: Alice is the only user;
    the connection 1 asks for the name "alice" and gets the name that the
    generator returns, "Aardvark". *)
Lemma identify_assigns_unique_name_witness :
  let w := started aliceAndGuest in
  let m := frameMessage 1 [("request", JStr "identify"); ("name", JStr "alice");
                           ("sid", JStr "s2")] aliceAndGuest in
  map name (liveUsers (users (channel w))) = ["Alice"] ∧
  ∃ m' w' u,
    identifyUser dice0 m w = (Ok m', w') ∧
    name u = "Aardvark" ∧
    liveUsers (users (channel w')) = (liveUsers (users (channel w)) ++ [u])%list.
Proof.
  intros w m. split; [vm_compute; reflexivity |].
  pose proof (identify_assigns_unique_name clock0 dice0 numGe numLe)
    as (_ & Hcreated & Hreturns & _).
  destruct (Hreturns m w 1 "alice" "s2") as (m' & w' & Hid);
    [vm_compute; reflexivity .. |].
  destruct (Hcreated m w m' w' Hid)
    as (requested & sid & u & _ & Hcut & Hname & _ & _ & _ & Hlive & _).
  exists m', w', u. split; [exact Hid |]. split; [| exact Hlive].
  rewrite (Hcut "alice" eq_refl) in Hname.
  assert (Hreq : cutName (maxNameLength (channel w)) "alice" = "alice")
    by (vm_compute; reflexivity).
  rewrite Hreq in Hname.
  assert (Hcond : bool_decide (is_Some (getUser (byName "alice") (users (channel w))))
                  || bool_decide ("alice" = "") = true) by (vm_compute; reflexivity).
  rewrite Hcond in Hname.
  assert (Hgen : generateRandomName (dice0 (draws w)) (dice0 (S (draws w)))
                   (users (channel w)) = Some "Aardvark") by (vm_compute; reflexivity).
  rewrite Hgen in Hname. by injection Hname as <-.
Defined.

(** ** A socket closes *)

Section Disconnect.

Variable dateNow : nat → Z.
Variable mathRandom : nat → nat.
Variable jsGe jsLe : Z → json → bool.

Lemma receive_disconnect fuel id w :
  receiveN dateNow mathRandom jsGe jsLe (S fuel)
    (obj [("_sender", JNum id); ("_event", JStr "disconnect")]) w =
  bind (disconnectStage (receiveN dateNow mathRandom jsGe jsLe fuel)
          (mkMsg (nextObj w) None [("_sender", JNum id); ("_event", JStr "disconnect")]))
       (λ r, if r.2 then ret tt
             else process (drop 2 (stages dateNow mathRandom jsGe jsLe
                                     (receiveN dateNow mathRandom jsGe jsLe fuel))) r.1)
       (started w).
Proof. reflexivity. Qed.

(** The world after the close of a tracked socket. *)
Lemma close_world s c w :
  findConn s (relay w) = Some c →
  index_ok (users (channel w)) →
  let us := users (channel w) in
  let who := getUser (bySocket (VNum (id c))) us in
  let uname := match who with Some u => name u | None => "Unknown user" end in
  let us' := match who with Some u => without u us | None => us end in
  printableSessions us' = true →
  let w1 := withChannel (withUsers (λ _, us')) (started w) in
  let w2 := afterAnnouncement dateNow (uname ++ " disconnected.") w1 in
  let w3 := afterNotice dateNow [("_set", JStr "users"); ("value", JArr (userNames us'))] w2 in
  (onClose dateNow mathRandom jsGe jsLe s w).2 =
    withRelay (λ r, mkRelay (List.filter (λ c, negb (Nat.eqb (sock c) s)) (r_sockets r))
                            (connectionID r) (sent r)) w3.
Proof.
  intros Hfind Hok us who uname us' Hprint w1 w2 w3.
  unfold onClose, bind at 1, get. rewrite Hfind. unfold receive.
  assert (Hfirst : (match who with
                    | Some u => onUsers (deleteUser (traitOfUser u)) >> ret (name u)
                    | None => ret "Unknown user"
                    end) (started w) = (Ok uname, w1)).
  { subst uname us' w1. destruct who as [u |] eqn:Hwho.
    - unfold bind, onUsers, ret.
      change (users (channel (started w))) with us.
      unfold deleteUser, getUser at 1. cbn [traitOfUser t_name].
      change (toLowerCase (name u)) with (lowerCaseName u).
      pose proof (index_found (bySocket (VNum (id c))) us u Hok Hwho) as Hin.
      cbn [lowerCaseNames]. rewrite Hin. reflexivity.
    - unfold ret. f_equal. unfold withChannel, withUsers, started. simpl.
      destruct w as [[] ? ? ? ?]. reflexivity. }
  assert (Hstage : disconnectStage (receiveN dateNow mathRandom jsGe jsLe 1)
            (mkMsg (nextObj w) None [("_sender", JNum (id c)); ("_event", JStr "disconnect")])
            (started w)
          = (Ok (mkMsg (nextObj w) None
                   [("_sender", JNum (id c)); ("_event", JStr "disconnect")], true), w3)).
  { unfold disconnectStage, bind at 1, senderOf, ret at 1. cbv beta iota.
    change (keyOf _ _) with (VNum (id c)).
    unfold bind at 1, lookupUser at 1. cbv beta iota.
    change (users (channel (started w))) with us. fold who.
    unfold bind at 1. rewrite Hfirst.
    unfold bind at 1. rewrite receive_announcement.
    change (afterAnnouncement dateNow _ w1) with w2.
    unfold bind at 1, broadcastUserList, bind at 1, get.
    unfold bind at 1.
    change (users (channel w2)) with us'.
    rewrite receive_set.
    change (afterNotice dateNow _ w2) with w3.
    unfold logUsers.
    change (users (channel w3)) with us'.
    unfold printableSessions in Hprint. rewrite Hprint. reflexivity. }
  unfold bind at 1. rewrite receive_disconnect. unfold bind at 1. rewrite Hstage.
  reflexivity.
Qed.

End Disconnect.

Lemma findConn_filtered s cs :
  List.find (λ c, Nat.eqb (sock c) s) (List.filter (λ c, negb (Nat.eqb (sock c) s)) cs) = None.
Proof.
  induction cs as [| c cs IH]; simpl; [reflexivity |].
  destruct (Nat.eqb (sock c) s) eqn:E; simpl; [exact IH |]. by rewrite E.
Qed.

(** A tracked socket closes, in a state where the name index is in order
    (as it is in every state that the server reaches) and the session ids
    of the users that stay can be printed.  The user of the connection, if
    there is one, is removed from the registry: no lookup by its name or by
    the connection finds it.  That the user (or "Unknown user")
    disconnected is recorded under the next serial and sent to every
    approved listener, and so is the user list without the user; the
    closing socket is among the listeners, because it is removed from the
    tracked sockets only afterwards. *)
Theorem close_outcome dateNow mathRandom jsGe jsLe s c w :
  findConn s (relay w) = Some c →
  index_ok (users (channel w)) →
  let us := users (channel w) in
  let who := getUser (bySocket (VNum (id c))) us in
  let uname := match who with Some u => name u | None => "Unknown user" end in
  let us' := match who with Some u => without u us | None => us end in
  printableSessions us' = true →
  let w' := (onClose dateNow mathRandom jsGe jsLe s w).2 in
  let ts1 := stampOf dateNow w in
  let ts2 := nextTimestamp (dateNow (S (ticks w))) ts1 in
  let announcement :=
    [("text", JStr (uname ++ " disconnected.")); ("_time", JNum ts1);
     ("_serial", JNum (lastSerial (channel w) + 1))] in
  users (channel w') = us' ∧
  (∀ u, who = Some u →
        getUser (byName (name u)) us' = None ∧
        getUser (bySocket (VNum (id c))) us' = None) ∧
  r_sockets (relay w') =
    List.filter (λ c, negb (Nat.eqb (sock c) s)) (r_sockets (relay w)) ∧
  findConn s (relay w') = None ∧
  (∃ record, props record = announcement ∧
     history (channel w') = trim (maxHistory (channel w)) (history (channel w) ++ [record])) ∧
  lastSerial (channel w') = lastSerial (channel w) + 1 ∧
  delivered w w' =
    (toApproved (relay w) (JObj announcement) ++
     toApproved (relay w)
       (JObj [("_set", JStr "users"); ("value", JArr (userNames us'));
              ("_time", JNum ts2)]))%list.
Proof.
  intros Hfind Hok us who uname us' Hprint w' ts1 ts2 announcement.
  assert (Hw' : w' = _) by exact (close_world dateNow mathRandom jsGe jsLe s c w Hfind Hok Hprint).
  rewrite Hw'. split; [reflexivity |]. split; [| split; [reflexivity |]].
  - intros u Hu. subst us'. rewrite Hu. unfold without, getUser. simpl. split.
    + apply mget_mdelete_eq.
    + destruct (ix_sockets _ Hok _ _ Hu) as [<- _]. apply mget_mdelete_eq.
  - split; [apply findConn_filtered |].
    split; [eexists; split; [| reflexivity]; reflexivity |]. split; [reflexivity |].
    apply delivered_app. unfold afterNotice, afterAnnouncement, encode.
    cbn [relay sent withRelay items props]. by rewrite <- app_assoc.
Qed.

(** An instance of [close_outcome]: Alice's socket closes while Bob is
    connected. *)
Lemma close_outcome_witness :
  userNames (users (channel (onClose clock0 dice0 numGe numLe 7 aliceAndBob).2))
    = [JStr "Bob"] ∧
  map sock (r_sockets (relay (onClose clock0 dice0 numGe numLe 7 aliceAndBob).2)) = [8%nat] ∧
  map fst (delivered aliceAndBob (onClose clock0 dice0 numGe numLe 7 aliceAndBob).2)
    = [7%nat; 8%nat; 7%nat; 8%nat].
Proof.
  destruct (close_outcome clock0 dice0 numGe numLe 7 (mkConn 7 0 true) aliceAndBob)
    as (Hu & _ & Hr & _ & _ & _ & Hd).
  - vm_compute. reflexivity.
  - apply (index_run clock0 dice0 numGe numLe [Frame 8 (Some (identifyFrame "Bob" "s2"))]).
    apply (index_run clock0 dice0 numGe numLe
             [Connection 7; Frame 7 (Some (identifyFrame "Alice" "s1")); Connection 8]).
    apply index_empty.
  - vm_compute. reflexivity.
  - rewrite Hu, Hr, Hd. vm_compute. repeat split.
Defined.

(** ** A socket connects *)

Lemma receive_connect dateNow mathRandom jsGe jsLe fuel id w :
  receiveN dateNow mathRandom jsGe jsLe (S fuel)
    (obj [("_sender", JNum id); ("_event", JStr "connect")]) w = (Ok tt, started w).
Proof. reflexivity. Qed.

(** A socket that is not tracked yet connects: it is tracked from now on,
    as the last of the sockets, under the next connection id and not yet
    approved as a listener; the counter of ids advances.  The connect event
    that the relay hands to the channel ends at the first stage: nothing
    is sent, recorded or registered, and the clock is not read.  A socket
    that is tracked already changes nothing. *)
Theorem connection_outcome dateNow mathRandom jsGe jsLe s w :
  let r := receiveConnection dateNow mathRandom jsGe jsLe s w in
  match findConn s (relay w) with
  | None =>
    r.1 = Ok true ∧
    r_sockets (relay r.2)
      = (r_sockets (relay w) ++ [mkConn s (connectionID (relay w)) false])%list ∧
    connectionID (relay r.2) = connectionID (relay w) + 1 ∧
    sent (relay r.2) = sent (relay w) ∧
    channel r.2 = channel w ∧
    ticks r.2 = ticks w
  | Some _ => r = (Ok false, w)
  end.
Proof.
  intros r. subst r. unfold receiveConnection, bind, get, modify, receive, ret.
  cbv beta iota. destruct (findConn s (relay w)) as [c |]; [reflexivity |].
  rewrite receive_connect. repeat split.
Qed.

(** ** An array as a frame *)

Section ArrayFrame.

Variable dateNow : nat → Z.
Variable mathRandom : nat → nat.
Variable jsGe jsLe : Z → json → bool.

Lemma receive_array fuel id l w :
  receiveN dateNow mathRandom jsGe jsLe (S fuel)
    (fset "_event" (JStr "transmit") (fset "_sender" (JNum id) (mkMsg 0 (Some l) []))) w =
  bind (transmitStage
          (mkMsg (nextObj w) (Some l) [("_sender", JNum id); ("_event", JStr "transmit")]))
       (λ r, if r.2 then ret tt
             else process (drop 7 (stages dateNow mathRandom jsGe jsLe
                                     (receiveN dateNow mathRandom jsGe jsLe fuel))) r.1)
       (started w).
Proof. reflexivity. Qed.

End ArrayFrame.

(** A frame that is an array, from the connection of a registered user.
    The relay and the stages give the array the properties of a message
    ([_event], the name of the sender, [_time], [_serial]), and the array
    is recorded with them under the next serial; but what is sent to the
    approved listeners is the encoding of the array, which has its
    elements only: the listeners get neither the name of the sender nor a
    time nor a serial. *)
Theorem array_frame_outcome dateNow mathRandom jsGe jsLe s c l w u :
  findConn s (relay w) = Some c →
  containsForbiddenFields (JArr l) 0 = false →
  getUser (bySocket (VNum (id c))) (users (channel w)) = Some u →
  let w' := (onMessage dateNow mathRandom jsGe jsLe s (Some (JArr l)) w).2 in
  let record :=
    mkMsg (nextObj w) (Some l)
      [("_event", JStr "transmit"); ("name", JStr (name u));
       ("_time", JNum (stampOf dateNow w));
       ("_serial", JNum (lastSerial (channel w) + 1))] in
  history (channel w') = trim (maxHistory (channel w)) (history (channel w) ++ [record]) ∧
  lastSerial (channel w') = lastSerial (channel w) + 1 ∧
  users (channel w') = users (channel w) ∧
  delivered w w' = toApproved (relay w) (JArr l).
Proof.
  intros Hfind Hclean Hu w' record.
  assert (Hw' : w' =
    mkWorld (mkChannel (users (channel w)) (lastSerial (channel w) + 1)
               (stampOf dateNow w) (maxHistory (channel w)) (maxNameLength (channel w))
               (trim (maxHistory (channel w)) (history (channel w) ++ [record])))
            (mkRelay (r_sockets (relay w)) (connectionID (relay w))
               (sent (relay w) ++ toApproved (relay w) (JArr l)))
            (S (ticks w)) (draws w) (S (nextObj w))).
  { subst w'. unfold onMessage. rewrite Hfind. unfold messageBody. cbn [wrapPrimitive snd].
    rewrite Hclean. unfold receive. rewrite receive_array.
    unfold bind at 1, transmitStage, bind at 1 2 3, senderOf, lookupUser, ret at 1.
    cbv beta iota. cbn [fget getField props]. rewrite decide_True by reflexivity.
    cbn [keyOf]. change (users (channel (started w))) with (users (channel w)). rewrite Hu.
    unfold nameOf, ret at 1 2. cbv beta iota. cbn [snd fst].
    rewrite tail_stages. cbv zeta.
    change (stampOf dateNow (started w)) with (stampOf dateNow w).
    unfold fset, fdel. cbn [props mid items setField delField].
    repeat (rewrite ?decide_True by reflexivity; rewrite ?decide_False by discriminate;
            cbn [setField delField]).
    match goal with |- context [matches ?p ?m] =>
      assert (Hm : matches p m = true) by (rewrite matches_one; reflexivity) end.
    rewrite Hm.
    unfold rememberStage, bind, get, modify, template, ret, fset, fdel.
    cbn [fst snd props mid items setField delField fget getField channel lastSerial].
    repeat (rewrite ?decide_True by reflexivity; rewrite ?decide_False by discriminate;
            cbn [setField delField getField]).
    cbn [toStrOpt toStr fst snd]. unfold broadcastStage, broadcast.
    cbn [fget getField props fst snd channel relay withChannel withHistory withLastSerial
         history lastSerial users sent r_sockets encode items maxHistory].
    repeat (rewrite ?decide_True by reflexivity; rewrite ?decide_False by discriminate;
            cbn [getField]).
    reflexivity. }
  rewrite Hw'. split_and!; try reflexivity.
  by apply delivered_app.
Qed.

(** An instance of [array_frame_outcome]: Alice sends an array, and Bob and
    she are sent the array and nothing else. *)
Lemma array_frame_outcome_witness :
  delivered aliceAndBob
    (onMessage clock0 dice0 numGe numLe 7 (Some (JArr [JNum 1; JStr "x"])) aliceAndBob).2
  = [(7%nat, JArr [JNum 1; JStr "x"]); (8%nat, JArr [JNum 1; JStr "x"])].
Proof.
  destruct (array_frame_outcome clock0 dice0 numGe numLe 7 (mkConn 7 0 true)
              [JNum 1; JStr "x"] aliceAndBob (mkUser 0 (VNum 0) (VStr "s1") "Alice"))
    as (_ & _ & _ & Hd); [vm_compute; reflexivity .. |].
  rewrite Hd. vm_compute. reflexivity.
Defined.
